(** * google-maps-explorer: the webview interaction hook, the session
    controller, the store client, the main process and the map window,
    embedded in Rocq.

    Sources embedded here:
    - [hooks/useWebviewInteraction] (the hook: listeners, poll, interaction
      patch, page classification, business extraction);
    - [App.tsx] (session list, in-session deduplication, export);
    - [supabaseClient.ts] (client initialisation, save, date-range query,
      chunked query for the map);
    - [preload.ts] (main process: export handler, map window);
    - [components/MapWindowContentView.tsx] (what the map window shows);
    - [types/business.ts] (the [BusinessInfo] record).

    JavaScript strings are modelled as [string], numbers as IEEE binary64
    values ([spec_float]), objects as finite maps from property names to
    values, and exceptions by a completion monad. *)

From Stdlib Require Import ZArith String Ascii List Bool Lia.
From Stdlib Require Import Floats.SpecFloat.
From stdpp Require Import base tactics option list strings gmap.

Set Warnings "-register-all".
Local Open Scope Z_scope.
Local Open Scope list_scope.
Local Open Scope stdpp_scope.

(* ===================================================================== *)
(** * Part I: definitions                                                 *)
(* ===================================================================== *)

(** ** JavaScript values, strings and completions *)

Module JS.

Inductive JSValue :=
| JUndefined
| JNull
| JBool (b : bool)
| JNum (x : spec_float)
| JStr (s : string)
| JObj (o : gmap string JSValue).

(** [ToBoolean]: what [!!v] and [if (v)] see. *)
Definition truthy (v : JSValue) : bool :=
  match v with
  | JUndefined | JNull => false
  | JBool b => b
  | JNum (S754_zero _) | JNum S754_nan => false
  | JNum _ => true
  | JStr s => negb (String.eqb s "")
  | JObj _ => true
  end.

(** [typeof v === 'object'] ([typeof null] is ['object'] too). *)
Definition typeof_object (v : JSValue) : bool :=
  match v with
  | JNull | JObj _ => true
  | _ => false
  end.

(** [v && typeof v === 'object' && key in v] *)
Definition object_with_key (key : string) (v : JSValue) : bool :=
  truthy v && typeof_object v &&
  match v with
  | JObj o => bool_decide (is_Some (o !! key))
  | _ => false
  end.

(** Property read on an object: a missing property reads [undefined]. *)
Definition prop (o : gmap string JSValue) (key : string) : JSValue :=
  default JUndefined (o !! key).

(** [s.startsWith(needle)] *)
Fixpoint startsWith (s needle : string) : bool :=
  match needle, s with
  | EmptyString, _ => true
  | String a needle', String b s' => Ascii.eqb a b && startsWith s' needle'
  | String _ _, EmptyString => false
  end.

(** [s.includes(needle)] *)
Fixpoint includes (s needle : string) : bool :=
  startsWith s needle ||
  match s with
  | EmptyString => false
  | String _ rest => includes rest needle
  end.

(** The rest of [s] after its first [n] characters. *)
Fixpoint string_drop (n : nat) (s : string) : string :=
  match n, s with
  | O, _ => s
  | S n', String _ rest => string_drop n' rest
  | S _, EmptyString => EmptyString
  end.

(** [s.replace(pat, rep)] with a string pattern: the first occurrence only. *)
Fixpoint replace (s pat rep : string) : string :=
  if startsWith s pat then rep +:+ string_drop (String.length pat) s
  else match s with
       | EmptyString => EmptyString
       | String c rest => String c (replace rest pat rep)
       end.

(** A statement list either completes with a value or throws one. *)
Inductive Completion (A : Type) :=
| Return (a : A)
| Throw (e : JSValue).
Arguments Return {A} a.
Arguments Throw {A} e.

Definition bind {A B} (c : Completion A) (k : A -> Completion B) : Completion B :=
  match c with
  | Return a => k a
  | Throw e => Throw e
  end.

(** [try { body } catch (e) { handler(e) }] *)
Definition try_catch {A} (body : Completion A) (handler : JSValue -> Completion A)
  : Completion A :=
  match body with
  | Return a => Return a
  | Throw e => handler e
  end.

(** [e.message]: reading a property of [undefined] or [null] is itself a
    [TypeError]; a primitive has no own [message]. *)
Definition type_error (msg : string) : JSValue :=
  JObj {[ "message" := JStr msg ]}.

Definition get_message (e : JSValue) : Completion JSValue :=
  match e with
  | JUndefined | JNull => Throw (type_error "Cannot read properties of undefined")
  | JObj o => Return (prop o "message")
  | _ => Return JUndefined
  end.

(** [new Error(msg)] as far as the code looks at it. *)
Definition Error (msg : string) : JSValue := JObj {[ "message" := JStr msg ]}.

End JS.

Import JS.

#[global] Instance completion_ret : MRet Completion := fun A a => Return a.
#[global] Instance completion_bind : MBind Completion := fun A B k c => JS.bind c k.

(** The outcome of a promise as its continuation sees it. *)
Inductive Settled (A : Type) :=
| Resolved (a : A)
| Rejected (e : JSValue).
Arguments Resolved {A} a.
Arguments Rejected {A} e.

(** ** [types/business.ts] *)

Record Coordinates := { lat : spec_float; lng : spec_float }.

Record BusinessInfo := {
  name : string;
  address : option string;
  phone : option string;
  website : option string;
  description : option string;
  hours : option JSValue;
  coordinates : option Coordinates;
  screenshot : option string;
  imageUrl : option string;
  research : option JSValue;
  apollo : option JSValue;
  googlePlaceId : option string
}.

(** ** The embedded page: a document as a store of nodes

    Nodes are kept in document order; a node is identified by its index
    (the identity of the DOM object), and [parent] points to an earlier
    index.  A text node has tag ["#text"] and carries [data]. *)

Module Dom.

Record Node := {
  tag : string;
  attrs : gmap string string;
  style : gmap string string;
  parent : option nat;
  data : string
}.

Definition is_element (n : Node) : bool := negb (String.eqb (tag n) "#text").

(** Selectors, as far as the injected scripts use them. *)
Inductive Simple :=
| SClass (c : string)                 (* .c *)
| STag (t : string)                   (* t *)
| SAttrEq (k v : string)              (* [k='v'] *)
| SAttrPrefix (k v : string)          (* [k^='v'] *)
| SAttrContains (k v : string).       (* [k*='v'] *)

(** A compound selector is a conjunction, a selector list a disjunction. *)
Definition Compound := list Simple.
Definition Selector := list Compound.

Definition is_space (c : ascii) : bool :=
  match c with
  | " " | "009" | "010" | "012" | "013" => true
  | _ => false
  end%char.

(** The tokens of a [class] attribute. *)
Fixpoint tokens_from (s cur : string) : list string :=
  match s with
  | EmptyString => if String.eqb cur "" then [] else [cur]
  | String c rest =>
      if is_space c
      then (if String.eqb cur "" then tokens_from rest ""
            else cur :: tokens_from rest "")
      else tokens_from rest (cur +:+ String c "")
  end.

Definition class_list (n : Node) : list string :=
  tokens_from (default "" (attrs n !! "class")) "".

Definition matches_simple (s : Simple) (n : Node) : bool :=
  match s with
  | SClass c => existsb (String.eqb c) (class_list n)
  | STag t => String.eqb t (tag n)
  | SAttrEq k v =>
      match attrs n !! k with Some a => String.eqb a v | None => false end
  | SAttrPrefix k v =>
      match attrs n !! k with Some a => startsWith a v | None => false end
  | SAttrContains k v =>
      match attrs n !! k with Some a => includes a v | None => false end
  end.

Definition matches (sel : Selector) (n : Node) : bool :=
  is_element n && existsb (fun c => forallb (fun s => matches_simple s n) c) sel.

(** Indices of the nodes satisfying [p], in document order. *)
Fixpoint indices_from (p : Node -> bool) (i : nat) (doc : list Node) : list nat :=
  match doc with
  | [] => []
  | n :: rest => if p n then i :: indices_from p (S i) rest
                 else indices_from p (S i) rest
  end.

(** [document.querySelectorAll(sel)] *)
Definition querySelectorAll (sel : Selector) (doc : list Node) : list nat :=
  indices_from (matches sel) 0 doc.

(** [document.querySelector(sel)] *)
Definition querySelector (sel : Selector) (doc : list Node) : option nat :=
  head (querySelectorAll sel doc).

(** [document.getElementById(id)] *)
Definition getElementById (id : string) (doc : list Node) : option nat :=
  head (indices_from (fun n => is_element n &&
          match attrs n !! "id" with Some a => String.eqb a id | None => false end) 0 doc).

(** [document.body] *)
Definition body (doc : list Node) : option nat :=
  head (indices_from (fun n => String.eqb (tag n) "body") 0 doc).

(** [j] lies strictly below [i]: walk the parent chain of [j]. *)
Fixpoint below (fuel : nat) (doc : list Node) (i j : nat) : bool :=
  match fuel with
  | O => false
  | S fuel' =>
      match doc !! j with
      | Some n =>
          match parent n with
          | Some p => Nat.eqb p i || below fuel' doc i p
          | None => false
          end
      | None => false
      end
  end.

Definition descendant (doc : list Node) (i j : nat) : bool :=
  below (length doc) doc i j.

(** [el.querySelector(sel)]: the first match among the descendants. *)
Definition querySelectorIn (i : nat) (sel : Selector) (doc : list Node) : option nat :=
  head (filter (fun j => descendant doc i j) (querySelectorAll sel doc)).

(** [el.textContent]: the text of the node's descendants, in order. *)
Fixpoint text_from (doc all : list Node) (i j : nat) : string :=
  match doc with
  | [] => ""
  | n :: rest =>
      (if negb (is_element n) && (Nat.eqb i j || descendant all i j)
       then data n else "") +:+ text_from rest all i (S j)
  end.

Definition textContent (doc : list Node) (i : nat) : string :=
  text_from doc doc i 0.

(** [el.href]: the [href] of an anchor; other elements have no such
    property.  The attribute is taken to hold an absolute URL. *)
Definition href (doc : list Node) (i : nat) : JSValue :=
  match doc !! i with
  | Some n => if String.eqb (tag n) "a"
              then JStr (default "" (attrs n !! "href"))
              else JUndefined
  | None => JUndefined
  end.

(** [el.style[k] = v] *)
Definition style_set (k v : string) (n : Node) : Node :=
  {| tag := tag n; attrs := attrs n; style := <[k := v]> (style n);
     parent := parent n; data := data n |}.

(** [list.forEach(el => f(el))] over a static list of node identities. *)
Definition forEach (idxs : list nat) (f : Node -> Node) (doc : list Node) : list Node :=
  foldl (fun d i => alter f i d) doc idxs.

End Dom.

(** ** What an injected script can observe

    The scripts run inside the page through this interface.  Every
    primitive may throw: the page is not under the application's control. *)

Record DomApi := {
  El : Type;
  document_title : Completion string;
  location_href : Completion string;
  document_querySelector : Dom.Selector -> Completion (option El);
  element_querySelector : El -> Dom.Selector -> Completion (option El);
  element_textContent : El -> Completion JSValue;
  element_href : El -> Completion JSValue
}.

(** A page as the webview shows it. *)
Record Page := {
  title : string;
  url : string;
  nodes : list Dom.Node
}.

(** The interface a well-behaved page offers: nothing throws. *)
Definition page_api (p : Page) : DomApi := {|
  El := nat;
  document_title := Return (title p);
  location_href := Return (url p);
  document_querySelector := fun sel => Return (Dom.querySelector sel (nodes p));
  element_querySelector := fun i sel => Return (Dom.querySelectorIn i sel (nodes p));
  element_textContent := fun i => Return (JStr (Dom.textContent (nodes p) i));
  element_href := fun i => Return (Dom.href (nodes p) i)
|}.

(** [webview.executeJavaScript(script)]: the promise resolves with the
    script's value and rejects with what it throws. *)
Definition executeJavaScript {A} (script : Completion A) : Settled A :=
  match script with
  | Return v => Resolved v
  | Throw e => Rejected e
  end.

(** ** The coordinate pattern [/@(-?\d+\.\d+),(-?\d+\.\d+)/] *)

Module Coords.

Definition is_digit (c : ascii) : bool :=
  (48 <=? nat_of_ascii c)%nat && (nat_of_ascii c <=? 57)%nat.

(** [\d*], greedy: the longest run of digits and what follows it. *)
Fixpoint span_digits (s : string) : string * string :=
  match s with
  | EmptyString => (EmptyString, EmptyString)
  | String c rest =>
      if is_digit c
      then let '(ds, tl) := span_digits rest in (String c ds, tl)
      else (EmptyString, s)
  end.

(** [-?]: an optional minus sign. *)
Definition opt_minus (s : string) : string * string :=
  match s with
  | String "-"%char rest => ("-", rest)
  | _ => ("", s)
  end.

(** [\d+\.\d+] at the head of [s]: the numeral and the rest. *)
Definition match_unsigned (s : string) : option (string * string) :=
  let '(int, s2) := span_digits s in
  if String.eqb int "" then None
  else match s2 with
       | String "."%char s3 =>
           let '(frac, s4) := span_digits s3 in
           if String.eqb frac "" then None
           else Some (int +:+ "." +:+ frac, s4)
       | _ => None
       end.

(** [-?\d+\.\d+] at the head of [s]. *)
Definition match_number (s : string) : option (string * string) :=
  let '(sign, s1) := opt_minus s in
  match match_unsigned s1 with
  | Some (u, rest) => Some (sign +:+ u, rest)
  | None => None
  end.

(** The pattern after its leading [@]: the two captured groups. *)
Definition match_pair (s : string) : option (string * string) :=
  match match_number s with
  | Some (g1, String ","%char s1) =>
      match match_number s1 with
      | Some (g2, _) => Some (g1, g2)
      | None => None
      end
  | _ => None
  end.

(** [url.match(pattern)]: the leftmost position where the pattern matches. *)
Fixpoint coordsMatch (url : string) : option (string * string) :=
  match url with
  | EmptyString => None
  | String c rest =>
      match (if Ascii.eqb c "@" then match_pair rest else None) with
      | Some groups => Some groups
      | None => coordsMatch rest
      end
  end.

(** The language of one captured group, as a predicate. *)
Definition all_digits (s : string) : Prop :=
  Forall (fun c => is_digit c = true) (list_ascii_of_string s).









End Coords.

(** ** [hooks/useWebviewInteraction]: the injected scripts *)

Module Scripts.

Import Dom.

Definition address_marker : Selector := [[SAttrEq "data-item-id" "address"]].
Definition description_marker : Selector := [[SClass "PYvSYb"]].
Definition phone_marker : Selector := [[SAttrPrefix "data-item-id" "phone:tel:"]].
Definition label_text : Selector := [[SClass "Io6YTe"]].
Definition authority_marker : Selector := [[SAttrEq "data-item-id" "authority"]].
Definition jslog_link : Selector := [[STag "a"; SAttrContains "jslog" "3443"]].
Definition tooltip_link : Selector := [[STag "a"; SAttrEq "data-tooltip" "Open website"]].

Definition title_suffix : string := " - Google Maps".
Definition bare_site_name : string := "Google Maps".

(** [title.includes(' - Google Maps') && title !== 'Google Maps'] *)
Definition isBusinessTitle (t : string) : bool :=
  includes t title_suffix && negb (String.eqb t bare_site_name).

(** The script of [checkIfBusinessPage]. *)
Definition classification_script (api : DomApi) : Completion JSValue :=
  t ← document_title api;
  a ← document_querySelector api address_marker;
  d ← document_querySelector api description_marker;
  let hasAddressElement := bool_decide (is_Some a) in
  let hasBusinessDescription := bool_decide (is_Some d) in
  mret (JObj {[ "isBusinessPage" :=
    JBool (isBusinessTitle t && (hasAddressElement || hasBusinessDescription)) ]}).

(** [x || ''] *)
Definition or_empty (v : JSValue) : JSValue := if truthy v then v else JStr "".

(** The nested label text of a marked element, or [''] . *)
Definition labelled_text (api : DomApi) (marker : Selector) : Completion JSValue :=
  e ← document_querySelector api marker;
  match e with
  | Some el =>
      txt ← element_querySelector api el label_text;
      match txt with
      | Some t => c ← element_textContent api t; mret (or_empty c)
      | None => mret (JStr "")
      end
  | None => mret (JStr "")
  end.

(** [el && el.href]: the guard of both website branches. *)
Definition and_href (api : DomApi) (e : option (El api)) : Completion bool :=
  match e with
  | Some el => h ← element_href api el; mret (truthy h)
  | None => mret false
  end.

Definition website_field (api : DomApi) : Completion JSValue :=
  websiteElement ← document_querySelector api authority_marker;
  g ← and_href api websiteElement;
  match websiteElement, g with
  | Some el, true => element_href api el
  | _, _ =>
      l1 ← document_querySelector api jslog_link;
      websiteLink ← match l1 with
                    | Some _ => mret l1
                    | None => document_querySelector api tooltip_link
                    end;
      g2 ← and_href api websiteLink;
      match websiteLink, g2 with
      | Some l, true => element_href api l
      | _, _ => mret (JStr "")
      end
  end.

Section WithParseFloat.

(** The number a numeral denotes, rounded as [parseFloat] rounds it. *)
Variable parseFloat : string -> spec_float.

Definition coordinates_field (href : string) : JSValue :=
  match Coords.coordsMatch href with
  | Some (g1, g2) =>
      JObj (<["lat" := JNum (parseFloat g1)]> {[ "lng" := JNum (parseFloat g2) ]})
  | None => JNull
  end.

(** The body of the [try] block of the extraction script. *)
Definition extraction_body (api : DomApi) : Completion JSValue :=
  t ← document_title api;
  let businessName := replace t title_suffix "" in
  phone ← labelled_text api phone_marker;
  address ← labelled_text api address_marker;
  website ← website_field api;
  href ← location_href api;
  mret (JObj (<["name" := JStr businessName]>
             (<["phone" := phone]>
             (<["address" := address]>
             (<["website" := website]>
             {[ "coordinates" := coordinates_field href ]}))))).

(** [try { ... } catch (error) { return { error: error.message }; }] *)
Definition extraction_script (api : DomApi) : Completion JSValue :=
  try_catch (extraction_body api)
    (fun error => m ← get_message error; mret (JObj {[ "error" := m ]})).

End WithParseFloat.

(** The object of a completed extraction: all five fields, always. *)
Definition full_record (o : gmap string JSValue) : Prop :=
  exists n p a w c,
    o = <["name" := JStr n]> (<["phone" := p]> (<["address" := a]>
          (<["website" := w]> {[ "coordinates" := c ]}))).

End Scripts.

(** ** [hooks/useWebviewInteraction]: the hook's state and continuations *)

Module Hook.

(** The state cells of the hook and the ref.  [webviewRef] is [true] while
    [webviewRef.current] holds the mounted element.  A setter is modelled as
    an update of its cell. *)
Record HookState := {
  webviewRef : bool;
  isLoading : bool;
  isBusinessPage : bool;
  currentBusiness : option BusinessInfo;
  mapLocation : option (spec_float * spec_float * spec_float)
}.

Definition initial : HookState := {|
  webviewRef := false; isLoading := true; isBusinessPage := false;
  currentBusiness := None; mapLocation := None
|}.

Definition setIsLoading (b : bool) (st : HookState) : HookState :=
  {| webviewRef := webviewRef st; isLoading := b;
     isBusinessPage := isBusinessPage st;
     currentBusiness := currentBusiness st; mapLocation := mapLocation st |}.

Definition setIsBusinessPage (b : bool) (st : HookState) : HookState :=
  {| webviewRef := webviewRef st; isLoading := isLoading st;
     isBusinessPage := b;
     currentBusiness := currentBusiness st; mapLocation := mapLocation st |}.

Definition setCurrentBusiness (b : option BusinessInfo) (st : HookState) : HookState :=
  {| webviewRef := webviewRef st; isLoading := isLoading st;
     isBusinessPage := isBusinessPage st;
     currentBusiness := b; mapLocation := mapLocation st |}.

Definition set_webviewRef (r : bool) (st : HookState) : HookState :=
  {| webviewRef := r; isLoading := isLoading st;
     isBusinessPage := isBusinessPage st;
     currentBusiness := currentBusiness st; mapLocation := mapLocation st |}.

(** *** [checkIfBusinessPage] *)

(** [.then(result => ...)] *)
Definition classification_then (result : JSValue) (st : HookState) : HookState :=
  match result with
  | JObj o =>
      let flag := truthy (prop o "isBusinessPage") in
      let st1 := setIsBusinessPage flag st in
      if negb flag then setCurrentBusiness None st1 else st1
  | _ => st
  end.

(** [.catch(() => ...)] *)
Definition classification_catch (st : HookState) : HookState :=
  setCurrentBusiness None (setIsBusinessPage false st).

Definition classification_settled (r : Settled JSValue) (st : HookState) : HookState :=
  match r with
  | Resolved v => classification_then v st
  | Rejected _ => classification_catch st
  end.

(** The whole of [checkIfBusinessPage] when the call settles at once. *)
Definition checkIfBusinessPage (api : DomApi) (st : HookState) : HookState :=
  if webviewRef st
  then classification_settled (executeJavaScript (Scripts.classification_script api)) st
  else st.

(** *** [updateCurrentBusiness] *)

Definition as_string (v : JSValue) : option string :=
  match v with JStr s => Some s | _ => None end.

Definition as_number (v : JSValue) : option spec_float :=
  match v with JNum x => Some x | _ => None end.

Definition as_coordinates (v : JSValue) : option Coordinates :=
  match v with
  | JObj o =>
      match as_number (prop o "lat"), as_number (prop o "lng") with
      | Some a, Some b => Some {| lat := a; lng := b |}
      | _, _ => None
      end
  | _ => None
  end.

(** The object the type guard accepts, read at the [BusinessInfo] type. *)
Definition as_BusinessInfo (o : gmap string JSValue) : BusinessInfo := {|
  name := default "" (as_string (prop o "name"));
  address := as_string (prop o "address");
  phone := as_string (prop o "phone");
  website := as_string (prop o "website");
  description := as_string (prop o "description");
  hours := o !! "hours";
  coordinates := as_coordinates (prop o "coordinates");
  screenshot := as_string (prop o "screenshot");
  imageUrl := as_string (prop o "imageUrl");
  research := o !! "research";
  apollo := o !! "apollo";
  googlePlaceId := as_string (prop o "googlePlaceId")
|}.

(** The two type guards of the continuation. *)
Definition isBusinessInfo (obj : JSValue) : bool :=
  object_with_key "name" obj && object_with_key "address" obj.

Definition hasError (obj : JSValue) : bool := object_with_key "error" obj.

(** [.then((result: unknown) => ...)] *)
Definition extraction_then (result : JSValue) (st : HookState) : HookState :=
  if hasError result then setCurrentBusiness None st
  else if isBusinessInfo result then
    match result with
    | JObj o => setCurrentBusiness (Some (as_BusinessInfo o)) st
    | _ => st
    end
  else st.

(** [.catch((error: unknown) => ...)] *)
Definition extraction_catch (st : HookState) : HookState :=
  setCurrentBusiness None st.

Definition extraction_settled (r : Settled JSValue) (st : HookState) : HookState :=
  match r with
  | Resolved v => extraction_then v st
  | Rejected _ => extraction_catch st
  end.

(** The record a continuation hands to the application, if any. *)
Definition emitted (r : Settled JSValue) : option BusinessInfo :=
  match r with
  | Resolved (JObj o) =>
      if hasError (JObj o) then None
      else if isBusinessInfo (JObj o) then Some (as_BusinessInfo o) else None
  | _ => None
  end.

(** The timer callback of [updateCurrentBusiness] when the call settles at
    once: the ref is checked again after the 750 ms delay. *)
Definition updateCurrentBusiness_timeout
  (parseFloat : string -> spec_float) (api : DomApi) (st : HookState) : HookState :=
  if webviewRef st
  then extraction_settled
         (executeJavaScript (Scripts.extraction_script parseFloat api)) st
  else st.

(** The record extracted from a well-behaved page, if any. *)
Definition extracted (parseFloat : string -> spec_float) (p : Page) : option BusinessInfo :=
  emitted (executeJavaScript (Scripts.extraction_script parseFloat (page_api p))).

Definition coordinates_of (parseFloat : string -> spec_float) (g1 g2 : string)
  : option Coordinates :=
  Some {| lat := parseFloat g1; lng := parseFloat g2 |}.


End Hook.

(** ** Effects visible outside the renderer *)

Inductive IO :=
| Alert (msg : string)                       (* [alert(msg)] *)
| NetUpsert (b : BusinessInfo)               (* request to the remote store *)
| NetSelect (from_ms to_ms : Z)              (* request to the remote store *)
| SaveDialog (rows : list BusinessInfo).     (* export through the main process *)

Definition is_network (e : IO) : bool :=
  match e with
  | NetUpsert _ | NetSelect _ _ => true
  | _ => false
  end.

Definition network_calls (trace : list IO) : nat :=
  length (List.filter is_network trace).

(** ** [supabaseClient.ts] *)

Module Supabase.

(** The answer of the store to one request: [{ data, error, status }]. *)
Record Response (A : Type) := {
  resp_data : option A;
  resp_error : option JSValue;
  resp_status : Z
}.
Arguments resp_data {A} _.
Arguments resp_error {A} _.
Arguments resp_status {A} _.

(** The store behind the client.  What it answers is not decided here. *)
Record Client := {
  upsert : BusinessInfo -> Response JSValue;
  select_range : Z -> Z -> Response (list (gmap string JSValue))
}.

(** [getSupabaseClient], with [supabase] the module variable after the
    initialisation attempt. *)
Definition getSupabaseClient (supabase : option Client) : Completion Client :=
  match supabase with
  | Some c => Return c
  | None => Throw (Error "Failed to initialize Supabase client. Check environment variables and preload script.")
  end.

Record SaveResult := {
  save_success : bool;
  save_data : option JSValue;
  save_error : option JSValue
}.

(** [saveBusinessToSupabase]: the client is fetched outside the [try]. *)
Definition saveBusinessToSupabase (supabase : option Client) (business : BusinessInfo)
  : list IO * Settled SaveResult :=
  match getSupabaseClient supabase with
  | Throw e => ([], Rejected e)
  | Return client =>
      let r := upsert client business in
      ([NetUpsert business],
       Resolved
         match resp_error r with
         | Some err => {| save_success := false; save_data := None; save_error := Some err |}
         | None => {| save_success := true; save_data := resp_data r; save_error := None |}
         end)
  end.

Record FetchResult := {
  success : bool;
  data : option (list BusinessInfo);
  error : option JSValue
}.

(** [x || null] on a string-valued column. *)
Definition or_null (v : JSValue) : option string :=
  if truthy v then Hook.as_string v else None.

(** The row mapping of the date queries. *)
Definition row_to_business (item : gmap string JSValue) : BusinessInfo := {|
  name := default "" (or_null (prop item "name"));
  address := or_null (prop item "address");
  phone := or_null (prop item "phone");
  website := or_null (prop item "website");
  description := None;
  hours := None;
  coordinates := Hook.as_coordinates (prop item "coordinates");
  screenshot := None;
  imageUrl := None;
  research := None;
  apollo := None;
  googlePlaceId := None
|}.

(** The two bounds as they are handed to [new Date]. *)
Definition start_bound (startTimestampString : string) : string :=
  if includes startTimestampString "." then startTimestampString
  else startTimestampString +:+ ":00.000Z".

Definition end_bound (endTimestampString : string) : string :=
  if includes endTimestampString "." then endTimestampString
  else endTimestampString +:+ ":59.999Z".

(** [date.toISOString()] throws a [RangeError] on an invalid date.  The
    rendering names the instant; the model keeps the instant itself, in
    milliseconds since the epoch. *)
Definition toISOString (d : option Z) : Completion Z :=
  match d with
  | Some t => Return t
  | None => Throw (Error "Invalid time value")
  end.

(** [.gte('created_at', lo).lte('created_at', hi)] on one row. *)
Definition within (created_at lo hi : Z) : bool :=
  (lo <=? created_at) && (created_at <=? hi).

Section WithDate.

(** [new Date(s)]: the time value, [None] for an invalid date. *)
Variable Date_parse : string -> option Z.

Definition range_bounds (startTimestampString endTimestampString : string)
  : Completion (Z * Z) :=
  startDate ← toISOString (Date_parse (start_bound startTimestampString));
  endDate ← toISOString (Date_parse (end_bound endTimestampString));
  mret (startDate, endDate).

(** [getBusinessesFromDateRange] *)
Definition getBusinessesFromDateRange (supabase : option Client)
  (startTimestampString endTimestampString : string)
  : list IO * Settled FetchResult :=
  match getSupabaseClient supabase with
  | Throw e => ([], Rejected e)
  | Return client =>
      match range_bounds startTimestampString endTimestampString with
      | Throw e => ([], Resolved {| success := false; data := None; error := Some e |})
      | Return (startDate, endDate) =>
          let r := select_range client startDate endDate in
          ([NetSelect startDate endDate],
           Resolved
             match resp_error r with
             | Some err =>
                 if negb (resp_status r =? 406)
                 then {| success := false; data := None; error := Some err |}
                 else {| success := true;
                         data := Some (map row_to_business (default [] (resp_data r)));
                         error := None |}
             | None =>
                 {| success := true;
                    data := Some (map row_to_business (default [] (resp_data r)));
                    error := None |}
             end)
      end
  end.

End WithDate.

End Supabase.

(** ** [App.tsx]: the session controller *)

Module App.

(** [!b.address]: absent or empty. *)
Definition no_address (a : option string) : bool :=
  match a with
  | None => true
  | Some s => String.eqb s ""
  end.

(** [b.address === currentBusiness.address] *)
Definition address_eqb (a b : option string) : bool :=
  match a, b with
  | Some x, Some y => String.eqb x y
  | None, None => true
  | _, _ => false
  end.

(** The predicate handed to [savedBusinesses.find]. *)
Definition same_business (currentBusiness b : BusinessInfo) : bool :=
  String.eqb (name b) (name currentBusiness) &&
  (address_eqb (address b) (address currentBusiness) ||
   (no_address (address b) && no_address (address currentBusiness))).

(** The identity rule in words: same name, and the same address or no
    address (absent or empty) on either side. *)
Definition absent_or_empty (a : option string) : Prop := a = None \/ a = Some "".

Definition identity (a b : BusinessInfo) : Prop :=
  name a = name b /\
  (address a = address b \/ (absent_or_empty (address a) /\ absent_or_empty (address b))).

(** Some entry of the list has the identity of [cb]. *)
Definition known (cb : BusinessInfo) (saved : list BusinessInfo) : Prop :=
  exists b, In b saved /\ identity b cb.

(** No two entries of the list have the same identity. *)
Definition distinct_identities (l : list BusinessInfo) : Prop :=
  forall i j a b, i <> j -> l !! i = Some a -> l !! j = Some b -> ~ identity a b.

(** The effect on [[currentBusiness, savedBusinesses]]: the new session
    list and the records handed to [saveBusinessToSupabase]. *)
Definition session_effect (currentBusiness : option BusinessInfo)
  (savedBusinesses : list BusinessInfo) : list BusinessInfo * list BusinessInfo :=
  match currentBusiness with
  | Some cb =>
      match List.find (same_business cb) savedBusinesses with
      | None => (savedBusinesses ++ [cb], [cb])
      | Some _ => (savedBusinesses, [])
      end
  | None => (savedBusinesses, [])
  end.

(** One capture: the effect runs, and runs again when it changed the list
    it depends on. *)
Definition capture (cb : BusinessInfo) (savedBusinesses : list BusinessInfo)
  : list BusinessInfo * list BusinessInfo :=
  let '(saved1, fwd1) := session_effect (Some cb) savedBusinesses in
  let '(saved2, fwd2) := session_effect (Some cb) saved1 in
  (saved2, fwd1 ++ fwd2).

(** The session list after a run of captures, from the empty list. *)
Definition session_after (captures : list BusinessInfo) : list BusinessInfo :=
  foldl (fun saved cb => fst (capture cb saved)) [] captures.

(** The application state the forward can see. *)
Record AppState := {
  savedBusinesses : list BusinessInfo;
  console : list string
}.

(** The continuation of the forward: it only writes to the console.  A
    rejected call leaves the anonymous async function without a handler. *)
Definition forward_settled (r : Settled Supabase.SaveResult) (st : AppState) : AppState :=
  match r with
  | Resolved res =>
      {| savedBusinesses := savedBusinesses st;
         console := console st ++
           [if Supabase.save_success res
            then "[App.tsx] Successfully saved NEW business to Supabase (archive)"
            else "[App.tsx] Failed to save NEW business to Supabase (archive):"] |}
  | Rejected _ => st
  end.

(** A capture followed by the settling of its forwards. *)
Definition capture_and_forward (supabase : option Supabase.Client)
  (cb : BusinessInfo) (st : AppState) : AppState * list IO :=
  let '(saved, fwd) := capture cb (savedBusinesses st) in
  let st1 := {| savedBusinesses := saved;
                console := console st ++
                  [match fwd with
                   | [] => "[App.tsx] Business already processed or in local state:"
                   | _ => "[App.tsx] New business identified by hook:"
                   end] |} in
  foldl (fun '(s, io) b =>
           let '(io', r) := Supabase.saveBusinessToSupabase supabase b in
           (forward_settled r s, io ++ io'))
        (st1, []) fwd.

(** What the forward of [cb] comes to against a given store. *)
Definition forward_fails (supabase : option Supabase.Client) (cb : BusinessInfo) : Prop :=
  match snd (Supabase.saveBusinessToSupabase supabase cb) with
  | Resolved res => Supabase.save_success res = false
  | Rejected _ => True
  end.

Definition forward_succeeds (supabase : option Supabase.Client) (cb : BusinessInfo) : Prop :=
  match snd (Supabase.saveBusinessToSupabase supabase cb) with
  | Resolved res => Supabase.save_success res = true
  | Rejected _ => False
  end.

(** *** Export *)

Record ExportResult := {
  export_success : bool;
  export_filePath : option string;
  export_error : option string
}.

Definition msg_select_range : string :=
  "Please select a start and end date/time for the archive export.".
Definition msg_start_after_end : string :=
  "Start date/time cannot be after end date/time.".


Section WithDate.

Variable Date_parse : string -> option Z.

(** [startDate > endDate] on two [Date] objects: false when either is
    invalid. *)
Definition date_gt (a b : option Z) : bool :=
  match a, b with
  | Some x, Some y => y <? x
  | _, _ => false
  end.

Definition export_outcome (startS endS : string) (exportArchiveByDate : list BusinessInfo -> ExportResult)
  (result : Supabase.FetchResult) : list IO :=
  match Supabase.success result, Supabase.data result with
  | true, Some rows =>
      if (length rows =? 0)%nat
      then [Alert ("No businesses found in the archive between " +:+ startS +:+
                   " and " +:+ endS +:+ ".")]
      else
        let exportResult := exportArchiveByDate rows in
        SaveDialog rows ::
        (if export_success exportResult &&
            match export_filePath exportResult with
            | Some path => negb (String.eqb path "")
            | None => false
            end
         then [Alert ("Archive successfully exported to: " +:+
                      default "" (export_filePath exportResult))]
         else if negb (export_success exportResult) &&
                 bool_decide (export_error exportResult = Some "Export canceled by user.")
         then []
         else [Alert ("Failed to export archive session: " +:+
                      default "undefined" (export_error exportResult))])
  | _, _ => [Alert "Failed to fetch businesses from archive: "]
  end.

(** [handleExportArchiveByTimestampRange] *)
Definition handleExportArchiveByTimestampRange (supabase : option Supabase.Client)
  (exportArchiveByDate : list BusinessInfo -> ExportResult)
  (exportStartTimestamp exportEndTimestamp : string) : list IO :=
  if String.eqb exportStartTimestamp "" || String.eqb exportEndTimestamp ""
  then [Alert msg_select_range]
  else
    let startDate := Date_parse exportStartTimestamp in
    let endDate := Date_parse exportEndTimestamp in
    if date_gt startDate endDate
    then [Alert msg_start_after_end]
    else
      let '(io, settled) :=
        Supabase.getBusinessesFromDateRange Date_parse supabase
          exportStartTimestamp exportEndTimestamp in
      io ++ match settled with
            | Resolved result =>
                export_outcome exportStartTimestamp exportEndTimestamp
                  exportArchiveByDate result
            | Rejected _ => []
            end.





End WithDate.

End App.

(** ** [hooks/useWebviewInteraction]: listeners, the poll, and the calls in
    flight *)

Module Monitor.

Import Hook.

(** The function bodies of the hook that are used as callbacks. *)
Inductive Code :=
| SetLoadingTrue                      (* [() => setIsLoading(true)] *)
| HandleLoad
| HandleNavigation
| HandleNavigationComplete
| ApplyWebviewInteractionFixes
| CheckIfBusinessPage.

(** A function object: evaluating a function expression allocates a new
    one, and listeners are compared by object identity. *)
Record Closure := { code : Code; ident : nat }.

#[global] Instance code_eq_dec : EqDecision Code.
Proof. solve_decision. Defined.
#[global] Instance closure_eq_dec : EqDecision Closure.
Proof. solve_decision. Defined.

(** The webview element's listener table, the window's interval timers
    and the allocation counters. *)
Record Runtime := {
  listeners : list (string * Closure);
  intervals : list (nat * Closure);
  next_ident : nat;
  next_timer : nat
}.

Definition alloc (c : Code) (rt : Runtime) : Closure * Runtime :=
  ({| code := c; ident := next_ident rt |},
   {| listeners := listeners rt; intervals := intervals rt;
      next_ident := S (next_ident rt); next_timer := next_timer rt |}).

(** [addEventListener]: a listener already registered for the type is not
    registered twice. *)
Definition addEventListener (type : string) (l : Closure) (rt : Runtime) : Runtime :=
  {| listeners := if bool_decide ((type, l) ∈ listeners rt) then listeners rt
                  else listeners rt ++ [(type, l)];
     intervals := intervals rt;
     next_ident := next_ident rt; next_timer := next_timer rt |}.

(** [removeEventListener]: removes the entry with this very function
    object, if there is one. *)
Definition removeEventListener (type : string) (l : Closure) (rt : Runtime) : Runtime :=
  {| listeners := List.filter (fun e => negb (bool_decide (e = (type, l)))) (listeners rt);
     intervals := intervals rt;
     next_ident := next_ident rt; next_timer := next_timer rt |}.

Definition setInterval (cb : Closure) (rt : Runtime) : nat * Runtime :=
  (next_timer rt,
   {| listeners := listeners rt;
      intervals := intervals rt ++ [(next_timer rt, cb)];
      next_ident := next_ident rt; next_timer := S (next_timer rt) |}).

Definition clearInterval (id : nat) (rt : Runtime) : Runtime :=
  {| listeners := listeners rt;
     intervals := List.filter (fun e => negb (Nat.eqb (fst e) id)) (intervals rt);
     next_ident := next_ident rt; next_timer := next_timer rt |}.

(** What the cleanup function closes over. *)
Record Cleanup := {
  c_handleLoad : Closure;
  c_handleNavigationComplete : Closure;
  c_applyWebviewInteractionFixes : Closure;
  c_intervalId : nat
}.

(** The body of the mount effect, for a mounted webview. *)
Definition mount_effect (applyFixes checkPage : Closure) (rt : Runtime)
  : Runtime * Cleanup :=
  let '(handleLoad, rt) := alloc HandleLoad rt in
  let '(handleNavigation, rt) := alloc HandleNavigation rt in
  let '(handleNavigationComplete, rt) := alloc HandleNavigationComplete rt in
  let '(arrow, rt) := alloc SetLoadingTrue rt in
  let rt := addEventListener "did-start-loading" arrow rt in
  let rt := addEventListener "did-finish-load" handleLoad rt in
  let rt := addEventListener "did-navigate" handleNavigationComplete rt in
  let rt := addEventListener "did-navigate-in-page" handleNavigationComplete rt in
  let rt := addEventListener "dom-ready" applyFixes rt in
  let '(intervalId, rt) := setInterval checkPage rt in
  (rt, {| c_handleLoad := handleLoad;
          c_handleNavigationComplete := handleNavigationComplete;
          c_applyWebviewInteractionFixes := applyFixes;
          c_intervalId := intervalId |}).

(** The function the effect returns. *)
Definition cleanup_effect (c : Cleanup) (rt : Runtime) : Runtime :=
  let '(arrow, rt) := alloc SetLoadingTrue rt in
  let rt := removeEventListener "did-start-loading" arrow rt in
  let rt := removeEventListener "did-finish-load" (c_handleLoad c) rt in
  let rt := removeEventListener "did-navigate" (c_handleNavigationComplete c) rt in
  let rt := removeEventListener "did-navigate-in-page" (c_handleNavigationComplete c) rt in
  let rt := removeEventListener "dom-ready" (c_applyWebviewInteractionFixes c) rt in
  clearInterval (c_intervalId c) rt.

(** The runtime after [k] allocations, and after the five calls of
    [addEventListener] of the mount effect. *)
Definition allocated (k : nat) (rt0 : Runtime) : Runtime :=
  {| listeners := listeners rt0; intervals := intervals rt0;
     next_ident := (k + next_ident rt0)%nat; next_timer := next_timer rt0 |}.

Definition subscribed (applyFixes : Closure) (rt0 : Runtime) : Runtime :=
  addEventListener "dom-ready" applyFixes
    (addEventListener "did-navigate-in-page"
       {| code := HandleNavigationComplete; ident := (2 + next_ident rt0)%nat |}
       (addEventListener "did-navigate"
          {| code := HandleNavigationComplete; ident := (2 + next_ident rt0)%nat |}
          (addEventListener "did-finish-load"
             {| code := HandleLoad; ident := next_ident rt0 |}
             (addEventListener "did-start-loading"
                {| code := SetLoadingTrue; ident := (3 + next_ident rt0)%nat |}
                (allocated 4 rt0))))).

(** An injector call that has been issued and has not settled. *)
Inductive Call := Classification | Extraction | InteractionFixes.

Record World := {
  hook : HookState;
  rt : Runtime;
  cleanup : option Cleanup;
  in_flight : list Call;
  delayed : nat                        (* pending 750 ms timers *)
}.

Definition initial_runtime : Runtime :=
  {| listeners := []; intervals := []; next_ident := 0; next_timer := 0 |}.

Definition initial_world : World :=
  {| hook := Hook.initial; rt := initial_runtime; cleanup := None;
     in_flight := []; delayed := 0 |}.

Definition with_hook (f : HookState -> HookState) (w : World) : World :=
  {| hook := f (hook w); rt := rt w; cleanup := cleanup w;
     in_flight := in_flight w; delayed := delayed w |}.

(** A function of the hook that starts with [if (!webviewRef.current)
    return] and then issues an injector call. *)
Definition issue (c : Call) (w : World) : World :=
  if webviewRef (hook w)
  then {| hook := hook w; rt := rt w; cleanup := cleanup w;
          in_flight := in_flight w ++ [c]; delayed := delayed w |}
  else w.

(** Running a callback. *)
Definition run (c : Code) (w : World) : World :=
  match c with
  | SetLoadingTrue => with_hook (setIsLoading true) w
  | HandleLoad =>
      issue Classification (issue InteractionFixes (with_hook (setIsLoading false) w))
  | HandleNavigation => issue Classification (with_hook (setIsLoading true) w)
  | HandleNavigationComplete => issue Classification (with_hook (setIsLoading false) w)
  | ApplyWebviewInteractionFixes => issue InteractionFixes w
  | CheckIfBusinessPage => issue Classification w
  end.

(** What can happen to a mounted hook. *)
Inductive Event :=
| Mount                                  (* first commit: ref set, effect run *)
| Emit (type : string)                   (* the webview fires an event *)
| Tick (id : nat)                        (* an interval timer fires *)
| SaveClick                              (* [updateCurrentBusiness()] *)
| Timeout                                (* a 750 ms timer fires *)
| Settle (k : nat) (r : Settled JSValue) (* the k-th call in flight settles *)
| Unmount.                               (* teardown: cleanup run, ref cleared *)

Definition settle_call (c : Call) (r : Settled JSValue) (st : HookState) : HookState :=
  match c with
  | Classification => classification_settled r st
  | Extraction => extraction_settled r st
  | InteractionFixes => st
  end.

Definition step (e : Event) (w : World) : World :=
  match e with
  | Mount =>
      match cleanup w with
      | Some _ => w
      | None =>
          let '(applyFixes, rt1) := alloc ApplyWebviewInteractionFixes (rt w) in
          let '(checkPage, rt2) := alloc CheckIfBusinessPage rt1 in
          let '(rt3, c) := mount_effect applyFixes checkPage rt2 in
          {| hook := set_webviewRef true (hook w); rt := rt3; cleanup := Some c;
             in_flight := in_flight w; delayed := delayed w |}
      end
  | Emit type =>
      foldl (fun w' l => if String.eqb (fst l) type then run (code (snd l)) w' else w')
            w (listeners (rt w))
  | Tick id =>
      foldl (fun w' t => if Nat.eqb (fst t) id then run (code (snd t)) w' else w')
            w (intervals (rt w))
  | SaveClick =>
      if webviewRef (hook w)
      then {| hook := hook w; rt := rt w; cleanup := cleanup w;
              in_flight := in_flight w; delayed := S (delayed w) |}
      else w
  | Timeout =>
      match delayed w with
      | O => w
      | S d =>
          issue Extraction
            {| hook := hook w; rt := rt w; cleanup := cleanup w;
               in_flight := in_flight w; delayed := d |}
      end
  | Settle k r =>
      match in_flight w !! k with
      | Some c =>
          {| hook := settle_call c r (hook w); rt := rt w; cleanup := cleanup w;
             in_flight := delete k (in_flight w); delayed := delayed w |}
      | None => w
      end
  | Unmount =>
      match cleanup w with
      | Some c =>
          {| hook := set_webviewRef false (hook w); rt := cleanup_effect c (rt w);
             cleanup := None; in_flight := in_flight w; delayed := delayed w |}
      | None => w
      end
  end.

Definition steps (es : list Event) (w : World) : World :=
  foldl (fun w' e => step e w') w es.

(** The two signals the application reads. *)
Definition signals (w : World) : bool * option BusinessInfo :=
  (isBusinessPage (hook w), currentBusiness (hook w)).


(** With the ref cleared, a callback issues nothing and leaves the two
    signals alone. *)
Definition quiet (w w' : World) : Prop :=
  webviewRef (hook w') = false /\ in_flight w' = in_flight w /\ signals w' = signals w.

(** Events that may issue a call. *)
Definition issuing (e : Event) : Prop :=
  match e with
  | Emit _ | Tick _ | SaveClick | Timeout => True
  | _ => False
  end.

End Monitor.

(** ** [applyWebviewInteractionFixes]: the interaction patch *)

Module Patcher.

Import Dom.

Definition map_widgets : Selector :=
  [[SClass "widget-scene"]; [SClass "widget-scene-canvas"]; [SAttrEq "role" "application"]].
Definition zoom_controls : Selector :=
  [[SClass "widget-zoom"]; [SClass "gm-control-active"]; [SClass "gmnoprint"]].
Definition info_cards : Selector :=
  [[SClass "section-layout"]; [SClass "section-hero-header"];
   [SClass "section-result-content"]].

Definition fix_map (el : Node) : Node :=
  style_set "touch-action" "manipulation" (style_set "pointer-events" "auto" el).
Definition fix_zoom (control : Node) : Node :=
  style_set "cursor" "pointer" (style_set "pointer-events" "auto" control).
Definition fix_search (searchBar : Node) : Node :=
  style_set "cursor" "text" (style_set "pointer-events" "auto" searchBar).
Definition fix_card (card : Node) : Node :=
  style_set "cursor" "auto" (style_set "pointer-events" "auto" card).

(** The injected script: the document it leaves behind and its completion.
    Without a body the first statement throws and nothing has been
    changed. *)
Definition interaction_script (doc : list Node) : list Node * Completion JSValue :=
  match body doc with
  | None => (doc, Throw (type_error "Cannot read properties of null (reading 'style')"))
  | Some b =>
      let doc1 := alter (style_set "cursor" "auto") b doc in
      let doc2 := forEach (querySelectorAll map_widgets doc1) fix_map doc1 in
      let doc3 := forEach (querySelectorAll zoom_controls doc2) fix_zoom doc2 in
      let doc4 := match getElementById "searchboxinput" doc3 with
                  | Some i => alter fix_search i doc3
                  | None => doc3
                  end in
      let doc5 := forEach (querySelectorAll info_cards doc4) fix_card doc4 in
      (doc5, Return (JBool true))
  end.

(** [applyWebviewInteractionFixes]: nothing happens without a webview; a
    rejection is only logged. *)
Definition applyWebviewInteractionFixes (webviewRef : bool) (doc : list Node) : list Node :=
  if webviewRef then fst (interaction_script doc) else doc.

(** The nodes the fixed selectors match (the search box by its id). *)
Definition selected (doc : list Node) (i : nat) : Prop :=
  i ∈ querySelectorAll map_widgets doc \/
  i ∈ querySelectorAll zoom_controls doc \/
  getElementById "searchboxinput" doc = Some i \/
  i ∈ querySelectorAll info_cards doc.


(** One step of the script on one node, taken or not. *)
Definition stage (b : bool) (f : Node -> Node) (n : Node) : Node :=
  if b then f n else n.

(** What the script does to the node at index [i]. *)
Definition patched (doc : list Node) (i : nat) (n : Node) : Node :=
  stage (bool_decide (i ∈ querySelectorAll info_cards doc)) fix_card
    (stage (bool_decide (getElementById "searchboxinput" doc = Some i)) fix_search
       (stage (bool_decide (i ∈ querySelectorAll zoom_controls doc)) fix_zoom
          (stage (bool_decide (i ∈ querySelectorAll map_widgets doc)) fix_map
             (stage (bool_decide (body doc = Some i)) (style_set "cursor" "auto") n)))).

(** Writing the declarations [w] over the inline style of a node. *)
Definition overwrite (w : gmap string string) (n : Node) : Node :=
  {| tag := tag n; attrs := attrs n; style := w ∪ style n;
     parent := parent n; data := data n |}.

Definition when (b : bool) (w : gmap string string) : gmap string string :=
  if b then w else ∅.

(** The declarations the script leaves on the node at index [i]: later
    statements win. *)
Definition writes (doc : list Node) (i : nat) : gmap string string :=
  when (bool_decide (i ∈ querySelectorAll info_cards doc))
       ({[ "cursor" := "auto" ]} ∪ {[ "pointer-events" := "auto" ]}) ∪
  (when (bool_decide (getElementById "searchboxinput" doc = Some i))
        ({[ "cursor" := "text" ]} ∪ {[ "pointer-events" := "auto" ]}) ∪
   (when (bool_decide (i ∈ querySelectorAll zoom_controls doc))
         ({[ "cursor" := "pointer" ]} ∪ {[ "pointer-events" := "auto" ]}) ∪
    (when (bool_decide (i ∈ querySelectorAll map_widgets doc))
          ({[ "touch-action" := "manipulation" ]} ∪ {[ "pointer-events" := "auto" ]}) ∪
     when (bool_decide (body doc = Some i)) {[ "cursor" := "auto" ]}))).

(** Functions and predicates that do not look at, or do not touch, anything
    but the style. *)
Definition keeps_shape (f : Node -> Node) : Prop :=
  forall n, tag (f n) = tag n /\ attrs (f n) = attrs n.

Definition shape_only (p : Node -> bool) : Prop :=
  forall n' n, tag n' = tag n -> attrs n' = attrs n -> p n' = p n.

(** Two documents with the same elements, up to their styles. *)
Definition same_shape (d' d : list Node) : Prop :=
  Forall2 (fun n' n => tag n' = tag n /\ attrs n' = attrs n) d' d.

End Patcher.

(** ** [new Date(string)] on the ECMAScript date-time string format

    The strings the application builds are of the forms [YYYY-MM-DD],
    [YYYY-MM-DDTHH:mm], [YYYY-MM-DDTHH:mm:ss] and [YYYY-MM-DDTHH:mm:ss.sss],
    the last three with an optional [Z].  Without [Z] a date-time is local
    time; [tza] is the local offset from UTC in milliseconds.  Any other
    string is an invalid date here. *)

Module Date.

Definition digit (c : ascii) : option Z :=
  if Coords.is_digit c then Some (Z.of_nat (nat_of_ascii c) - 48) else None.

(** [n] decimal digits at the head of [cs]. *)
Fixpoint number (n : nat) (acc : Z) (cs : list ascii) : option (Z * list ascii) :=
  match n with
  | O => Some (acc, cs)
  | S n' =>
      match cs with
      | c :: rest => d ← digit c; number n' (10 * acc + d) rest
      | [] => None
      end
  end.

Definition expect (c : ascii) (cs : list ascii) : option (list ascii) :=
  match cs with
  | c' :: rest => if Ascii.eqb c c' then Some rest else None
  | [] => None
  end.

Definition in_range (lo hi v : Z) : option unit :=
  if (lo <=? v) && (v <=? hi) then Some tt else None.

Definition is_leap (y : Z) : bool :=
  ((y mod 4 =? 0) && negb (y mod 100 =? 0)) || (y mod 400 =? 0).

Definition day_from_year (y : Z) : Z :=
  365 * (y - 1970) + (y - 1969) / 4 - (y - 1901) / 100 + (y - 1601) / 400.

Definition month_start (y m : Z) : Z :=
  nth (Z.to_nat (m - 1)) [0; 31; 59; 90; 120; 151; 181; 212; 243; 273; 304; 334] 0
  + (if is_leap y && (2 <? m) then 1 else 0).

(** [MakeDay], for a month in 1..12. *)
Definition make_day (y m d : Z) : Z := day_from_year y + month_start y m + (d - 1).

(** [MakeTime] *)
Definition make_time (h mi s ms : Z) : Z := ((h * 60 + mi) * 60 + s) * 1000 + ms.

Definition ms_per_day : Z := 86400000.

(** The time value of a UTC calendar date and time of day. *)
Definition utc (y m d h mi s ms : Z) : Z :=
  make_day y m d * ms_per_day + make_time h mi s ms.

Definition parse_date (cs : list ascii) : option (Z * list ascii) :=
  '(y, cs) ← number 4 0 cs;
  cs ← expect "-" cs;
  '(m, cs) ← number 2 0 cs;
  _ ← in_range 1 12 m;
  cs ← expect "-" cs;
  '(d, cs) ← number 2 0 cs;
  _ ← in_range 1 31 d;
  Some (make_day y m d, cs).

Definition parse_fraction (cs : list ascii) : option (Z * list ascii) :=
  match cs with
  | "."%char :: rest => number 3 0 rest
  | _ => Some (0, cs)
  end.

Definition parse_seconds (cs : list ascii) : option (Z * Z * list ascii) :=
  match cs with
  | ":"%char :: rest =>
      '(s, cs) ← number 2 0 rest;
      _ ← in_range 0 59 s;
      '(ms, cs) ← parse_fraction cs;
      Some (s, ms, cs)
  | _ => Some (0, 0, cs)
  end.

Definition parse_time (cs : list ascii) : option (Z * list ascii) :=
  '(h, cs) ← number 2 0 cs;
  _ ← in_range 0 23 h;
  cs ← expect ":" cs;
  '(mi, cs) ← number 2 0 cs;
  _ ← in_range 0 59 mi;
  '(s, ms, cs) ← parse_seconds cs;
  Some (make_time h mi s ms, cs).

Definition parse_chars (tza : Z) (cs : list ascii) : option Z :=
  '(day, cs) ← parse_date cs;
  match cs with
  | [] => Some (day * ms_per_day)
  | "T"%char :: rest =>
      '(t, cs) ← parse_time rest;
      match cs with
      | [] => Some (day * ms_per_day + t - tza)
      | ["Z"%char] => Some (day * ms_per_day + t)
      | _ => None
      end
  | _ => None
  end.

(** [new Date(s)]: the time value, or [None] for an invalid date. *)
Definition parse (tza : Z) (s : string) : option Z :=
  parse_chars tza (list_ascii_of_string s).

(** The two ASCII digits of a number below 100, and the four of a year. *)
Definition digit_char (d : Z) : ascii := ascii_of_nat (Z.to_nat (48 + d)).

Definition two_digits (n : Z) : list ascii :=
  [digit_char (n / 10); digit_char (n mod 10)].

Definition four_digits (n : Z) : list ascii :=
  [digit_char (n / 1000); digit_char (n / 100 mod 10);
   digit_char (n / 10 mod 10); digit_char (n mod 10)].

(** The value of a [datetime-local] input: [YYYY-MM-DDTHH:mm]. *)
Definition minute_string (y m d h mi : Z) : string :=
  string_of_list_ascii
    (four_digits y ++ "-"%char :: two_digits m ++ "-"%char :: two_digits d ++
     "T"%char :: two_digits h ++ ":"%char :: two_digits mi).

Definition valid_minute (y m d h mi : Z) : Prop :=
  0 <= y <= 9999 /\ 1 <= m <= 12 /\ 1 <= d <= 31 /\ 0 <= h <= 23 /\ 0 <= mi <= 59.

End Date.

(** ** A sample page and a sample [parseFloat] *)

Module Sample.

Definition element (t : string) (a : list (string * string)) (p : option nat) : Dom.Node :=
  {| Dom.tag := t; Dom.attrs := list_to_map a; Dom.style := ∅;
     Dom.parent := p; Dom.data := "" |}.

Definition text (d : string) (p : nat) : Dom.Node :=
  {| Dom.tag := "#text"; Dom.attrs := ∅; Dom.style := ∅;
     Dom.parent := Some p; Dom.data := d |}.

Definition joes_pizza : Page := {|
  title := "Joe's Pizza - Google Maps";
  url := "https://www.google.com/maps/place/Joe's+Pizza/@40.7128,-74.0060,17z";
  nodes := [
    element "html" [] None;
    element "body" [] (Some 0%nat);
    element "input" [("id", "searchboxinput")] (Some 1%nat);
    element "div" [("class", "widget-scene"); ("role", "application")] (Some 1%nat);
    element "button" [("data-item-id", "address"); ("class", "CsEnBe")] (Some 1%nat);
    element "div" [("class", "Io6YTe fontBodyMedium")] (Some 4%nat);
    text "7 Carmine St, New York" 5;
    element "button" [("data-item-id", "phone:tel:+12125550100")] (Some 1%nat);
    element "div" [("class", "Io6YTe fontBodyMedium")] (Some 7%nat);
    text "+1 212-555-0100" 8;
    element "a" [("data-item-id", "authority"); ("href", "https://joespizza.example/")]
      (Some 1%nat)
  ]
|}.



Definition mounted : Hook.HookState := Hook.set_webviewRef true Hook.initial.

(** The value of a run of decimal digits. *)
Fixpoint digits_value (s : string) (acc : Z) : Z :=
  match s with
  | EmptyString => acc
  | String c rest => digits_value rest (10 * acc + (Z.of_nat (nat_of_ascii c) - 48))
  end.

Definition of_Z (m : Z) : spec_float := binary_normalize 53 1024 m 0 false.

(** A [parseFloat] for numerals [-?\d+\.\d+]: one correctly rounded
    division, which is the nearest binary64 value as long as the digits make
    an integer below [2^53] and there are at most 22 of them after the
    point. *)
Definition parseFloat (s : string) : spec_float :=
  let '(sign, s1) := Coords.opt_minus s in
  let '(int, s2) := Coords.span_digits s1 in
  let frac := match s2 with
              | String "."%char s3 => fst (Coords.span_digits s3)
              | _ => EmptyString
              end in
  let q := SFdiv 53 1024 (of_Z (digits_value (int +:+ frac) 0))
                         (of_Z (10 ^ Z.of_nat (String.length frac))) in
  if String.eqb sign "-" then SFopp q else q.

(** A page whose title getter throws. *)
Definition throwing_api : DomApi := {|
  El := nat;
  document_title := Throw (Error "title is not readable");
  location_href := Return "";
  document_querySelector := fun _ => Return None;
  element_querySelector := fun _ _ => Return None;
  element_textContent := fun _ => Return JNull;
  element_href := fun _ => Return JUndefined
|}.

(** Three captures of one pizzeria: the second differs from the first in
    the phone only, the third is another branch. *)
Definition business (n a p : string) : BusinessInfo := {|
  name := n; address := Some a; phone := Some p; website := Some "";
  description := None; hours := None; coordinates := None; screenshot := None;
  imageUrl := None; research := None; apollo := None; googlePlaceId := None
|}.

Definition joe : BusinessInfo := business "Joe's Pizza" "7 Carmine St" "+1 212-555-0100".
Definition joe_again : BusinessInfo := business "Joe's Pizza" "7 Carmine St" "".
Definition joe_uptown : BusinessInfo := business "Joe's Pizza" "1435 Broadway" "".

(** A store that refuses every upsert, and one that accepts them. *)
Definition failing_store : Supabase.Client := {|
  Supabase.upsert := fun _ =>
    {| Supabase.resp_data := None;
       Supabase.resp_error := Some (Error "permission denied");
       Supabase.resp_status := 403 |};
  Supabase.select_range := fun _ _ =>
    {| Supabase.resp_data := None;
       Supabase.resp_error := Some (Error "permission denied");
       Supabase.resp_status := 403 |}
|}.

Definition working_store : Supabase.Client := {|
  Supabase.upsert := fun _ =>
    {| Supabase.resp_data := Some JNull; Supabase.resp_error := None;
       Supabase.resp_status := 201 |};
  Supabase.select_range := fun _ _ =>
    {| Supabase.resp_data := Some []; Supabase.resp_error := None;
       Supabase.resp_status := 200 |}
|}.


Definition empty_session : App.AppState :=
  {| App.savedBusinesses := []; App.console := [] |}.

End Sample.

(** ** The fields of a page, read directly

    What the extraction script finds on a page whose DOM does not throw,
    written as functions of the document. *)

Module Reading.

Import Dom Scripts.

(** The text of the label nested in the first element [marker] matches. *)
Definition page_label (p : Page) (marker : Selector) : string :=
  match querySelector marker (nodes p) with
  | Some el =>
      match querySelectorIn el label_text (nodes p) with
      | Some t => textContent (nodes p) t
      | None => ""
      end
  | None => ""
  end.

(** [el.href] as a string, [""] when there is none. *)
Definition href_text (p : Page) (i : nat) : string :=
  match href (nodes p) i with
  | JStr s => s
  | _ => ""
  end.

(** The link the fallback of the website derivation looks at. *)
Definition fallback_link (p : Page) : option nat :=
  match querySelector jslog_link (nodes p) with
  | Some l => Some l
  | None => querySelector tooltip_link (nodes p)
  end.

Definition fallback_website (p : Page) : string :=
  match fallback_link p with
  | Some l => href_text p l
  | None => ""
  end.

Definition page_website (p : Page) : string :=
  match querySelector authority_marker (nodes p) with
  | Some el =>
      if String.eqb (href_text p el) "" then fallback_website p else href_text p el
  | None => fallback_website p
  end.

(** The page has no link marked as the place's own site, or that link
    has an empty [href]. *)
Definition no_site_link (p : Page) : Prop :=
  forall el, querySelector authority_marker (nodes p) = Some el -> href_text p el = "".

End Reading.

(** ** Further sample data *)

Module Cases.

Import Sample.

(** A place whose panel has an icon link without [href] next to the
    "Open website" link. *)
Definition icon_link_page : Page := {|
  title := "Blue Bottle - Google Maps";
  url := "https://www.google.com/maps/place/Blue+Bottle/@37.7763,-122.4233,17z";
  nodes := [
    element "html" [] None;
    element "body" [] (Some 0%nat);
    element "a" [("jslog", "3443; track:click")] (Some 1%nat);
    element "a" [("data-tooltip", "Open website"); ("href", "https://bluebottle.example/")]
      (Some 1%nat)
  ]
|}.

(** A page whose document can be read but not queried. *)
Definition unqueryable_api : DomApi := {|
  El := nat;
  document_title := Return "Joe's Pizza - Google Maps";
  location_href := Return "";
  document_querySelector := fun _ => Throw (Error "document is not ready");
  element_querySelector := fun _ _ => Return None;
  element_textContent := fun _ => Return JNull;
  element_href := fun _ => Return JUndefined
|}.

(** A hook that shows a business. *)
Definition showing (b : BusinessInfo) : Hook.HookState :=
  Hook.setCurrentBusiness (Some b) (Hook.setIsBusinessPage true mounted).

End Cases.

(** ** The hook over its whole life *)

Module Lifecycle.

Import Hook Monitor.

(** The runtime and the cleanup closure after a first commit: the render
    creates the two callbacks the effect captures, then the effect runs. *)
Definition mount_runtime (rt0 : Runtime) : Runtime * Cleanup :=
  let '(applyFixes, rt1) := alloc ApplyWebviewInteractionFixes rt0 in
  let '(checkPage, rt2) := alloc CheckIfBusinessPage rt1 in
  mount_effect applyFixes checkPage rt2.

(** A listener a finished mount leaves behind. *)
Definition stale (e : string * Closure) : Prop :=
  fst e = "did-start-loading" /\ code (snd e) = SetLoadingTrue.

(** Function objects in the table were allocated before the next one. *)
Definition allocated_before (rt0 : Runtime) (e : string * Closure) : Prop :=
  (ident (snd e) < next_ident rt0)%nat.

(** The runtime of an unmounted hook. *)
Definition clean (rt0 : Runtime) : Prop :=
  intervals rt0 = [] /\
  Forall stale (listeners rt0) /\
  Forall (allocated_before rt0) (listeners rt0).

(** Events that are neither a mount nor an unmount. *)
Definition inner (e : Event) : Prop :=
  match e with
  | Mount | Unmount => False
  | _ => True
  end.

Definition lifecycle_invariant (w : World) : Prop :=
  match cleanup w with
  | None => webviewRef (hook w) = false /\ clean (rt w)
  | Some c =>
      webviewRef (hook w) = true /\
      exists rt0, clean rt0 /\ mount_runtime rt0 = (rt w, c)
  end.

(** The listener of [did-start-loading] registered by the mount that
    starts from [rt0]. *)
Definition start_loading_listener (rt0 : Runtime) : string * Closure :=
  ("did-start-loading", {| code := SetLoadingTrue; ident := (5 + next_ident rt0)%nat |}).

End Lifecycle.

(** ** Reading a trace *)

Module Trace.

Definition is_alert (e : IO) : bool :=
  match e with
  | Alert _ => true
  | _ => false
  end.

Definition alerts (trace : list IO) : nat := length (List.filter is_alert trace).

(** The error with which the main process answers a dismissed dialog. *)
Definition cancel_message : string := "Export canceled by user.".

End Trace.

(** ** [supabaseClient.ts]: the client behind the module variable *)

Module Init.

Import Supabase.

(** What [window.electron.env.getVars()] resolves with. *)
Record EnvVars := {
  SUPABASE_URL : option string;
  SUPABASE_ANON_KEY : option string
}.

(** [!v] on an optional string. *)
Definition missing (v : option string) : bool :=
  match v with
  | Some s => String.eqb s ""
  | None => true
  end.

Section WithCreateClient.

(** [createClient] of the store's library; it may throw. *)
Variable createClient : string -> string -> Completion Client.

(** [initSupabase].  [getVars] is the settled call of the preload bridge,
    [None] standing for [undefined] (no bridge); [supabase] is the module
    variable, returned with its value after the call. *)
Definition initSupabase (getVars : Settled (option EnvVars)) (supabase : option Client)
  : option Client * Settled (option Client) :=
  match getVars with
  | Rejected e => (supabase, Rejected e)
  | Resolved envVars =>
      let supabaseUrl := envVars ≫= SUPABASE_URL in
      let supabaseAnonKey := envVars ≫= SUPABASE_ANON_KEY in
      if missing supabaseUrl || missing supabaseAnonKey
      then (supabase, Resolved None)
      else
        match supabase with
        | Some c => (supabase, Resolved (Some c))
        | None =>
            match createClient (default "" supabaseUrl) (default "" supabaseAnonKey) with
            | Return c => (Some c, Resolved (Some c))
            | Throw e => (None, Rejected e)
            end
        end
  end.

(** [getSupabaseClient], initialising on first use. *)
Definition getSupabaseClient (getVars : Settled (option EnvVars)) (supabase : option Client)
  : option Client * Settled Client :=
  match supabase with
  | Some c => (supabase, Resolved c)
  | None =>
      let '(supabase', r) := initSupabase getVars None in
      match r with
      | Rejected e => (supabase', Rejected e)
      | Resolved _ => (supabase', executeJavaScript (Supabase.getSupabaseClient supabase'))
      end
  end.

(** The calls the rest of the application makes, each with what the
    bridge answers at that time. *)
Inductive Call :=
| CallInit (getVars : Settled (option EnvVars))
| CallGet (getVars : Settled (option EnvVars)).

(** The client a call hands to its caller, if any. *)
Definition handed (supabase : option Client) (c : Call) : option Client * option Client :=
  match c with
  | CallInit g =>
      let '(s, r) := initSupabase g supabase in
      (s, match r with Resolved (Some c) => Some c | _ => None end)
  | CallGet g =>
      let '(s, r) := getSupabaseClient g supabase in
      (s, match r with Resolved c => Some c | _ => None end)
  end.

(** A run of calls: the module variable at the end and the clients handed
    out, in order. *)
Fixpoint run (calls : list Call) (supabase : option Client)
  : option Client * list Client :=
  match calls with
  | [] => (supabase, [])
  | c :: rest =>
      let '(s, h) := handed supabase c in
      let '(s', hs) := run rest s in
      (s', match h with Some x => x :: hs | None => hs end)
  end.

End WithCreateClient.

End Init.

(** ** [supabaseClient.ts]: the rows for the map, fetched in chunks *)

Module MapQuery.

Import Supabase.

(** A row as the store returns it, and as the query hands it on: the cast
    to [BusinessInfo] does nothing at run time. *)
Definition Row : Type := gmap string JSValue.

(** The store as this query sees it: the answer to the count request
    ([count] is a number or null; nothing else of that answer is read) and the
    answers to the range requests. *)
Record Store := {
  count_with_coordinates : option Z;
  select_chunk : Z -> Z -> Response (list Row)
}.

Inductive Request :=
| CountRows
| RangeRows (from to : Z).

Record MapResult := {
  map_success : bool;
  map_data : option (list Row);
  map_error : option JSValue
}.

(** [!count] *)
Definition no_count (count : option Z) : bool :=
  match count with
  | Some n => n =? 0
  | None => true
  end.

(** [error && status !== 406] *)
Definition hard_error {A} (r : Response A) : bool :=
  bool_decide (is_Some (resp_error r)) && negb (resp_status r =? 406).

(** [{ name: item.name, address: item.address, coordinates: item.coordinates }] *)
Definition map_row (item : Row) : Row :=
  <["name" := prop item "name"]>
    (<["address" := prop item "address"]>
       {[ "coordinates" := prop item "coordinates" ]}).

(** [for (let i = 0; i < count; i += 1000) { ... }], entered with [i] and
    [allData]; [None] when the fuel runs out. *)
Fixpoint chunk_loop (fuel : nat) (store : Store) (count i : Z) (allData : list Row)
  : list Request * option (Completion (list Row)) :=
  match fuel with
  | O => ([], None)
  | S fuel' =>
      if i <? count then
        let r := select_chunk store i (i + 999) in
        if hard_error r
        then ([RangeRows i (i + 999)], Some (Throw (default JUndefined (resp_error r))))
        else
          let allData' := match resp_data r with
                          | Some d => allData ++ d
                          | None => allData
                          end in
          let '(reqs, res) := chunk_loop fuel' store count (i + 1000) allData' in
          (RangeRows i (i + 999) :: reqs, res)
      else ([], Some (Return allData))
  end.

(** [getBusinessesForMap]: the client is fetched outside the [try]. *)
Definition getBusinessesForMap (supabase : option Store)
  : list Request * option (Settled MapResult) :=
  match supabase with
  | None =>
      ([], Some (Rejected (Error "Failed to initialize Supabase client. Check environment variables and preload script.")))
  | Some store =>
      let count := count_with_coordinates store in
      if no_count count
      then ([CountRows],
            Some (Resolved {| map_success := true; map_data := Some []; map_error := None |}))
      else
        let n := default 0 count in
        let '(reqs, res) := chunk_loop (S (Z.to_nat n)) store n 0 [] in
        (CountRows :: reqs,
         match res with
         | None => None
         | Some (Return allData) =>
             Some (Resolved {| map_success := true;
                               map_data := Some (map map_row allData);
                               map_error := None |})
         | Some (Throw e) =>
             Some (Resolved {| map_success := false; map_data := None;
                               map_error := Some e |})
         end)
  end.

(** The [k]-th range request and the rows it brings. *)
Definition window (k : nat) : Request :=
  RangeRows (1000 * Z.of_nat k) (1000 * Z.of_nat k + 999).

Definition chunk (store : Store) (k : nat) : Response (list Row) :=
  select_chunk store (1000 * Z.of_nat k) (1000 * Z.of_nat k + 999).

Definition chunk_rows (store : Store) (k : nat) : list Row :=
  default [] (resp_data (chunk store k)).

(** The number of chunks of a table of [n] rows. *)
Definition chunks_of (n : Z) : nat := Z.to_nat ((n + 999) / 1000).

(** A store that holds a table and answers each request from it:
    [range(a, b)] is inclusive at both ends. *)
Definition table_store (tbl : list Row) : Store := {|
  count_with_coordinates := Some (Z.of_nat (length tbl));
  select_chunk := fun a b =>
    {| resp_data := Some (take (Z.to_nat (b - a + 1)) (drop (Z.to_nat a) tbl));
       resp_error := None;
       resp_status := 200 |}
|}.

End MapQuery.

(** ** Sample stores for the map query *)

Module MapCases.

Import Supabase MapQuery.

Definition place (n : string) (la lo : Z) : Row :=
  <["name" := JStr n]>
    (<["address" := JNull]>
       (<["created_at" := JStr "2024-03-05T09:00:00Z"]>
          {[ "coordinates" :=
               JObj (<["lat" := JNum (Sample.of_Z la)]> {[ "lng" := JNum (Sample.of_Z lo) ]}) ]})).

Definition two_places : list Row := [place "Joe's Pizza" 40 (-74); place "Blue Bottle" 37 (-122)].

(** A store of 1500 rows whose second chunk is refused. *)
Definition flaky_store : Store := {|
  count_with_coordinates := Some 1500;
  select_chunk := fun a _ =>
    if a =? 0
    then {| resp_data := Some two_places; resp_error := None; resp_status := 200 |}
    else {| resp_data := None; resp_error := Some (Error "timeout"); resp_status := 500 |}
|}.

End MapCases.

(** ** [preload.ts]: the main process

    The file holds the preload bridge and, from its second import block
    on, the main process: the handler that writes an export, and the handler
    that opens the map window. *)

Module Main.

(** One object of [transformedList]. *)
Record ExportRow := {
  ADDRESS : string;
  REGION : string;
  LAND_SIZE_SF : string;
  YEAR_OF_CONSTRUCTION : string;
  BUSINESS_NAME : string;
  LICENSE_TYPES : string;
  POINT : string;
  REVIEWS : string;
  PERPLEX : string;
  OLD_PERPLEX_RESEARCH : string;
  AI_SUMMARY : string;
  phoneNum : string;
  WEBSITE : string;
  RATING_NUM : Z;
  ALTERNATIVE_NAMES : string
}.

(** [x || ""] on an optional string. *)
Definition or_blank (x : option string) : string := default "" x.

(** A window of the application, by identity. *)
Definition Window : Type := nat.

(** What [dialog.showSaveDialog] resolves with. *)
Record SaveDialogReturn := {
  filePath : option string;
  canceled : bool
}.

(** What the handler answers to the renderer. *)
Record Answer := {
  answer_success : bool;
  answer_error : JSValue;            (* [undefined] when there is none *)
  answer_filePath : option string
}.

Inductive Effect :=
| ShowSaveDialog (w : Window)
| WriteFile (path : string) (content : list ExportRow).

Definition no_window_message : string := "No focused window to show save dialog.".

Definition canceled_answer : Answer :=
  {| answer_success := false; answer_error := JStr Trace.cancel_message;
     answer_filePath := None |}.

(** [canceled || !filePath] *)
Definition dismissed (d : SaveDialogReturn) : bool :=
  canceled d || Init.missing (filePath d).

(** [catch (error) { return { success: false, error: error.message } }]:
    how the handler settles for a thrown value. *)
Definition caught (e : JSValue) : Settled Answer :=
  executeJavaScript
    (m ← get_message e;
     mret {| answer_success := false; answer_error := m; answer_filePath := None |}).

(** [BrowserWindow.getFocusedWindow() || mainWindow] *)
Definition current_window (focused mainWindow : option Window) : option Window :=
  match focused with
  | Some w => Some w
  | None => mainWindow
  end.

Section WithNumberToString.

(** [`${x}`] on a number. *)
Variable Number_toString : spec_float -> string.

Definition transform (b : BusinessInfo) : ExportRow := {|
  ADDRESS := or_blank (address b);
  REGION := "";
  LAND_SIZE_SF := "";
  YEAR_OF_CONSTRUCTION := "";
  BUSINESS_NAME := name b;
  LICENSE_TYPES := "";
  POINT := match coordinates b with
           | Some c => Number_toString (lat c) +:+ ", " +:+ Number_toString (lng c)
           | None => ""
           end;
  REVIEWS := "";
  PERPLEX := "";
  OLD_PERPLEX_RESEARCH := "";
  AI_SUMMARY := "";
  phoneNum := or_blank (phone b);
  WEBSITE := or_blank (website b);
  RATING_NUM := 0;
  ALTERNATIVE_NAMES := ""
|}.

(** The [try] block of the handler, with the effects it has made when it
    completes or throws. *)
Definition write_export (showSaveDialog : Window -> Completion SaveDialogReturn)
  (writeFileSync : string -> list ExportRow -> Completion unit)
  (currentWindow : Window) (transformedList : list ExportRow)
  : list Effect * Completion Answer :=
  match showSaveDialog currentWindow with
  | Throw e => ([ShowSaveDialog currentWindow], Throw e)
  | Return d =>
      if dismissed d
      then ([ShowSaveDialog currentWindow], Return canceled_answer)
      else
        let path := default "" (filePath d) in
        match writeFileSync path transformedList with
        | Throw e =>
            ([ShowSaveDialog currentWindow; WriteFile path transformedList], Throw e)
        | Return _ =>
            ([ShowSaveDialog currentWindow; WriteFile path transformedList],
             Return {| answer_success := true; answer_error := JUndefined;
                       answer_filePath := Some path |})
        end
  end.

(** The handler of [EXPORT_ARCHIVE_BY_DATE].  [focused] is what
    [BrowserWindow.getFocusedWindow()] returns, [mainWindow] the module
    variable. *)
Definition handleExportArchiveByDate (focused mainWindow : option Window)
  (showSaveDialog : Window -> Completion SaveDialogReturn)
  (writeFileSync : string -> list ExportRow -> Completion unit)
  (businessList : list BusinessInfo) : list Effect * Settled Answer :=
  let transformedList := map transform businessList in
  match current_window focused mainWindow with
  | None =>
      ([], Resolved {| answer_success := false; answer_error := JStr no_window_message;
                       answer_filePath := None |})
  | Some currentWindow =>
      let '(io, body) :=
        write_export showSaveDialog writeFileSync currentWindow transformedList in
      (io, match body with
           | Return a => Resolved a
           | Throw error => caught error
           end)
  end.

End WithNumberToString.

(** The answer as the renderer reads it. *)
Definition as_ExportResult (a : Answer) : App.ExportResult :=
  {| App.export_success := answer_success a;
     App.export_filePath := answer_filePath a;
     App.export_error := Hook.as_string (answer_error a) |}.

(** The writes among the effects. *)
Definition file_writes (io : list Effect) : list (string * list ExportRow) :=
  omap (fun e => match e with WriteFile p c => Some (p, c) | _ => None end) io.

Definition dialogs (io : list Effect) : list Window :=
  omap (fun e => match e with ShowSaveDialog w => Some w | _ => None end) io.

End Main.

(** ** [preload.ts]: the map window

    [mapWindow] is the module variable; [alive] are the map windows that
    exist.  A window's [closed] event is taken to fire, and its handler to
    run, when the window is destroyed. *)

Module MapWindow.

Definition Window : Type := nat.

Record Windows := {
  mapWindow : option Window;
  alive : list Window;
  next_window : Window;
  focus_calls : list Window
}.

Definition no_windows : Windows :=
  {| mapWindow := None; alive := []; next_window := 0%nat; focus_calls := [] |}.

(** [mapWindow && !mapWindow.isDestroyed()] *)
Definition usable (ws : Windows) : option Window :=
  match mapWindow ws with
  | Some w => if bool_decide (w ∈ alive ws) then Some w else None
  | None => None
  end.

(** The listener of [OPEN_MAP_WINDOW]. *)
Definition openMapWindow (ws : Windows) : Windows :=
  match usable ws with
  | Some w =>
      {| mapWindow := mapWindow ws; alive := alive ws; next_window := next_window ws;
         focus_calls := focus_calls ws ++ [w] |}
  | None =>
      {| mapWindow := Some (next_window ws);
         alive := alive ws ++ [next_window ws];
         next_window := S (next_window ws);
         focus_calls := focus_calls ws |}
  end.

(** Window [w] is closed: it is destroyed and its [closed] handler sets
    the variable to null. *)
Definition closeWindow (w : Window) (ws : Windows) : Windows :=
  if bool_decide (w ∈ alive ws)
  then {| mapWindow := None;
          alive := List.filter (fun w' => negb (Nat.eqb w' w)) (alive ws);
          next_window := next_window ws; focus_calls := focus_calls ws |}
  else ws.

Inductive Event :=
| Open
| Close (w : Window).

Definition step (e : Event) (ws : Windows) : Windows :=
  match e with
  | Open => openMapWindow ws
  | Close w => closeWindow w ws
  end.

Definition steps (es : list Event) (ws : Windows) : Windows :=
  foldl (fun ws' e => step e ws') ws es.

(** The variable names the one map window there is, if there is one. *)
Definition tracked (ws : Windows) : Prop :=
  alive ws = match mapWindow ws with Some w => [w] | None => [] end.

End MapWindow.

(** ** [MapWindowContentView.tsx] *)

Module MapView.

Import MapQuery.

Record State := {
  businesses : list Row;
  loading : bool;
  error : option string
}.

Definition initial : State := {| businesses := []; loading := true; error := None |}.

(** [v.k] on a value that is not null or undefined. *)
Definition member (v : JSValue) (k : string) : JSValue :=
  match v with
  | JObj o => prop o k
  | _ => JUndefined
  end.

Definition is_nan (x : spec_float) : bool :=
  match x with
  | S754_nan => true
  | _ => false
  end.

(** [typeof v === 'number' && !isNaN(v)] *)
Definition plain_number (v : JSValue) : bool :=
  match v with
  | JNum x => negb (is_nan x)
  | _ => false
  end.

(** The filter of [fetchBusinesses]. *)
Definition plottable (b : Row) : bool :=
  let c := prop b "coordinates" in
  truthy c && plain_number (member c "lat") && plain_number (member c "lng").

(** The filter of [FitBoundsToMarkers]: both [typeof] tests first, then
    both [isNaN] tests. *)
Definition fits_bounds (biz : Row) : bool :=
  let c := prop biz "coordinates" in
  truthy c &&
  match member c "lat", member c "lng" with
  | JNum la, JNum lo => negb (is_nan la) && negb (is_nan lo)
  | _, _ => false
  end.

Definition msg_no_connection : string := "Failed to initialize database connection".
Definition msg_not_plottable : string :=
  "Data loaded, but no locations have plottable coordinates.".
Definition msg_load_failed : string :=
  "Failed to load businesses for map. Check console for details.".

(** The state after [fetchBusinesses] has run as far as it gets.
    [supabaseClient] is what [initSupabase] settles with; the client it
    resolves with is the one the module variable holds, which the query then
    uses.  Nothing catches a rejection, and the statements after the [await]
    are then not run. *)
Definition fetchBusinesses (supabaseClient : Settled (option Store)) : State :=
  let st := {| businesses := []; loading := true; error := None |} in
  match supabaseClient with
  | Rejected _ => st
  | Resolved None =>
      {| businesses := []; loading := false; error := Some msg_no_connection |}
  | Resolved (Some client) =>
      match snd (getBusinessesForMap (Some client)) with
      | None | Some (Rejected _) => st
      | Some (Resolved result) =>
          match map_success result, map_data result with
          | true, Some data =>
              let businessesWithCoords := List.filter plottable data in
              {| businesses := businessesWithCoords;
                 loading := false;
                 error := if (length businessesWithCoords =? 0)%nat &&
                             (0 <? length data)%nat
                          then Some msg_not_plottable else None |}
          | _, _ =>
              {| businesses := []; loading := false; error := Some msg_load_failed |}
          end
      end
  end.

(** [51.505] and [-0.09], as the nearest binary64 values. *)
Definition default_lat : spec_float :=
  SFdiv 53 1024 (Sample.of_Z 51505) (Sample.of_Z 1000).
Definition default_lng : spec_float :=
  SFdiv 53 1024 (Sample.of_Z (-9)) (Sample.of_Z 100).

(** [x || d] *)
Definition or_number (x : JSValue) (d : spec_float) : JSValue :=
  if truthy x then x else JNum d.

Record MarkerProps := {
  position : JSValue * JSValue;
  popup_name : JSValue;
  popup_address : JSValue
}.

Inductive View :=
| LoadingMessage
| ErrorMessage (msg : string)
| NoBusinessesMessage
| MapShown (center : JSValue * JSValue) (zoom : Z) (markers : list MarkerProps)
           (bounds : list (JSValue * JSValue)).

(** [biz.coordinates ? <Marker ...> : null] *)
Definition marker (biz : Row) : option MarkerProps :=
  let c := prop biz "coordinates" in
  if truthy c
  then Some {| position := (member c "lat", member c "lng");
               popup_name := prop biz "name";
               popup_address := if truthy (prop biz "address") then prop biz "address"
                                else JStr "Address not available" |}
  else None.

(** [[biz.coordinates.lat, biz.coordinates.lng]] *)
Definition lat_lng (biz : Row) : JSValue * JSValue :=
  (member (prop biz "coordinates") "lat", member (prop biz "coordinates") "lng").

(** The coordinates [FitBoundsToMarkers] hands to [fitBounds]. *)
Definition validCoordinates (bs : list Row) : list (JSValue * JSValue) :=
  map lat_lng (List.filter fits_bounds bs).


(** What the component returns. *)
Definition render (st : State) : View :=
  if loading st then LoadingMessage
  else if negb (Init.missing (error st)) then ErrorMessage (default "" (error st))
  else
    match businesses st with
    | [] => NoBusinessesMessage
    | first :: _ =>
        let c := prop first "coordinates" in
        MapShown (or_number (member c "lat") default_lat,
                  or_number (member c "lng") default_lng)
                 (if truthy c then 10 else 2)
                 (omap marker (businesses st))
                 (validCoordinates (businesses st))
    end.

(** The view once the fetch has ended, for a store that answers. *)
Definition shown (client : Store) : View :=
  render (fetchBusinesses (Resolved (Some client))).

End MapView.

(** ** A whole session *)

Module SessionRun.

Import App.

(** The captures of a session, one after the other, each with its
    forwards settled; the trace collects the requests made. *)
Definition run (supabase : option Supabase.Client) (captures : list BusinessInfo)
  (st : AppState) : AppState * list IO :=
  foldl (fun '(s, io) cb =>
           let '(s', io') := capture_and_forward supabase cb s in
           (s', io ++ io'))
        (st, []) captures.

End SessionRun.

(* ===================================================================== *)
(** * Part II: properties                                                 *)
(* ===================================================================== *)

(** ** Strings *)

#[local] Arguments String.append !_ _ / : simpl nomatch.

Lemma append_nil_r (s : string) : s +:+ "" = s.
Proof. induction s as [|c s IH]; simpl; [reflexivity | by rewrite IH]. Qed.

Lemma append_cons (c : ascii) (s t : string) : String c s +:+ t = String c (s +:+ t).
Proof. reflexivity. Qed.


Lemma startsWith_nil (s : string) : startsWith s "" = true.
Proof. by destruct s. Qed.

Lemma startsWith_spec (s m : string) :
  startsWith s m = true <-> exists post, s = m +:+ post.
Proof.
  revert s. induction m as [|c m IH]; intros s.
  - destruct s; simpl; (split; [intros _; eauto | done]).
  - destruct s as [|c' s]; simpl.
    + split; [done | intros [post H]; discriminate].
    + rewrite andb_true_iff, IH, Ascii.eqb_eq. split.
      * intros [-> [post ->]]. by exists post.
      * intros [post H]. injection H as -> ->. split; [done | by exists post].
Qed.

Lemma includes_nil (m : string) : includes "" m = startsWith "" m.
Proof. simpl. apply orb_false_r. Qed.

Lemma includes_cons (c : ascii) (s m : string) :
  includes (String c s) m = startsWith (String c s) m || includes s m.
Proof. reflexivity. Qed.

Lemma includes_spec (s m : string) :
  includes s m = true <-> exists pre post, s = pre +:+ m +:+ post.
Proof.
  induction s as [|c s IH].
  - rewrite includes_nil, startsWith_spec. split.
    + intros [post H]. by exists "", post.
    + intros [pre [post H]]. destruct pre; simpl in H; [by exists post | discriminate].
  - rewrite includes_cons, orb_true_iff, IH, startsWith_spec. split.
    + intros [[post H] | [pre [post H]]].
      * by exists "", post.
      * exists (String c pre), post. simpl. by rewrite H.
    + intros [pre [post H]]. destruct pre as [|c' pre]; simpl in H.
      * left. by exists post.
      * right. exists pre, post. congruence.
Qed.

Lemma string_eqb_true (a b : string) : String.eqb a b = true <-> a = b.
Proof. apply String.eqb_eq. Qed.

Lemma string_eqb_false (a b : string) : String.eqb a b = false <-> a <> b.
Proof. apply String.eqb_neq. Qed.

(** ** The page classifier *)

Section Classifier.

Import Hook Scripts.

Lemma isBusinessTitle_spec (t : string) :
  isBusinessTitle t = true <->
  (exists pre post, t = pre +:+ " - Google Maps" +:+ post) /\ t <> "Google Maps".
Proof.
  unfold isBusinessTitle, title_suffix, bare_site_name.
  rewrite andb_true_iff, includes_spec, negb_true_iff, string_eqb_false.
  reflexivity.
Qed.

Lemma classification_script_value (api : DomApi) (t : string) (a d : option (El api)) :
  document_title api = Return t ->
  document_querySelector api address_marker = Return a ->
  document_querySelector api description_marker = Return d ->
  classification_script api =
    Return (JObj {[ "isBusinessPage" :=
      JBool (isBusinessTitle t && (bool_decide (is_Some a) || bool_decide (is_Some d))) ]}).
Proof.
  intros Ht Ha Hd. unfold classification_script.
  rewrite Ht; simpl. rewrite Ha; simpl. rewrite Hd; simpl. reflexivity.
Qed.

Lemma classification_then_flag (b : bool) (st : HookState) :
  isBusinessPage (classification_then (JObj {[ "isBusinessPage" := JBool b ]}) st) = b.
Proof.
  unfold classification_then, prop. rewrite lookup_singleton_eq. simpl.
  destruct b; reflexivity.
Qed.

(** C2. For every title [T] and every presence of the address marker and of
    the description marker, the classifier (run on a mounted webview whose
    page answers its three reads) sets [isBusinessPage] to true exactly when
    [T] contains [" - Google Maps"], [T] is not ["Google Maps"], and one of
    the markers is present; for the bare site name the result is false
    whatever the markers. *)
Theorem page_classifier_iff (api : DomApi) (T : string) (a d : option (El api))
  (st : HookState) :
  webviewRef st = true ->
  document_title api = Return T ->
  document_querySelector api address_marker = Return a ->
  document_querySelector api description_marker = Return d ->
  (isBusinessPage (checkIfBusinessPage api st) = true <->
     (exists pre post, T = pre +:+ " - Google Maps" +:+ post) /\
     T <> "Google Maps" /\
     (is_Some a \/ is_Some d)) /\
  (T = "Google Maps" -> isBusinessPage (checkIfBusinessPage api st) = false).
Proof.
  intros Href Ht Ha Hd.
  assert (Hv : isBusinessPage (checkIfBusinessPage api st) =
               isBusinessTitle T && (bool_decide (is_Some a) || bool_decide (is_Some d))).
  { unfold checkIfBusinessPage. rewrite Href.
    rewrite (classification_script_value api T a d Ht Ha Hd). simpl.
    apply classification_then_flag. }
  rewrite Hv. split.
  - rewrite andb_true_iff, orb_true_iff, isBusinessTitle_spec.
    rewrite !bool_decide_eq_true. tauto.
  - intros ->. reflexivity.
Qed.

End Classifier.

(** The sample page is a business page; this also instantiates the
    hypotheses of [page_classifier_iff]. *)
Lemma page_classifier_iff_witness :
  Hook.isBusinessPage (Hook.checkIfBusinessPage (page_api Sample.joes_pizza) Sample.mounted)
    = true <->
  (exists pre post, title Sample.joes_pizza = pre +:+ " - Google Maps" +:+ post) /\
  title Sample.joes_pizza <> "Google Maps" /\
  (is_Some (Some 4%nat) \/ is_Some (@None nat)).
Proof.
  exact (proj1 (page_classifier_iff (page_api Sample.joes_pizza)
                  (title Sample.joes_pizza) (Some 4%nat) None Sample.mounted
                  eq_refl eq_refl eq_refl eq_refl)).
Defined.

(** ** Extraction: failure and records *)

Section Extraction.

Import Hook Scripts.

Variable parseFloat : string -> spec_float.

Lemma extraction_body_full (api : DomApi) (v : JSValue) :
  extraction_body parseFloat api = Return v -> exists o, v = JObj o /\ full_record o.
Proof.
  unfold extraction_body, mbind, completion_bind, mret, completion_ret.
  destruct (document_title api) as [t|]; simpl; [|discriminate].
  destruct (labelled_text api phone_marker) as [p|]; simpl; [|discriminate].
  destruct (labelled_text api address_marker) as [a|]; simpl; [|discriminate].
  destruct (website_field api) as [w|]; simpl; [|discriminate].
  destruct (location_href api) as [h|]; simpl; [|discriminate].
  intros [= <-]. eexists. split; [reflexivity|]. unfold full_record. eauto 10.
Qed.

Lemma full_record_guards (o : gmap string JSValue) :
  full_record o -> hasError (JObj o) = false /\ isBusinessInfo (JObj o) = true.
Proof.
  intros (n & p & a & w & c & ->). split; reflexivity.
Qed.

Lemma error_object_guards (m : JSValue) :
  hasError (JObj {[ "error" := m ]}) = true /\
  isBusinessInfo (JObj {[ "error" := m ]}) = false.
Proof. split; reflexivity. Qed.

Lemma extraction_script_failure (api : DomApi) (e : JSValue) :
  extraction_body parseFloat api = Throw e ->
  (exists m, executeJavaScript (extraction_script parseFloat api)
             = Resolved (JObj {[ "error" := m ]})) \/
  (exists e', executeJavaScript (extraction_script parseFloat api) = Rejected e').
Proof.
  intros H. unfold extraction_script. rewrite H. simpl.
  unfold mbind, completion_bind, mret, completion_ret.
  destruct e; simpl; eauto.
Qed.

Lemma extraction_script_success (api : DomApi) (v : JSValue) :
  extraction_body parseFloat api = Return v ->
  executeJavaScript (extraction_script parseFloat api) = Resolved v.
Proof. intros H. unfold extraction_script. by rewrite H. Qed.

(** The first derivation throwing is enough for the body to throw. *)
Lemma extraction_body_title_throws (api : DomApi) (e : JSValue) :
  document_title api = Throw e -> extraction_body parseFloat api = Throw e.
Proof. intros H. unfold extraction_body. by rewrite H. Qed.

(** C7. When the field derivation throws, what the caller receives is a
    failure (the [{error}] object, or a rejection when reading the message
    itself throws): it is told apart from every record a completed run can
    return, the empty one included; the caller clears [currentBusiness];
    and whenever a record is handed on it comes from a completed run and
    carries all five fields. *)
Theorem extraction_failure_is_typed (api : DomApi) (e : JSValue) (st : HookState) :
  extraction_body parseFloat api = Throw e ->
  let r := executeJavaScript (extraction_script parseFloat api) in
  ((exists m, r = Resolved (JObj {[ "error" := m ]})) \/ (exists e', r = Rejected e')) /\
  (forall v, r = Resolved v -> hasError v = true /\ isBusinessInfo v = false) /\
  (forall api' v', extraction_body parseFloat api' = Return v' ->
     r <> Resolved v' /\ hasError v' = false /\ isBusinessInfo v' = true) /\
  currentBusiness (extraction_settled r st) = None /\
  emitted r = None /\
  (forall api' b,
     emitted (executeJavaScript (extraction_script parseFloat api')) = Some b ->
     exists o, extraction_body parseFloat api' = Return (JObj o) /\
               full_record o /\ b = as_BusinessInfo o).
Proof.
  intros H r.
  pose proof (extraction_script_failure api e H) as Hr. fold r in Hr.
  assert (Hguard : forall v, r = Resolved v -> hasError v = true /\ isBusinessInfo v = false).
  { intros v Hv. destruct Hr as [[m Hm] | [e' He']]; rewrite Hv in *.
    - injection Hm as ->. apply error_object_guards.
    - discriminate. }
  split; [exact Hr|]. split; [exact Hguard|]. split; [|split; [|split]].
  - intros api' v' Hv'.
    destruct (extraction_body_full api' v' Hv') as (o & -> & Ho).
    destruct (full_record_guards o Ho) as [He Hb].
    split; [|done]. intros Heq. destruct (Hguard _ Heq) as [He' _]. congruence.
  - destruct Hr as [[m Hm] | [e' He']]; rewrite ?Hm, ?He'; reflexivity.
  - destruct Hr as [[m Hm] | [e' He']]; rewrite ?Hm, ?He'; reflexivity.
  - intros api' b Hb.
    destruct (extraction_body parseFloat api') as [v|e0] eqn:Hbody.
    + rewrite (extraction_script_success api' v Hbody) in Hb.
      destruct (extraction_body_full api' v Hbody) as (o & -> & Ho).
      destruct (full_record_guards o Ho) as [He Hi].
      simpl in Hb. rewrite He, Hi in Hb. injection Hb as <-. eauto.
    + destruct (extraction_script_failure api' e0 Hbody) as [[m Hm] | [e' He']];
        rewrite ?Hm, ?He' in Hb; discriminate.
Qed.

End Extraction.

Lemma extraction_failure_is_typed_witness :
  Hook.currentBusiness
    (Hook.extraction_settled
       (executeJavaScript (Scripts.extraction_script Sample.parseFloat Sample.throwing_api))
       Sample.mounted) = None.
Proof.
  exact (proj1 (proj2 (proj2 (proj2
    (extraction_failure_is_typed Sample.parseFloat Sample.throwing_api
       (Error "title is not readable") Sample.mounted eq_refl))))).
Defined.

(** ** The session list *)

Section Session.

Import App.

Lemma no_address_spec (a : option string) : no_address a = true <-> absent_or_empty a.
Proof.
  unfold absent_or_empty. destruct a as [s|]; simpl.
  - rewrite string_eqb_true. split; [intros ->; by right | intros [H|H]; congruence].
  - split; [by left | done].
Qed.

Lemma address_eqb_spec (a b : option string) : address_eqb a b = true <-> a = b.
Proof.
  destruct a as [x|], b as [y|]; simpl; try (split; congruence).
  rewrite string_eqb_true. split; congruence.
Qed.

Lemma same_business_spec (cb b : BusinessInfo) :
  same_business cb b = true <-> identity b cb.
Proof.
  unfold same_business, identity.
  rewrite andb_true_iff, orb_true_iff, andb_true_iff, string_eqb_true,
    address_eqb_spec, !no_address_spec.
  reflexivity.
Qed.

Lemma identity_sym (a b : BusinessInfo) : identity a b -> identity b a.
Proof. unfold identity. intros [Hn [Ha | [H1 H2]]]; split; auto. Qed.

Lemma identity_refl (a : BusinessInfo) : identity a a.
Proof. split; auto. Qed.

Lemma find_none_iff (cb : BusinessInfo) (saved : list BusinessInfo) :
  List.find (same_business cb) saved = None <-> ~ known cb saved.
Proof.
  split.
  - intros H [b [Hin Hid]]. apply same_business_spec in Hid.
    pose proof (List.find_none _ _ H b Hin). congruence.
  - intros H. destruct (List.find (same_business cb) saved) as [b|] eqn:E; [|done].
    apply List.find_some in E as [Hin Hb]. exfalso. apply H.
    exists b. split; [done | by apply same_business_spec].
Qed.

Lemma session_effect_new (cb : BusinessInfo) (saved : list BusinessInfo) :
  ~ known cb saved -> session_effect (Some cb) saved = (saved ++ [cb], [cb]).
Proof. intros H. unfold session_effect. by rewrite (proj2 (find_none_iff cb saved) H). Qed.

Lemma session_effect_known (cb : BusinessInfo) (saved : list BusinessInfo) :
  known cb saved -> session_effect (Some cb) saved = (saved, []).
Proof.
  intros H. unfold session_effect.
  destruct (List.find (same_business cb) saved) eqn:E; [done|].
  apply find_none_iff in E. contradiction.
Qed.

Lemma known_dec (cb : BusinessInfo) (saved : list BusinessInfo) :
  known cb saved \/ ~ known cb saved.
Proof.
  destruct (List.find (same_business cb) saved) eqn:E.
  - left. apply List.find_some in E as [Hin Hb]. eexists. split; [done|].
    by apply same_business_spec.
  - right. by apply find_none_iff.
Qed.

Lemma known_after_append (cb : BusinessInfo) (saved : list BusinessInfo) :
  known cb (saved ++ [cb]).
Proof. exists cb. split; [apply in_or_app; right; by left | apply identity_refl]. Qed.

(** The second run of the effect, caused by the change of the list, does
    nothing. *)
Lemma capture_new (cb : BusinessInfo) (saved : list BusinessInfo) :
  ~ known cb saved -> capture cb saved = (saved ++ [cb], [cb]).
Proof.
  intros H. unfold capture. rewrite (session_effect_new _ _ H).
  by rewrite (session_effect_known _ _ (known_after_append cb saved)).
Qed.

Lemma capture_known (cb : BusinessInfo) (saved : list BusinessInfo) :
  known cb saved -> capture cb saved = (saved, []).
Proof. intros H. unfold capture. by rewrite !(session_effect_known _ _ H). Qed.

Lemma known_identity (cb1 cb2 : BusinessInfo) (saved : list BusinessInfo) :
  identity cb1 cb2 -> known cb2 (saved ++ [cb1]).
Proof. intros H. exists cb1. split; [apply in_or_app; right; by left | done]. Qed.

Lemma distinct_append (cb : BusinessInfo) (saved : list BusinessInfo) :
  distinct_identities saved -> ~ known cb saved -> distinct_identities (saved ++ [cb]).
Proof.
  intros Hd Hk i j a b Hij Hi Hj Hid.
  assert (Hlast : forall k x, (saved ++ [cb]) !! k = Some x ->
            saved !! k = Some x \/ (k = length saved /\ x = cb)).
  { intros k x Hk'. apply lookup_app_Some in Hk' as [Hk' | [Hge Hk']]; [by left|].
    right. apply list_lookup_singleton_Some in Hk' as [Hk' ->]. split; [lia | done]. }
  destruct (Hlast _ _ Hi) as [Hi' | [-> ->]], (Hlast _ _ Hj) as [Hj' | [-> ->]].
  - exact (Hd i j a b Hij Hi' Hj' Hid).
  - apply Hk. exists a. split; [|done].
    apply list_elem_of_In. by eapply list_elem_of_lookup_2.
  - apply Hk. exists b. split; [|by apply identity_sym].
    apply list_elem_of_In. by eapply list_elem_of_lookup_2.
  - done.
Qed.

Lemma capture_distinct (cb : BusinessInfo) (saved : list BusinessInfo) :
  distinct_identities saved -> distinct_identities (fst (capture cb saved)).
Proof.
  intros Hd. destruct (known_dec cb saved) as [H|H].
  - by rewrite (capture_known _ _ H).
  - rewrite (capture_new _ _ H). by apply distinct_append.
Qed.

Lemma captures_distinct (captures saved : list BusinessInfo) :
  distinct_identities saved ->
  distinct_identities (foldl (fun s cb => fst (capture cb s)) saved captures).
Proof.
  revert saved. induction captures as [|cb cs IH]; intros saved Hd; simpl; [done|].
  apply IH. by apply capture_distinct.
Qed.

End Session.

Section SessionClaims.

Import App.

Lemma append_one_neq {A} (l : list A) (x : A) : l ++ [x] <> l.
Proof. intros H. apply (f_equal length) in H. rewrite length_app in H. simpl in H. lia. Qed.

(** C1. A capture appends the record exactly when no entry of the session
    list has its identity (same name, and same address or no address on
    either side), and otherwise leaves the list as it is; so two captures of
    one identity append once, two captures with one name and different
    non-empty addresses both append, and no session list reached from the
    empty one holds two entries of one identity. *)
Theorem session_dedup :
  (forall cb saved,
     (fst (capture cb saved) = saved ++ [cb] <-> ~ known cb saved) /\
     (fst (capture cb saved) = saved <-> known cb saved)) /\
  (forall cb1 cb2 saved,
     identity cb1 cb2 -> ~ known cb1 saved ->
     fst (capture cb2 (fst (capture cb1 saved))) = saved ++ [cb1]) /\
  (forall cb1 cb2 a1 a2 saved,
     name cb1 = name cb2 ->
     address cb1 = Some a1 -> address cb2 = Some a2 ->
     a1 <> "" -> a2 <> "" -> a1 <> a2 ->
     ~ known cb1 saved -> ~ known cb2 saved ->
     fst (capture cb2 (fst (capture cb1 saved))) = saved ++ [cb1; cb2]) /\
  (forall captures, distinct_identities (session_after captures)).
Proof.
  split; [|split; [|split]].
  - intros cb saved. destruct (known_dec cb saved) as [H|H].
    + rewrite (capture_known _ _ H). simpl. split; split; try done.
      intros E. symmetry in E. by apply append_one_neq in E.
    + rewrite (capture_new _ _ H). simpl. split; split; try done.
      intros E. by apply append_one_neq in E.
  - intros cb1 cb2 saved Hid H1.
    rewrite (capture_new _ _ H1). simpl.
    by rewrite (capture_known _ _ (known_identity cb1 cb2 saved Hid)).
  - intros cb1 cb2 a1 a2 saved Hn Ha1 Ha2 Hne1 Hne2 Hne H1 H2.
    rewrite (capture_new _ _ H1). simpl.
    assert (H2' : ~ known cb2 (saved ++ [cb1])).
    { intros [b [Hin Hid]]. apply in_app_or in Hin as [Hin | [<- | []]].
      - apply H2. by exists b.
      - destruct Hid as [_ [Haddr | [[Hx | Hx] _]]]; rewrite Ha1 in *.
        + rewrite Ha2 in Haddr. congruence.
        + discriminate.
        + congruence. }
    rewrite (capture_new _ _ H2'). simpl. by rewrite <- app_assoc.
  - intros captures. unfold session_after. apply captures_distinct.
    intros i j a b _ Hi. by rewrite lookup_nil in Hi.
Qed.

(** ** The forward to the store *)

Lemma forward_settled_saved (r : Settled Supabase.SaveResult) (st : AppState) :
  savedBusinesses (forward_settled r st) = savedBusinesses st.
Proof. by destruct r. Qed.

Lemma forwards_keep_saved (supabase : option Supabase.Client)
  (fwd : list BusinessInfo) (st : AppState) (io : list IO) :
  savedBusinesses
    (fst (foldl (fun '(s, io) b =>
                   let '(io', r) := Supabase.saveBusinessToSupabase supabase b in
                   (forward_settled r s, io ++ io'))
                (st, io) fwd)) = savedBusinesses st.
Proof.
  revert st io. induction fwd as [|b fwd IH]; intros st io; simpl; [done|].
  destruct (Supabase.saveBusinessToSupabase supabase b) as [io' r].
  rewrite IH. apply forward_settled_saved.
Qed.

Lemma capture_and_forward_saved (supabase : option Supabase.Client)
  (cb : BusinessInfo) (st : AppState) :
  savedBusinesses (fst (capture_and_forward supabase cb st))
  = fst (capture cb (savedBusinesses st)).
Proof.
  unfold capture_and_forward.
  destruct (capture cb (savedBusinesses st)) as [saved fwd]. simpl.
  by rewrite forwards_keep_saved.
Qed.

(** C8. When the forward of a newly captured record fails, the session
    list still ends with that record, and it is the list of the run in
    which the forward succeeds. *)
Theorem forward_failure_keeps_session (failing working : option Supabase.Client)
  (cb : BusinessInfo) (st : AppState) :
  forward_fails failing cb ->
  forward_succeeds working cb ->
  ~ known cb (savedBusinesses st) ->
  savedBusinesses (fst (capture_and_forward failing cb st)) = savedBusinesses st ++ [cb] /\
  savedBusinesses (fst (capture_and_forward failing cb st))
  = savedBusinesses (fst (capture_and_forward working cb st)).
Proof.
  intros _ _ Hnew. rewrite !capture_and_forward_saved.
  by rewrite (capture_new _ _ Hnew).
Qed.

End SessionClaims.

Lemma not_known_nil (cb : BusinessInfo) : ~ App.known cb [].
Proof. intros [b [[] _]]. Qed.

Lemma session_dedup_witness :
  fst (App.capture Sample.joe_again (fst (App.capture Sample.joe []))) = [] ++ [Sample.joe].
Proof.
  apply (proj1 (proj2 session_dedup) Sample.joe Sample.joe_again []).
  - split; [reflexivity | left; reflexivity].
  - apply not_known_nil.
Defined.

Lemma forward_failure_keeps_session_witness :
  App.savedBusinesses
    (fst (App.capture_and_forward (Some Sample.failing_store) Sample.joe Sample.empty_session))
  = [] ++ [Sample.joe] /\
  App.savedBusinesses
    (fst (App.capture_and_forward (Some Sample.failing_store) Sample.joe Sample.empty_session))
  = App.savedBusinesses
    (fst (App.capture_and_forward (Some Sample.working_store) Sample.joe Sample.empty_session)).
Proof.
  apply (forward_failure_keeps_session (Some Sample.failing_store)
           (Some Sample.working_store) Sample.joe Sample.empty_session).
  - reflexivity.
  - reflexivity.
  - apply not_known_nil.
Defined.

(** ** Listeners, the poll and teardown *)

Section Teardown.

Import Hook Monitor.

Lemma in_addEventListener (type : string) (l : Closure) (rt0 : Runtime) :
  In (type, l) (listeners (addEventListener type l rt0)).
Proof.
  unfold addEventListener. simpl. case_bool_decide as H.
  - by apply list_elem_of_In.
  - apply in_or_app. right. by left.
Qed.

Lemma in_addEventListener_keep (type : string) (l : Closure) (e : string * Closure)
  (rt0 : Runtime) :
  In e (listeners rt0) -> In e (listeners (addEventListener type l rt0)).
Proof.
  intros H. unfold addEventListener. simpl. case_bool_decide; [done|].
  apply in_or_app. by left.
Qed.

Lemma in_removeEventListener (type : string) (l : Closure) (e : string * Closure)
  (rt0 : Runtime) :
  In e (listeners (removeEventListener type l rt0)) <-> In e (listeners rt0) /\ e <> (type, l).
Proof.
  unfold removeEventListener. simpl. rewrite List.filter_In, negb_true_iff.
  by rewrite bool_decide_eq_false.
Qed.

Lemma in_clearInterval (id : nat) (t : nat * Closure) (rt0 : Runtime) :
  In t (intervals (clearInterval id rt0)) <-> In t (intervals rt0) /\ fst t <> id.
Proof.
  unfold clearInterval. simpl. rewrite List.filter_In, negb_true_iff.
  by rewrite Nat.eqb_neq.
Qed.

Lemma mount_effect_unfold (applyFixes checkPage : Closure) (rt0 : Runtime) :
  mount_effect applyFixes checkPage rt0 =
  (snd (setInterval checkPage (subscribed applyFixes rt0)),
   {| c_handleLoad := {| code := HandleLoad; ident := next_ident rt0 |};
      c_handleNavigationComplete :=
        {| code := HandleNavigationComplete; ident := (2 + next_ident rt0)%nat |};
      c_applyWebviewInteractionFixes := applyFixes;
      c_intervalId := next_timer rt0 |}).
Proof. reflexivity. Qed.

Lemma cleanup_effect_unfold (c : Cleanup) (rt0 : Runtime) :
  cleanup_effect c rt0 =
  clearInterval (c_intervalId c)
    (removeEventListener "dom-ready" (c_applyWebviewInteractionFixes c)
       (removeEventListener "did-navigate-in-page" (c_handleNavigationComplete c)
          (removeEventListener "did-navigate" (c_handleNavigationComplete c)
             (removeEventListener "did-finish-load" (c_handleLoad c)
                (removeEventListener "did-start-loading"
                   {| code := SetLoadingTrue; ident := next_ident rt0 |}
                   (allocated 1 rt0)))))).
Proof. reflexivity. Qed.

Lemma listeners_clearInterval (id : nat) (rt0 : Runtime) :
  listeners (clearInterval id rt0) = listeners rt0.
Proof. reflexivity. Qed.

Lemma listeners_setInterval (cb : Closure) (rt0 : Runtime) :
  listeners (snd (setInterval cb rt0)) = listeners rt0.
Proof. reflexivity. Qed.

Lemma next_ident_subscribed (applyFixes cb : Closure) (rt0 : Runtime) :
  next_ident (snd (setInterval cb (subscribed applyFixes rt0))) = (4 + next_ident rt0)%nat.
Proof. reflexivity. Qed.

Lemma in_subscribed_arrow (applyFixes : Closure) (rt0 : Runtime) :
  In ("did-start-loading", {| code := SetLoadingTrue; ident := (3 + next_ident rt0)%nat |})
     (listeners (subscribed applyFixes rt0)).
Proof.
  unfold subscribed. do 4 apply in_addEventListener_keep. apply in_addEventListener.
Qed.

(** C6. Mount followed by the cleanup: the interval is cleared and four
    of the five subscriptions are removed, but the listener registered for
    [did-start-loading] is still on the webview, because the cleanup hands
    [removeEventListener] a function object created on the spot. *)
Theorem cleanup_misses_start_loading (applyFixes checkPage : Closure) (rt0 : Runtime) :
  let rt1 := fst (mount_effect applyFixes checkPage rt0) in
  let c := snd (mount_effect applyFixes checkPage rt0) in
  let rt2 := cleanup_effect c rt1 in
  let arrow := {| code := SetLoadingTrue; ident := (3 + next_ident rt0)%nat |} in
  In ("did-start-loading", arrow) (listeners rt1) /\
  In ("did-start-loading", arrow) (listeners rt2) /\
  ~ In ("did-finish-load", c_handleLoad c) (listeners rt2) /\
  ~ In ("did-navigate", c_handleNavigationComplete c) (listeners rt2) /\
  ~ In ("did-navigate-in-page", c_handleNavigationComplete c) (listeners rt2) /\
  ~ In ("dom-ready", c_applyWebviewInteractionFixes c) (listeners rt2) /\
  (forall cb, ~ In (c_intervalId c, cb) (intervals rt2)).
Proof.
  intros rt1 c rt2 arrow.
  assert (H1 : In ("did-start-loading", arrow) (listeners rt1)).
  { subst rt1. rewrite mount_effect_unfold. unfold fst.
    rewrite listeners_setInterval. apply in_subscribed_arrow. }
  split; [exact H1|]. subst rt2. rewrite cleanup_effect_unfold.
  rewrite listeners_clearInterval.
  assert (Hn : next_ident rt1 = (4 + next_ident rt0)%nat).
  { subst rt1. rewrite mount_effect_unfold. apply next_ident_subscribed. }
  repeat split.
  - repeat (apply in_removeEventListener; split);
      try (subst arrow c; rewrite ?mount_effect_unfold; intros [=]; lia).
    exact H1.
  - intros H. repeat (apply in_removeEventListener in H as [H ?]). done.
  - intros H. repeat (apply in_removeEventListener in H as [H ?]). done.
  - intros H. repeat (apply in_removeEventListener in H as [H ?]). done.
  - intros H. repeat (apply in_removeEventListener in H as [H ?]). done.
  - intros cb H. apply in_clearInterval in H as [_ H]. done.
Qed.

(** The same on the whole hook, from its initial state. *)
Lemma unmount_from_initial :
  listeners (rt (steps [Mount; Unmount] initial_world))
    = [("did-start-loading", {| code := SetLoadingTrue; ident := 5 |})] /\
  intervals (rt (steps [Mount; Unmount] initial_world)) = [].
Proof. split; reflexivity. Qed.

(** *** Results that settle after teardown *)


Lemma quiet_refl (w : World) : webviewRef (hook w) = false -> quiet w w.
Proof. by intros H. Qed.

Lemma quiet_trans (w1 w2 w3 : World) : quiet w1 w2 -> quiet w2 w3 -> quiet w1 w3.
Proof. intros (?&?&?) (?&?&?). repeat split; congruence. Qed.

Lemma issue_quiet (c : Call) (w : World) : webviewRef (hook w) = false -> issue c w = w.
Proof. intros H. unfold issue. by rewrite H. Qed.

Lemma issue_webviewRef (c : Call) (w : World) :
  webviewRef (hook (issue c w)) = webviewRef (hook w).
Proof. unfold issue. by destruct (webviewRef (hook w)) eqn:E. Qed.

Lemma run_quiet (c : Code) (w : World) : webviewRef (hook w) = false -> quiet w (run c w).
Proof.
  intros H.
  destruct c; simpl;
    repeat (rewrite issue_quiet by (rewrite ?issue_webviewRef; exact H));
    by repeat split.
Qed.

Lemma fold_run_quiet {A} (sel : A -> bool) (cd : A -> Code) (l : list A) (w : World) :
  webviewRef (hook w) = false ->
  quiet w (foldl (fun w' x => if sel x then run (cd x) w' else w') w l).
Proof.
  revert w. induction l as [|x l IH]; intros w H; simpl; [by apply quiet_refl|].
  destruct (sel x).
  - pose proof (run_quiet (cd x) w H) as Hq.
    eapply quiet_trans; [exact Hq|]. apply IH. apply Hq.
  - by apply IH.
Qed.

Lemma issuing_quiet (e : Event) (w : World) :
  issuing e -> webviewRef (hook w) = false -> quiet w (step e w).
Proof.
  intros He H. destruct e; simpl in *; try done.
  - apply (fold_run_quiet (fun l => String.eqb (fst l) type) (fun l => code (snd l))), H.
  - apply (fold_run_quiet (fun t => Nat.eqb (fst t) id) (fun t => code (snd t))), H.
  - rewrite H. by apply quiet_refl.
  - destruct (delayed w) as [|d]; [by apply quiet_refl|].
    rewrite issue_quiet; [|done]. by repeat split.
Qed.

(** Where the ref is looked at.  It is checked when a call is issued (for
    the extraction once more after the delay): with the ref cleared, no
    event, tick, click or timer issues a call or changes the two signals.  A
    call in flight is not checked again: when it settles, its continuation
    is applied to the hook's state, and what it does to the signals does not
    depend on the ref. *)
Lemma liveness_is_checked_at_issue_only :
  (forall e w, issuing e -> webviewRef (hook w) = false ->
     in_flight (step e w) = in_flight w /\ signals (step e w) = signals w) /\
  (forall w k c r, in_flight w !! k = Some c ->
     hook (step (Settle k r) w) = settle_call c r (hook w)) /\
  (forall c r st b,
     isBusinessPage (settle_call c r (set_webviewRef b st))
       = isBusinessPage (settle_call c r st) /\
     currentBusiness (settle_call c r (set_webviewRef b st))
       = currentBusiness (settle_call c r st)).
Proof.
  split; [|split].
  - intros e w He H. by destruct (issuing_quiet e w He H) as (_ & ? & ?).
  - intros w k c r H. simpl. by rewrite H.
  - intros c r st b. destruct c, r as [v|e]; simpl; try done.
    + destruct v; simpl; try done. by destruct (truthy _).
    + unfold extraction_then. destruct (hasError v); [done|].
      destruct (isBusinessInfo v); [|done]. by destruct v.
Qed.

End Teardown.

(** ** Export validation *)

Section ExportValidation.

Import App.

Variable Date_parse : string -> option Z.





End ExportValidation.



(** ** The date-range query *)

Section DateRange.

Import Date Supabase.

Lemma digit_digit_char (d : Z) : 0 <= d <= 9 -> digit (digit_char d) = Some d.
Proof.
  intros H.
  assert (E : d = 0 \/ d = 1 \/ d = 2 \/ d = 3 \/ d = 4 \/ d = 5 \/ d = 6 \/
              d = 7 \/ d = 8 \/ d = 9) by lia.
  decompose [or] E; subst; reflexivity.
Qed.

Lemma number_two (n : Z) (rest : list ascii) :
  0 <= n <= 99 -> number 2 0 (two_digits n ++ rest) = Some (n, rest).
Proof.
  intros H. unfold two_digits. simpl.
  rewrite !digit_digit_char by (Z.div_mod_to_equations; lia). simpl.
  do 2 f_equal. Z.div_mod_to_equations; lia.
Qed.

Lemma number_four (n : Z) (rest : list ascii) :
  0 <= n <= 9999 -> number 4 0 (four_digits n ++ rest) = Some (n, rest).
Proof.
  intros H. unfold four_digits. simpl.
  rewrite !digit_digit_char by (Z.div_mod_to_equations; lia). simpl.
  do 2 f_equal. Z.div_mod_to_equations; lia.
Qed.

Lemma in_range_ok (lo hi v : Z) : lo <= v <= hi -> in_range lo hi v = Some tt.
Proof.
  intros H. unfold in_range.
  by rewrite (proj2 (Z.leb_le lo v)), (proj2 (Z.leb_le v hi)) by lia.
Qed.

Lemma chars_of_append (l : list ascii) (s : string) :
  list_ascii_of_string (string_of_list_ascii l +:+ s) = l ++ list_ascii_of_string s.
Proof. induction l as [|c l IH]; simpl; [done | by rewrite IH]. Qed.

#[local] Arguments two_digits : simpl never.
#[local] Arguments four_digits : simpl never.
#[local] Arguments make_day : simpl never.
#[local] Arguments make_time : simpl never.
#[local] Arguments digit_char : simpl never.
#[local] Arguments digit : simpl never.
#[local] Arguments number : simpl never.
#[local] Arguments Z.mul : simpl never.
#[local] Arguments Z.add : simpl never.

(** A minute string followed by seconds, milliseconds and [Z]. *)
Lemma number_two_chars (a b : Z) (rest : list ascii) :
  0 <= a <= 9 -> 0 <= b <= 9 ->
  number 2 0 (digit_char a :: digit_char b :: rest) = Some (10 * a + b, rest).
Proof.
  intros Ha Hb. unfold number. rewrite !digit_digit_char by lia. cbn.
  repeat f_equal; lia.
Qed.

Lemma number_three_chars (a b c : Z) (rest : list ascii) :
  0 <= a <= 9 -> 0 <= b <= 9 -> 0 <= c <= 9 ->
  number 3 0 (digit_char a :: digit_char b :: digit_char c :: rest)
  = Some (100 * a + 10 * b + c, rest).
Proof.
  intros Ha Hb Hc. unfold number. rewrite !digit_digit_char by lia. cbn.
  repeat f_equal; lia.
Qed.

Lemma parse_minute_suffix (tza y m d h mi : Z) (s1 s2 f1 f2 f3 : Z) :
  valid_minute y m d h mi ->
  0 <= s1 <= 5 -> 0 <= s2 <= 9 -> 0 <= f1 <= 9 -> 0 <= f2 <= 9 -> 0 <= f3 <= 9 ->
  parse_chars tza
    (list_ascii_of_string (minute_string y m d h mi) ++
     [":"%char; digit_char s1; digit_char s2; "."%char;
      digit_char f1; digit_char f2; digit_char f3; "Z"%char])
  = Some (utc y m d h mi (10 * s1 + s2) (100 * f1 + 10 * f2 + f3)).
Proof.
  intros (Hy & Hm & Hd & Hh & Hmi) Hs1 Hs2 Hf1 Hf2 Hf3.
  unfold minute_string. rewrite list_ascii_of_string_of_list_ascii.
  unfold parse_chars, parse_date.
  rewrite <- ?app_assoc. rewrite number_four by lia. cbn.
  rewrite <- ?app_assoc. rewrite number_two by lia. cbn.
  rewrite in_range_ok by lia. cbn.
  rewrite <- ?app_assoc. rewrite number_two by lia. cbn.
  rewrite in_range_ok by lia. cbn.
  unfold parse_time.
  rewrite <- ?app_assoc. rewrite number_two by lia. cbn.
  rewrite in_range_ok by lia. cbn.
  rewrite number_two by lia. cbn.
  rewrite in_range_ok by lia. cbn.
  rewrite number_two_chars by lia. cbn.
  rewrite in_range_ok by lia. cbn.
  rewrite number_three_chars by lia. cbn.
  reflexivity.
Qed.

Lemma includes_one_char (c : ascii) (l : list ascii) :
  includes (string_of_list_ascii l) (String c "") = existsb (Ascii.eqb c) l.
Proof.
  induction l as [|x l IH]; [reflexivity|].
  change (string_of_list_ascii (x :: l)) with (String x (string_of_list_ascii l)).
  rewrite includes_cons, IH. simpl. rewrite startsWith_nil. by destruct (Ascii.eqb c x).
Qed.

Lemma digit_char_not_dot (d : Z) : 0 <= d <= 9 -> Ascii.eqb "." (digit_char d) = false.
Proof.
  intros H.
  assert (E : d = 0 \/ d = 1 \/ d = 2 \/ d = 3 \/ d = 4 \/ d = 5 \/ d = 6 \/
              d = 7 \/ d = 8 \/ d = 9) by lia.
  decompose [or] E; subst; reflexivity.
Qed.

Lemma minute_string_no_dot (y m d h mi : Z) :
  valid_minute y m d h mi -> includes (minute_string y m d h mi) "." = false.
Proof.
  intros (Hy & Hm & Hd & Hh & Hmi). unfold minute_string.
  rewrite includes_one_char. unfold four_digits, two_digits. cbn [existsb app].
  rewrite !digit_char_not_dot by (Z.div_mod_to_equations; lia). reflexivity.
Qed.

Lemma chars_append (a b : string) :
  list_ascii_of_string (a +:+ b) = list_ascii_of_string a ++ list_ascii_of_string b.
Proof. induction a as [|c a IH]; simpl; [done | by rewrite IH]. Qed.

Lemma parse_start_of_minute (tza y m d h mi : Z) :
  valid_minute y m d h mi ->
  parse tza (minute_string y m d h mi +:+ ":00.000Z") = Some (utc y m d h mi 0 0).
Proof.
  intros H. unfold parse. rewrite chars_append.
  exact (parse_minute_suffix tza y m d h mi 0 0 0 0 0 H
           ltac:(lia) ltac:(lia) ltac:(lia) ltac:(lia) ltac:(lia)).
Qed.

Lemma parse_end_of_minute (tza y m d h mi : Z) :
  valid_minute y m d h mi ->
  parse tza (minute_string y m d h mi +:+ ":59.999Z") = Some (utc y m d h mi 59 999).
Proof.
  intros H. unfold parse. rewrite chars_append.
  exact (parse_minute_suffix tza y m d h mi 5 9 9 9 9 H
           ltac:(lia) ltac:(lia) ltac:(lia) ltac:(lia) ltac:(lia)).
Qed.

Lemma end_of_minute (y m d h mi : Z) :
  utc y m d h mi 59 999 = utc y m d h mi 0 0 + 59999.
Proof. unfold utc, make_time. lia. Qed.

Lemma bounds_of_minutes (tza y m d h mi y' m' d' h' mi' : Z) :
  valid_minute y m d h mi -> valid_minute y' m' d' h' mi' ->
  range_bounds (parse tza) (minute_string y m d h mi) (minute_string y' m' d' h' mi')
  = Return (utc y m d h mi 0 0, utc y' m' d' h' mi' 0 0 + 59999).
Proof.
  intros H H'. unfold range_bounds, start_bound, end_bound.
  rewrite !minute_string_no_dot by done.
  rewrite parse_start_of_minute, parse_end_of_minute by done.
  cbn. by rewrite end_of_minute.
Qed.

(** C10. A timestamp string without ['.'] gets [":00.000Z"] appended as
    the start and [":59.999Z"] as the end before it is parsed; so for a range
    of two minute strings the request to the store runs from second 0 of the
    start minute to 59.999 s of the end minute, and every instant of the end
    minute that is not before the start lies inside it. *)
Theorem range_is_widened_to_whole_minutes :
  (forall s, includes s "." = false ->
     start_bound s = s +:+ ":00.000Z" /\ end_bound s = s +:+ ":59.999Z") /\
  (forall Date_parse s e, includes s "." = false -> includes e "." = false ->
     range_bounds Date_parse s e =
       (lo ← toISOString (Date_parse (s +:+ ":00.000Z"));
        hi ← toISOString (Date_parse (e +:+ ":59.999Z"));
        mret (lo, hi))) /\
  (forall tza client y m d h mi y' m' d' h' mi',
     valid_minute y m d h mi -> valid_minute y' m' d' h' mi' ->
     fst (getBusinessesFromDateRange (parse tza) (Some client)
            (minute_string y m d h mi) (minute_string y' m' d' h' mi'))
     = [NetSelect (utc y m d h mi 0 0) (utc y' m' d' h' mi' 0 0 + 59999)] /\
     (forall t, utc y' m' d' h' mi' 0 0 <= t <= utc y' m' d' h' mi' 0 0 + 59999 ->
                utc y m d h mi 0 0 <= t ->
                within t (utc y m d h mi 0 0) (utc y' m' d' h' mi' 0 0 + 59999) = true)).
Proof.
  split; [|split].
  - intros s H. unfold start_bound, end_bound. by rewrite H.
  - intros Date_parse s e Hs He. unfold range_bounds, start_bound, end_bound.
    by rewrite Hs, He.
  - intros tza client y m d h mi y' m' d' h' mi' H H'. split.
    + unfold getBusinessesFromDateRange. cbn.
      by rewrite (bounds_of_minutes tza _ _ _ _ _ _ _ _ _ _ H H').
    + intros t Ht Hlo. unfold within. apply andb_true_iff.
      split; apply Z.leb_le; lia.
Qed.

End DateRange.

Lemma range_is_widened_to_whole_minutes_witness :
  fst (Supabase.getBusinessesFromDateRange (Date.parse 0) (Some Sample.working_store)
         (Date.minute_string 2024 1 1 10 0) (Date.minute_string 2024 1 1 10 5))
  = [NetSelect (Date.utc 2024 1 1 10 0 0 0) (Date.utc 2024 1 1 10 5 0 0 + 59999)].
Proof.
  apply (proj2 (proj2 range_is_widened_to_whole_minutes) 0 Sample.working_store
           2024 1 1 10 0 2024 1 1 10 5); unfold Date.valid_minute; lia.
Defined.

(** ** The coordinate pattern *)

Section CoordinatePattern.

Import Coords.

Lemma all_digits_nil : all_digits "".
Proof. constructor. Qed.

Lemma all_digits_cons (c : ascii) (s : string) :
  all_digits (String c s) <-> is_digit c = true /\ all_digits s.
Proof.
  unfold all_digits. simpl. split.
  - intros H. inversion H; subst. by split.
  - intros [H1 H2]. by constructor.
Qed.

Lemma all_digits_app (a b : string) :
  all_digits (a +:+ b) <-> all_digits a /\ all_digits b.
Proof.
  induction a as [|c a IH]; simpl.
  - split; [intros H; split; [apply all_digits_nil | done] | by intros [_ H]].
  - rewrite !all_digits_cons, IH. tauto.
Qed.




Lemma string_eqb_nil_false (c : ascii) (s : string) : String.eqb (String c s) "" = false.
Proof. reflexivity. Qed.
































End CoordinatePattern.

(** ** The coordinates of the extracted record *)

Section RecordCoordinates.

Import Hook Scripts Coords.

Variable parseFloat : string -> spec_float.






End RecordCoordinates.





(** ** The interaction patch *)

Section Patch.

Import Dom Patcher.

Lemma overwrite_empty (n : Node) : overwrite ∅ n = n.
Proof. destruct n. unfold overwrite. simpl. by rewrite (left_id_L ∅ (∪)). Qed.

Lemma overwrite_overwrite (a b : gmap string string) (n : Node) :
  overwrite a (overwrite b n) = overwrite (a ∪ b) n.
Proof. unfold overwrite. simpl. by rewrite (assoc_L (∪)). Qed.


Lemma style_set_overwrite (k v : string) (n : Node) :
  style_set k v n = overwrite {[ k := v ]} n.
Proof. unfold style_set, overwrite. by rewrite insert_union_singleton_l. Qed.

Lemma stage_overwrite (b : bool) (f : Node -> Node) (w : gmap string string) (n : Node) :
  (forall m, f m = overwrite w m) -> stage b f n = overwrite (when b w) n.
Proof.
  intros H. destruct b; simpl; [apply H | by rewrite overwrite_empty].
Qed.

Lemma fix_map_overwrite (n : Node) :
  fix_map n = overwrite ({[ "touch-action" := "manipulation" ]} ∪
                         {[ "pointer-events" := "auto" ]}) n.
Proof. unfold fix_map. by rewrite !style_set_overwrite, overwrite_overwrite. Qed.

Lemma fix_zoom_overwrite (n : Node) :
  fix_zoom n = overwrite ({[ "cursor" := "pointer" ]} ∪ {[ "pointer-events" := "auto" ]}) n.
Proof. unfold fix_zoom. by rewrite !style_set_overwrite, overwrite_overwrite. Qed.

Lemma fix_search_overwrite (n : Node) :
  fix_search n = overwrite ({[ "cursor" := "text" ]} ∪ {[ "pointer-events" := "auto" ]}) n.
Proof. unfold fix_search. by rewrite !style_set_overwrite, overwrite_overwrite. Qed.

Lemma fix_card_overwrite (n : Node) :
  fix_card n = overwrite ({[ "cursor" := "auto" ]} ∪ {[ "pointer-events" := "auto" ]}) n.
Proof. unfold fix_card. by rewrite !style_set_overwrite, overwrite_overwrite. Qed.

(** The script only writes constants: on each node it is one overwrite. *)
Lemma patched_overwrite (doc : list Node) (i : nat) (n : Node) :
  patched doc i n = overwrite (writes doc i) n.
Proof.
  unfold patched, writes.
  rewrite (stage_overwrite _ _ _ n (style_set_overwrite "cursor" "auto")).
  rewrite (stage_overwrite _ _ _ _ fix_map_overwrite), overwrite_overwrite.
  rewrite (stage_overwrite _ _ _ _ fix_zoom_overwrite), overwrite_overwrite.
  rewrite (stage_overwrite _ _ _ _ fix_search_overwrite), overwrite_overwrite.
  rewrite (stage_overwrite _ _ _ _ fix_card_overwrite), overwrite_overwrite.
  reflexivity.
Qed.

(** *** Documents *)

Lemma indices_from_ge (p : Node -> bool) (i j : nat) (d : list Node) :
  j ∈ indices_from p i d -> (i <= j)%nat.
Proof.
  revert i. induction d as [|n d IH]; intros i; simpl; [by intros ?%elem_of_nil|].
  destruct (p n).
  - intros [->|H]%elem_of_cons; [lia|]. apply IH in H. lia.
  - intros H. apply IH in H. lia.
Qed.

Lemma indices_from_NoDup (p : Node -> bool) (i : nat) (d : list Node) :
  NoDup (indices_from p i d).
Proof.
  revert i. induction d as [|n d IH]; intros i; simpl; [constructor|].
  destruct (p n); [|apply IH].
  constructor; [|apply IH]. intros H%indices_from_ge. lia.
Qed.

Lemma forEach_lookup (idxs : list nat) (f : Node -> Node) (d : list Node) (j : nat) :
  NoDup idxs ->
  forEach idxs f d !! j = stage (bool_decide (j ∈ idxs)) f <$> d !! j.
Proof.
  revert d. induction idxs as [|i idxs IH]; intros d Hnd.
  - change (forEach [] f d) with d.
    rewrite bool_decide_eq_false_2 by apply not_elem_of_nil.
    by destruct (d !! j).
  - apply NoDup_cons in Hnd as [Hi Hnd].
    change (forEach (i :: idxs) f d) with (forEach idxs f (alter f i d)).
    rewrite (IH _ Hnd). destruct (decide (j = i)) as [->|Hne].
    + rewrite list_lookup_alter_eq.
      rewrite (bool_decide_eq_false_2 _ Hi).
      rewrite bool_decide_eq_true_2 by apply list_elem_of_here.
      by destruct (d !! i).
    + rewrite list_lookup_alter_ne by done.
      destruct (decide (j ∈ idxs)) as [Hin|Hnin].
      * rewrite !bool_decide_eq_true_2; [done | by apply list_elem_of_further | done].
      * rewrite !bool_decide_eq_false_2; [done | | done].
        intros [?|?]%elem_of_cons; done.
Qed.

Lemma same_shape_refl (d : list Node) : same_shape d d.
Proof. apply Forall2_same_length_lookup_2; [done|]. intros i x y ? ?. by simplify_eq. Qed.

Lemma same_shape_alter (f : Node -> Node) (i : nat) (d' d : list Node) :
  keeps_shape f -> same_shape d' d -> same_shape (alter f i d') d.
Proof.
  intros Hf H. apply Forall2_alter_l; [done|].
  intros x y _ _ [Ht Ha]. destruct (Hf x) as [Ht' Ha']. split; congruence.
Qed.

Lemma same_shape_forEach (idxs : list nat) (f : Node -> Node) (d' d : list Node) :
  keeps_shape f -> same_shape d' d -> same_shape (forEach idxs f d') d.
Proof.
  intros Hf. revert d'. induction idxs as [|i idxs IH]; intros d' H; [done|].
  apply IH. by apply same_shape_alter.
Qed.

Lemma indices_from_shape (p : Node -> bool) (i : nat) (d' d : list Node) :
  shape_only p -> same_shape d' d -> indices_from p i d' = indices_from p i d.
Proof.
  intros Hp H. revert i. induction H as [|n' n d' d [Ht Ha] _ IH]; intros i; [done|].
  simpl. by rewrite (Hp n' n Ht Ha), (IH (S i)).
Qed.

Lemma style_set_keeps (k v : string) : keeps_shape (style_set k v).
Proof. by intros n. Qed.

Lemma fix_map_keeps : keeps_shape fix_map.
Proof. by intros n. Qed.

Lemma fix_zoom_keeps : keeps_shape fix_zoom.
Proof. by intros n. Qed.

Lemma fix_search_keeps : keeps_shape fix_search.
Proof. by intros n. Qed.


Lemma matches_shape_only (sel : Selector) : shape_only (matches sel).
Proof.
  intros n' n Ht Ha. unfold matches, is_element. rewrite Ht. f_equal.
  induction sel as [|c sel IH]; [done|]. simpl. rewrite IH. f_equal.
  induction c as [|s c IHc]; [done|]. simpl. rewrite IHc. f_equal.
  destruct s; simpl; unfold class_list; by rewrite ?Ht, ?Ha.
Qed.

Lemma by_id_shape_only (id : string) :
  shape_only (fun n => is_element n &&
    match attrs n !! "id" with Some a => String.eqb a id | None => false end).
Proof. intros n' n Ht Ha. unfold is_element. by rewrite Ht, Ha. Qed.


Lemma querySelectorAll_shape (sel : Selector) (d' d : list Node) :
  same_shape d' d -> querySelectorAll sel d' = querySelectorAll sel d.
Proof. apply indices_from_shape, matches_shape_only. Qed.

Lemma getElementById_shape (id : string) (d' d : list Node) :
  same_shape d' d -> getElementById id d' = getElementById id d.
Proof.
  intros H. unfold getElementById.
  by rewrite (indices_from_shape _ 0 d' d (by_id_shape_only id) H).
Qed.


Lemma querySelectorAll_forEach_lookup (sel : Selector) (f : Node -> Node)
  (d' d : list Node) (j : nat) :
  same_shape d' d ->
  forEach (querySelectorAll sel d') f d' !! j
  = stage (bool_decide (j ∈ querySelectorAll sel d)) f <$> d' !! j.
Proof.
  intros H. rewrite forEach_lookup by apply indices_from_NoDup.
  by rewrite (querySelectorAll_shape sel d' d H).
Qed.

Lemma alter_stage_lookup (f : Node -> Node) (i j : nat) (d : list Node) :
  alter f i d !! j = stage (bool_decide (i = j)) f <$> d !! j.
Proof.
  rewrite list_lookup_alter. case_decide as E.
  - subst. rewrite bool_decide_eq_true_2 by done. done.
  - rewrite bool_decide_eq_false_2 by done. by destruct (d !! j).
Qed.


Lemma bool_decide_Some (i j : nat) :
  bool_decide (Some i = Some j) = bool_decide (i = j).
Proof. apply bool_decide_ext. split; congruence. Qed.

(** Node by node, the script is [patched]. *)
Lemma interaction_script_lookup (doc : list Node) (b j : nat) :
  body doc = Some b ->
  fst (interaction_script doc) !! j = patched doc j <$> doc !! j.
Proof.
  intros Hb. unfold interaction_script. rewrite Hb. cbv zeta. unfold fst.
  set (doc1 := alter (style_set "cursor" "auto") b doc).
  assert (S1 : same_shape doc1 doc).
  { apply same_shape_alter; [apply style_set_keeps | apply same_shape_refl]. }
  set (doc2 := forEach (querySelectorAll map_widgets doc1) fix_map doc1).
  assert (S2 : same_shape doc2 doc).
  { apply same_shape_forEach; [apply fix_map_keeps | exact S1]. }
  set (doc3 := forEach (querySelectorAll zoom_controls doc2) fix_zoom doc2).
  assert (S3 : same_shape doc3 doc).
  { apply same_shape_forEach; [apply fix_zoom_keeps | exact S2]. }
  set (doc4 := match getElementById "searchboxinput" doc3 with
               | Some i => alter fix_search i doc3
               | None => doc3
               end).
  assert (L4 : doc4 !! j =
               stage (bool_decide (getElementById "searchboxinput" doc = Some j))
                     fix_search <$> doc3 !! j).
  { subst doc4. rewrite (getElementById_shape _ doc3 doc S3).
    destruct (getElementById "searchboxinput" doc) as [i|].
    - by rewrite alter_stage_lookup, bool_decide_Some.
    - rewrite bool_decide_eq_false_2 by done. by destruct (doc3 !! j). }
  assert (S4 : same_shape doc4 doc).
  { subst doc4. destruct (getElementById "searchboxinput" doc3); [|exact S3].
    apply same_shape_alter; [apply fix_search_keeps | exact S3]. }
  rewrite (querySelectorAll_forEach_lookup info_cards fix_card doc4 doc j S4), L4.
  subst doc3.
  rewrite (querySelectorAll_forEach_lookup zoom_controls fix_zoom doc2 doc j S2).
  subst doc2.
  rewrite (querySelectorAll_forEach_lookup map_widgets fix_map doc1 doc j S1).
  subst doc1. rewrite alter_stage_lookup, <- bool_decide_Some, <- Hb.
  unfold patched. by destruct (doc !! j).
Qed.





End Patch.



(* ===================================================================== *)
(** * Part III: further properties of the sources                         *)
(* ===================================================================== *)

(** ** The name taken from the title *)

Section Names.

Import Scripts.

Lemma string_length_append (a b : string) :
  String.length (a +:+ b) = (String.length a + String.length b)%nat.
Proof. induction a as [|c a IH]; simpl; [done | by rewrite IH]. Qed.

Lemma replace_unfold (s pat rep : string) :
  replace s pat rep =
    if startsWith s pat then rep +:+ string_drop (String.length pat) s
    else match s with
         | EmptyString => EmptyString
         | String c rest => String c (replace rest pat rep)
         end.
Proof. by destruct s. Qed.

Lemma startsWith_cons (a b : ascii) (s m : string) :
  startsWith (String b s) (String a m) = Ascii.eqb a b && startsWith s m.
Proof. reflexivity. Qed.

(** Without an occurrence of the pattern the string is returned as it is. *)
Lemma replace_absent (t pat rep : string) :
  includes t pat = false -> replace t pat rep = t.
Proof.
  induction t as [|c t IH]; intros H; rewrite replace_unfold.
  - rewrite includes_nil in H. by rewrite H.
  - rewrite includes_cons in H. apply orb_false_iff in H as [H1 H2].
    by rewrite H1, (IH H2).
Qed.

(** The suffix does not overlap itself: it cannot start inside a
    non-empty stretch before it unless that stretch starts with it. *)
Lemma suffix_no_overlap (n : string) :
  n <> "" ->
  startsWith (n +:+ title_suffix) title_suffix = true ->
  startsWith n title_suffix = true.
Proof.
  intros Hne H. unfold title_suffix in *.
  do 14 (destruct n as [|c n];
         [ first [ done | vm_compute in H; discriminate ]
         | rewrite append_cons, startsWith_cons in H;
           apply andb_true_iff in H as [Hc H];
           apply Ascii.eqb_eq in Hc; subst c ]).
  apply startsWith_spec. by exists n.
Qed.

(** X1.  The name of a business comes back from its page title: for a
    name that does not itself contain [" - Google Maps"], the title made of
    the name and that suffix is classified as a business title, and removing
    the suffix as the extraction script does gives the name again, whatever
    else the name contains. *)
Theorem business_title_gives_back_name (n : string) :
  includes n title_suffix = false ->
  isBusinessTitle (n +:+ title_suffix) = true /\
  replace (n +:+ title_suffix) title_suffix "" = n.
Proof.
  intros Hn. split.
  - unfold isBusinessTitle. apply andb_true_iff. split.
    + apply includes_spec. exists n, "". by rewrite append_nil_r.
    + apply negb_true_iff, string_eqb_false. intros E.
      apply (f_equal String.length) in E. rewrite string_length_append in E.
      simpl in E. lia.
  - induction n as [|c n IH]; [reflexivity|].
    rewrite includes_cons in Hn. apply orb_false_iff in Hn as [H1 H2].
    rewrite append_cons, replace_unfold.
    destruct (startsWith (String c (n +:+ title_suffix)) title_suffix) eqn:E.
    + rewrite <- append_cons in E. apply suffix_no_overlap in E; [congruence | done].
    + by rewrite (IH H2).
Qed.

Lemma business_title_gives_back_name_witness :
  isBusinessTitle "Joe's Pizza - Google Maps" = true /\
  replace "Joe's Pizza - Google Maps" title_suffix "" = "Joe's Pizza".
Proof. exact (business_title_gives_back_name "Joe's Pizza" eq_refl). Defined.

End Names.

(** ** The record of a page that can be read *)

Section PageRecord.

Import Dom Scripts Hook Reading Coords.

Variable parseFloat : string -> spec_float.

Lemma href_cases (doc : list Node) (i : nat) :
  href doc i = JUndefined \/ exists s, href doc i = JStr s.
Proof.
  unfold href. destruct (doc !! i) as [n|]; [|by left].
  destruct (String.eqb (tag n) "a"); eauto.
Qed.

Lemma labelled_text_value (p : Page) (marker : Selector) :
  labelled_text (page_api p) marker = Return (JStr (page_label p marker)).
Proof.
  unfold labelled_text, page_label. cbn.
  destruct (querySelector marker (nodes p)) as [el|]; cbn; [|done].
  destruct (querySelectorIn el label_text (nodes p)) as [t|]; cbn; [|done].
  unfold or_empty, truthy.
  destruct (String.eqb_spec (textContent (nodes p) t) "") as [->|]; done.
Qed.

(** [el && el.href] on a page, and the value then returned. *)
Lemma href_guard (p : Page) (i : nat) :
  truthy (href (nodes p) i) = negb (String.eqb (href_text p i) "") /\
  (truthy (href (nodes p) i) = true -> href (nodes p) i = JStr (href_text p i)).
Proof.
  unfold href_text. by destruct (href_cases (nodes p) i) as [-> | [s ->]].
Qed.

Lemma fallback_value (p : Page) (l : option nat) :
  (match l return Completion bool with
   | Some i => Return (truthy (href (nodes p) i))
   | None => Return false
   end ≫= fun g2 =>
   match l, g2 with
   | Some i, true => Return (href (nodes p) i)
   | _, _ => Return (JStr "")
   end) = Return (JStr (match l with Some i => href_text p i | None => "" end)).
Proof.
  destruct l as [i|]; cbn; [|done].
  destruct (href_guard p i) as [Hg Hv].
  destruct (truthy (href (nodes p) i)) eqn:E.
  - by rewrite Hv.
  - symmetry in Hg. apply negb_false_iff, String.eqb_eq in Hg. by rewrite Hg.
Qed.

Lemma website_field_value (p : Page) :
  website_field (page_api p) = Return (JStr (page_website p)).
Proof.
  assert (Hfb :
    (l1 ← Return (querySelector jslog_link (nodes p));
     websiteLink ← match l1 with
                   | Some _ => mret l1
                   | None => Return (querySelector tooltip_link (nodes p))
                   end;
     g2 ← and_href (page_api p) websiteLink;
     match websiteLink, g2 with
     | Some l, true => element_href (page_api p) l
     | _, _ => mret (JStr "")
     end) = Return (JStr (fallback_website p))).
  { unfold fallback_website, fallback_link. cbn.
    destruct (querySelector jslog_link (nodes p)) as [l|]; cbn.
    - apply (fallback_value p (Some l)).
    - apply (fallback_value p (querySelector tooltip_link (nodes p))). }
  unfold website_field, page_website.
  change (document_querySelector (page_api p) authority_marker)
    with (@Return (option nat) (querySelector authority_marker (nodes p))).
  cbn [mbind completion_bind JS.bind].
  destruct (querySelector authority_marker (nodes p)) as [el|];
    cbn [and_href mbind completion_bind JS.bind element_href page_api mret completion_ret].
  - destruct (href_guard p el) as [Hg Hv].
    destruct (truthy (href (nodes p) el)) eqn:E; cbn [mbind completion_bind JS.bind].
    + rewrite (Hv eq_refl). symmetry in Hg. apply negb_true_iff in Hg. by rewrite Hg.
    + symmetry in Hg. apply negb_false_iff in Hg. rewrite Hg. exact Hfb.
  - exact Hfb.
Qed.

Lemma extraction_body_value (p : Page) :
  extraction_body parseFloat (page_api p) =
    Return (JObj (<["name" := JStr (replace (title p) title_suffix "")]>
                 (<["phone" := JStr (page_label p phone_marker)]>
                 (<["address" := JStr (page_label p address_marker)]>
                 (<["website" := JStr (page_website p)]>
                 {[ "coordinates" := coordinates_field parseFloat (url p) ]}))))).
Proof.
  unfold extraction_body.
  change (document_title (page_api p)) with (@Return string (title p)).
  change (location_href (page_api p)) with (@Return string (url p)).
  cbn [mbind completion_bind JS.bind]. rewrite (labelled_text_value p phone_marker).
  cbn [mbind completion_bind JS.bind]. rewrite (labelled_text_value p address_marker).
  cbn [mbind completion_bind JS.bind]. rewrite (website_field_value p).
  reflexivity.
Qed.

Lemma extracted_value (p : Page) :
  extracted parseFloat p = Some {|
    name := replace (title p) title_suffix "";
    address := Some (page_label p address_marker);
    phone := Some (page_label p phone_marker);
    website := Some (page_website p);
    description := None;
    hours := None;
    coordinates := match coordsMatch (url p) with
                   | Some (g1, g2) => coordinates_of parseFloat g1 g2
                   | None => None
                   end;
    screenshot := None; imageUrl := None; research := None; apollo := None;
    googlePlaceId := None |}.
Proof.
  unfold extracted. rewrite (extraction_script_success _ _ _ (extraction_body_value p)).
  unfold emitted, executeJavaScript.
  match goal with |- context [hasError (JObj ?o)] =>
    destruct (full_record_guards o) as [-> ->]; [unfold full_record; eauto 10|]
  end.
  f_equal. unfold as_BusinessInfo. f_equal; try reflexivity.
  unfold coordinates_field.
  match goal with |- as_coordinates (prop ?o "coordinates") = _ =>
    replace (prop o "coordinates") with (coordinates_field parseFloat (url p))
      by reflexivity
  end.
  unfold coordinates_field. destruct (coordsMatch (url p)) as [[g1 g2]|]; reflexivity.
Qed.

(** X2.  A page whose document can be read always yields a record, and
    the record is a function of the page alone: the name is the title
    without the first [" - Google Maps"]; phone, address and website are
    strings, empty when the page does not show them, never null; the
    coordinates are those of the URL; description, hours, screenshot, image,
    research, apollo and place id are absent. *)
Theorem readable_page_gives_record (p : Page) :
  exists b, extracted parseFloat p = Some b /\
    name b = replace (title p) title_suffix "" /\
    phone b = Some (page_label p phone_marker) /\
    address b = Some (page_label p address_marker) /\
    website b = Some (page_website p) /\
    coordinates b = match coordsMatch (url p) with
                    | Some (g1, g2) => coordinates_of parseFloat g1 g2
                    | None => None
                    end /\
    description b = None /\ hours b = None /\ screenshot b = None /\
    imageUrl b = None /\ research b = None /\ apollo b = None /\
    googlePlaceId b = None.
Proof. eexists. split; [apply extracted_value|]. repeat split. Qed.

(** X3.  Which link becomes the website: the first element marked
    [data-item-id="authority"] when its [href] is not empty; otherwise the
    first [a[jslog*="3443"]], whatever its [href], the "Open website" link
    being looked at only when there is no such anchor; and the empty string
    when there is none of them. *)
Theorem website_priority (p : Page) :
  exists b, extracted parseFloat p = Some b /\
    (forall el h, querySelector authority_marker (nodes p) = Some el ->
       href (nodes p) el = JStr h -> h <> "" -> website b = Some h) /\
    (no_site_link p ->
       (forall l, querySelector jslog_link (nodes p) = Some l ->
          website b = Some (href_text p l)) /\
       (querySelector jslog_link (nodes p) = None ->
          forall l, querySelector tooltip_link (nodes p) = Some l ->
            website b = Some (href_text p l)) /\
       (querySelector jslog_link (nodes p) = None ->
          querySelector tooltip_link (nodes p) = None -> website b = Some "")).
Proof.
  eexists. split; [apply extracted_value|]. cbn [website]. split.
  - intros el h Hel Hh Hne. unfold page_website, href_text. rewrite Hel, Hh.
    apply String.eqb_neq in Hne. by rewrite Hne.
  - intros Hno.
    assert (E : page_website p = fallback_website p).
    { unfold page_website.
      destruct (querySelector authority_marker (nodes p)) as [el|] eqn:Hel; [|done].
      by rewrite (Hno el Hel). }
    rewrite E. unfold fallback_website, fallback_link. split; [|split].
    + intros l ->. done.
    + intros -> l ->. done.
    + intros -> ->. done.
Qed.

End PageRecord.

Lemma website_priority_witness :
  exists b, Hook.extracted Sample.parseFloat Cases.icon_link_page = Some b /\
            website b = Some "".
Proof.
  destruct (website_priority Sample.parseFloat Cases.icon_link_page) as (b & Hb & _ & Hfall).
  exists b. split; [exact Hb|].
  assert (Hno : Reading.no_site_link Cases.icon_link_page) by (intros el H; discriminate H).
  destruct (Hfall Hno) as (Hjs & _ & _).
  exact (Hjs 2%nat eq_refl).
Defined.

(** ** Classification when the page cannot be read *)

Section ClassifierFailure.

Import Dom Scripts Hook.

(** X4.  One run of the classifier on a mounted webview: a positive
    result needs the title read and both marker queries to have answered,
    so a read that throws classifies the page as not a business; a negative
    result clears the current business; a positive one leaves it as it
    was. *)
Theorem classification_is_fail_safe (api : DomApi) (st : HookState) :
  webviewRef st = true ->
  (isBusinessPage (checkIfBusinessPage api st) = true ->
     exists t a d,
       document_title api = Return t /\
       document_querySelector api address_marker = Return a /\
       document_querySelector api description_marker = Return d /\
       isBusinessTitle t = true /\ (is_Some a \/ is_Some d)) /\
  (isBusinessPage (checkIfBusinessPage api st) = true ->
     currentBusiness (checkIfBusinessPage api st) = currentBusiness st) /\
  (isBusinessPage (checkIfBusinessPage api st) = false ->
     currentBusiness (checkIfBusinessPage api st) = None).
Proof.
  intros Href. unfold checkIfBusinessPage. rewrite Href.
  destruct (document_title api) as [t|e] eqn:Ht.
  2: { unfold classification_script. rewrite Ht. by cbn. }
  destruct (document_querySelector api address_marker) as [a|e] eqn:Ha.
  2: { unfold classification_script. rewrite Ht. cbn. rewrite Ha. by cbn. }
  destruct (document_querySelector api description_marker) as [d|e] eqn:Hd.
  2: { unfold classification_script. rewrite Ht. cbn. rewrite Ha. cbn. rewrite Hd.
       by cbn. }
  rewrite (classification_script_value api t a d Ht Ha Hd).
  cbn [executeJavaScript classification_settled].
  set (b := isBusinessTitle t && (bool_decide (is_Some a) || bool_decide (is_Some d))).
  assert (Hflag := classification_then_flag b st). rewrite Hflag.
  split; [|split].
  - intros Hb. exists t, a, d. repeat split; try done.
    + subst b. by apply andb_true_iff in Hb as [? _].
    + subst b. apply andb_true_iff in Hb as [_ Hb]. apply orb_true_iff in Hb.
      rewrite !bool_decide_eq_true in Hb. exact Hb.
  - intros ->. reflexivity.
  - intros ->. reflexivity.
Qed.

Lemma classification_is_fail_safe_witness :
  isBusinessPage (checkIfBusinessPage Cases.unqueryable_api (Cases.showing Sample.joe)) = false /\
  currentBusiness (checkIfBusinessPage Cases.unqueryable_api (Cases.showing Sample.joe)) = None.
Proof.
  destruct (classification_is_fail_safe Cases.unqueryable_api (Cases.showing Sample.joe) eq_refl)
    as (_ & _ & H).
  split; [reflexivity | exact (H eq_refl)].
Defined.

End ClassifierFailure.

(** ** The poll timer and the listener table over every run *)

Section LifecycleProperties.

Import Hook Monitor Lifecycle.

Lemma addEventListener_new (type : string) (l : Closure) (rt0 : Runtime) :
  (type, l) ∉ listeners rt0 ->
  listeners (addEventListener type l rt0) = listeners rt0 ++ [(type, l)].
Proof. intros H. unfold addEventListener. simpl. by rewrite bool_decide_eq_false_2. Qed.

Lemma not_in_allocated (L : list (string * Closure)) (n : nat) (type : string)
  (l : Closure) :
  Forall (fun e => (ident (snd e) < n)%nat) L -> (n <= ident l)%nat -> (type, l) ∉ L.
Proof.
  intros HL Hn Hin. rewrite Forall_forall in HL. specialize (HL _ Hin). simpl in HL. lia.
Qed.

Lemma filter_allocated (L : list (string * Closure)) (n : nat) (type : string)
  (l : Closure) :
  Forall (fun e => (ident (snd e) < n)%nat) L -> (n <= ident l)%nat ->
  List.filter (fun e => negb (bool_decide (e = (type, l)))) L = L.
Proof.
  intros HL Hn. induction HL as [|e L He HL IH]; simpl; [done|].
  rewrite bool_decide_eq_false_2; [simpl; by rewrite IH|].
  intros ->. simpl in He. lia.
Qed.

Lemma addEventListener_snoc (type : string) (l : Closure) (rt0 : Runtime)
  (L : list (string * Closure)) :
  listeners rt0 = L -> (type, l) ∉ L ->
  listeners (addEventListener type l rt0) = L ++ [(type, l)].
Proof. intros <-. apply addEventListener_new. Qed.

Ltac not_listed Hf :=
  rewrite ?not_elem_of_app, ?not_elem_of_cons; repeat split;
  first [ apply not_elem_of_nil
        | eapply not_in_allocated; [exact Hf | simpl; lia]
        | intros [=]; lia
        | discriminate ].

Lemma snoc5 {A} (L : list A) (a b c d e : A) :
  L ++ [a; b; c; d; e] = ((((L ++ [a]) ++ [b]) ++ [c]) ++ [d]) ++ [e].
Proof. by rewrite <- !app_assoc. Qed.

Lemma mount_runtime_listeners (rt0 : Runtime) :
  clean rt0 ->
  listeners (fst (mount_runtime rt0)) =
    listeners rt0 ++
    [ start_loading_listener rt0;
      ("did-finish-load", {| code := HandleLoad; ident := (2 + next_ident rt0)%nat |});
      ("did-navigate",
        {| code := HandleNavigationComplete; ident := (4 + next_ident rt0)%nat |});
      ("did-navigate-in-page",
        {| code := HandleNavigationComplete; ident := (4 + next_ident rt0)%nat |});
      ("dom-ready",
        {| code := ApplyWebviewInteractionFixes; ident := next_ident rt0 |}) ].
Proof.
  intros (_ & _ & Hf). unfold allocated_before in Hf.
  unfold mount_runtime. cbn [alloc].
  rewrite mount_effect_unfold. cbn [fst]. rewrite listeners_setInterval.
  unfold subscribed, start_loading_listener. rewrite snoc5.
  repeat (apply addEventListener_snoc; [|not_listed Hf]).
  reflexivity.
Qed.

Lemma filter_keep (x e : string * Closure) (l : list (string * Closure)) :
  e <> x ->
  List.filter (fun e' => negb (bool_decide (e' = x))) (e :: l)
    = e :: List.filter (fun e' => negb (bool_decide (e' = x))) l.
Proof. intros H. simpl. by rewrite bool_decide_eq_false_2. Qed.

Lemma filter_drop (x : string * Closure) (l : list (string * Closure)) :
  List.filter (fun e' => negb (bool_decide (e' = x))) (x :: l)
    = List.filter (fun e' => negb (bool_decide (e' = x))) l.
Proof. simpl. by rewrite bool_decide_eq_true_2. Qed.

Lemma listeners_removeEventListener (type : string) (l : Closure) (rt0 : Runtime) :
  listeners (removeEventListener type l rt0)
    = List.filter (fun e => negb (bool_decide (e = (type, l)))) (listeners rt0).
Proof. reflexivity. Qed.

Ltac filter_listed Hf :=
  rewrite List.filter_app, (filter_allocated _ _ _ _ Hf) by (simpl; lia);
  repeat first [ rewrite filter_drop
               | rewrite filter_keep by first [discriminate | intros [=]; lia] ];
  cbn [List.filter].

(** The runtime after the cleanup of that mount. *)
Lemma mount_cleanup_runtime (rt0 : Runtime) :
  clean rt0 ->
  listeners (cleanup_effect (snd (mount_runtime rt0)) (fst (mount_runtime rt0)))
    = listeners rt0 ++ [start_loading_listener rt0] /\
  intervals (cleanup_effect (snd (mount_runtime rt0)) (fst (mount_runtime rt0))) = [] /\
  next_ident (cleanup_effect (snd (mount_runtime rt0)) (fst (mount_runtime rt0)))
    = (7 + next_ident rt0)%nat.
Proof.
  intros Hc. pose proof (mount_runtime_listeners rt0 Hc) as HL.
  destruct Hc as (Hi & _ & Hf). unfold allocated_before in Hf.
  rewrite cleanup_effect_unfold. split; [|split].
  - rewrite listeners_clearInterval, !listeners_removeEventListener.
    change (listeners (allocated 1 (mount_runtime rt0).1))
      with (listeners (mount_runtime rt0).1).
    rewrite HL. unfold start_loading_listener.
    change (next_ident (mount_runtime rt0).1) with (6 + next_ident rt0)%nat.
    change (c_handleLoad (mount_runtime rt0).2)
      with {| code := HandleLoad; ident := (2 + next_ident rt0)%nat |}.
    change (c_handleNavigationComplete (mount_runtime rt0).2)
      with {| code := HandleNavigationComplete; ident := (4 + next_ident rt0)%nat |}.
    change (c_applyWebviewInteractionFixes (mount_runtime rt0).2)
      with {| code := ApplyWebviewInteractionFixes; ident := next_ident rt0 |}.
    do 5 filter_listed Hf. reflexivity.
  - unfold clearInterval. cbn [intervals removeEventListener allocated].
    change (intervals (mount_runtime rt0).1)
      with (intervals rt0 ++ [(next_timer rt0,
              {| code := CheckIfBusinessPage; ident := S (next_ident rt0) |})]).
    change (c_intervalId (mount_runtime rt0).2) with (next_timer rt0).
    rewrite Hi. simpl. by rewrite Nat.eqb_refl.
  - reflexivity.
Qed.

(** *** What the other events leave alone *)

Lemma issue_frame (c : Call) (w : World) :
  rt (issue c w) = rt w /\ cleanup (issue c w) = cleanup w /\
  hook (issue c w) = hook w.
Proof. unfold issue. by destruct (webviewRef (hook w)). Qed.

Lemma run_frame (c : Code) (w : World) :
  rt (run c w) = rt w /\ cleanup (run c w) = cleanup w /\
  webviewRef (hook (run c w)) = webviewRef (hook w).
Proof.
  destruct c; simpl;
    repeat match goal with
           | |- context [issue ?c ?w'] =>
               destruct (issue_frame c w') as (-> & -> & ->)
           end; done.
Qed.

Lemma fold_run_frame {A} (sel : A -> bool) (cd : A -> Code) (l : list A) (w : World) :
  let w' := foldl (fun w' x => if sel x then run (cd x) w' else w') w l in
  rt w' = rt w /\ cleanup w' = cleanup w /\ webviewRef (hook w') = webviewRef (hook w).
Proof.
  revert w. induction l as [|x l IH]; intros w; simpl; [done|].
  destruct (sel x); [|apply IH].
  destruct (IH (run (cd x) w)) as (-> & -> & ->). apply run_frame.
Qed.

Lemma settle_call_webviewRef (c : Call) (r : Settled JSValue) (st : HookState) :
  webviewRef (settle_call c r st) = webviewRef st.
Proof.
  destruct c, r as [v|e]; simpl; try done.
  - destruct v; simpl; try done. by destruct (truthy _).
  - unfold extraction_then. destruct (hasError v); [done|].
    destruct (isBusinessInfo v); [|done]. by destruct v.
Qed.

Lemma inner_frame (e : Event) (w : World) :
  inner e ->
  rt (step e w) = rt w /\ cleanup (step e w) = cleanup w /\
  webviewRef (hook (step e w)) = webviewRef (hook w).
Proof.
  intros He. destruct e; simpl in *; try done.
  - apply (fold_run_frame (fun l => String.eqb (fst l) type) (fun l => code (snd l))).
  - apply (fold_run_frame (fun t => Nat.eqb (fst t) id) (fun t => code (snd t))).
  - by destruct (webviewRef (hook w)) eqn:E.
  - destruct (delayed w) as [|d]; [done|].
    match goal with |- context [issue ?c ?w'] =>
      destruct (issue_frame c w') as (-> & -> & ->) end. done.
  - destruct (in_flight w !! k); [|done]. simpl.
    by rewrite settle_call_webviewRef.
Qed.


(** *** Mount and unmount *)

Lemma step_Mount (w : World) :
  cleanup w = None ->
  step Mount w =
    {| hook := set_webviewRef true (hook w);
       rt := fst (mount_runtime (rt w));
       cleanup := Some (snd (mount_runtime (rt w)));
       in_flight := in_flight w; delayed := delayed w |}.
Proof. intros H. simpl. by rewrite H. Qed.


Lemma clean_after_cycle (rt0 : Runtime) :
  clean rt0 ->
  clean (cleanup_effect (snd (mount_runtime rt0)) (fst (mount_runtime rt0))).
Proof.
  intros Hc. destruct (mount_cleanup_runtime rt0 Hc) as (HL & Hi & Hn).
  destruct Hc as (_ & Hs & Hf). split; [exact Hi|]. rewrite HL. split.
  - apply Forall_app. split; [exact Hs|]. by repeat constructor.
  - apply Forall_app. split.
    + eapply Forall_impl; [exact Hf|]. intros e He.
      unfold allocated_before in *. rewrite Hn. lia.
    + constructor; [|constructor]. unfold allocated_before. rewrite Hn. simpl. lia.
Qed.

Lemma invariant_initial : lifecycle_invariant initial_world.
Proof. by repeat split. Qed.

Lemma invariant_step (e : Event) (w : World) :
  lifecycle_invariant w -> lifecycle_invariant (step e w).
Proof.
  intros Hw. unfold lifecycle_invariant in *.
  destruct e;
    try (match goal with |- context [step ?e w] =>
           destruct (inner_frame e w I) as (-> & -> & ->) end; exact Hw).
  - destruct (cleanup w) as [c|] eqn:Hc.
    + simpl. by rewrite Hc, Hc.
    + rewrite (step_Mount w Hc). cbn [cleanup hook rt set_webviewRef webviewRef].
      split; [done|]. exists (rt w). split; [apply Hw|]. by destruct (mount_runtime (rt w)).
  - destruct (cleanup w) as [c|] eqn:Hc.
    + simpl. rewrite Hc. cbn [cleanup hook rt set_webviewRef webviewRef].
      split; [done|]. destruct Hw as (_ & rt0 & Hclean & Hm).
      replace c with (snd (mount_runtime rt0)) by by rewrite Hm.
      replace (rt w) with (fst (mount_runtime rt0)) by by rewrite Hm.
      by apply clean_after_cycle.
    + simpl. by rewrite Hc, Hc.
Qed.

Lemma invariant_steps (es : list Event) (w : World) :
  lifecycle_invariant w -> lifecycle_invariant (steps es w).
Proof.
  revert w. induction es as [|e es IH]; intros w Hw; [exact Hw|].
  apply (IH (step e w)), invariant_step, Hw.
Qed.


Lemma mounted_intervals (rt0 : Runtime) :
  clean rt0 ->
  intervals (fst (mount_runtime rt0)) =
    [(c_intervalId (snd (mount_runtime rt0)),
      {| code := CheckIfBusinessPage; ident := S (next_ident rt0) |})].
Proof.
  intros (Hi & _).
  change (intervals (mount_runtime rt0).1)
    with (intervals rt0 ++ [(next_timer rt0,
            {| code := CheckIfBusinessPage; ident := S (next_ident rt0) |})]).
  by rewrite Hi.
Qed.

(** X5.  In every state the hook reaches, the ref is set exactly while
    the effect's cleanup is pending; while it is, there is exactly one
    interval timer, the poll, and a tick of it issues one classification and
    nothing else; once the cleanup has run there is no timer left, and a tick
    changes nothing. *)
Theorem poll_runs_only_while_mounted (es : list Event) :
  let w := steps es initial_world in
  (webviewRef (hook w) = true <-> is_Some (cleanup w)) /\
  (cleanup w = None ->
     intervals (rt w) = [] /\ forall id, step (Tick id) w = w) /\
  (forall c, cleanup w = Some c ->
     (exists cb, code cb = CheckIfBusinessPage /\
                 intervals (rt w) = [(c_intervalId c, cb)]) /\
     in_flight (step (Tick (c_intervalId c)) w) = in_flight w ++ [Classification] /\
     hook (step (Tick (c_intervalId c)) w) = hook w).
Proof.
  intros w. pose proof (invariant_steps es initial_world invariant_initial) as Hinv.
  fold w in Hinv. unfold lifecycle_invariant in Hinv.
  destruct (cleanup w) as [c|] eqn:Hc.
  - destruct Hinv as (Href & rt0 & Hclean & Hm).
    pose proof (mounted_intervals rt0 Hclean) as Hi. rewrite Hm in Hi. simpl in Hi.
    split; [by split; eauto|]. split; [done|].
    intros c' [= <-]. split.
    { rewrite Hi. eexists. split; [|reflexivity]. reflexivity. }
    simpl. rewrite Hi. simpl. rewrite Nat.eqb_refl. unfold issue. by rewrite Href.
  - destruct Hinv as (Href & Hi & _).
    split; [split; [congruence | by intros [? ?]]|]. split; [|done].
    intros _. split; [exact Hi|]. intros id. simpl. by rewrite Hi.
Qed.



End LifecycleProperties.

(** ** The effects of one export *)

Section ExportEffects.

Import App Supabase Trace.

Variable Date_parse : string -> option Z.

(** The shapes of what follows a settled query. *)
Lemma export_outcome_cases (startS endS : string)
  (exportArchiveByDate : list BusinessInfo -> ExportResult) (result : FetchResult) :
  let out := export_outcome startS endS exportArchiveByDate result in
  (exists m, out = [Alert m] /\
     forall rows, success result = true -> data result = Some rows -> rows = []) \/
  (exists rows, success result = true /\ data result = Some rows /\ rows <> [] /\
     ((out = [SaveDialog rows] /\
       export_success (exportArchiveByDate rows) = false /\
       export_error (exportArchiveByDate rows) = Some cancel_message) \/
      (exists m, out = [SaveDialog rows; Alert m] /\
         ~ (export_success (exportArchiveByDate rows) = false /\
            export_error (exportArchiveByDate rows) = Some cancel_message)))).
Proof.
  intros out. subst out. unfold export_outcome.
  destruct (success result) eqn:Hs; [|left; eexists; split; [reflexivity|done]].
  destruct (data result) as [rows|] eqn:Hd; [|left; eexists; split; [reflexivity|done]].
  destruct rows as [|r rows]; simpl.
  { left. eexists. split; [reflexivity|]. by intros ? _ [= <-]. }
  right. exists (r :: rows). repeat split; try done.
  set (x := exportArchiveByDate (r :: rows)).
  destruct (export_success x) eqn:Hx; simpl.
  - right. destruct (match export_filePath x with Some p => negb (String.eqb p "") | None => false end);
      eexists; (split; [reflexivity | by intros [? _]]).
  - case_bool_decide as He.
    + left. by repeat split.
    + right. eexists. split; [reflexivity|]. by intros [_ ?].
Qed.


(** The handler once the validation has let the request through. *)
Lemma export_after_validation (supabase : option Client)
  (exportArchiveByDate : list BusinessInfo -> ExportResult) (startS endS : string) :
  startS <> "" -> endS <> "" ->
  date_gt (Date_parse startS) (Date_parse endS) = false ->
  handleExportArchiveByTimestampRange Date_parse supabase exportArchiveByDate startS endS =
    (let '(io, settled) := getBusinessesFromDateRange Date_parse supabase startS endS in
     io ++ match settled with
           | Resolved result => export_outcome startS endS exportArchiveByDate result
           | Rejected _ => []
           end).
Proof.
  intros Hs He Hgt. unfold handleExportArchiveByTimestampRange.
  apply String.eqb_neq in Hs, He. by rewrite Hs, He, Hgt.
Qed.

(** The query, by what the client and the two bounds are. *)
Lemma query_cases (supabase : option Client) (startS endS : string) :
  (supabase = None /\ exists e,
     getBusinessesFromDateRange Date_parse supabase startS endS = ([], Rejected e)) \/
  (exists client e, supabase = Some client /\
     range_bounds Date_parse startS endS = Throw e /\
     getBusinessesFromDateRange Date_parse supabase startS endS =
       ([], Resolved {| success := false; data := None; error := Some e |})) \/
  (exists client lo hi result, supabase = Some client /\
     range_bounds Date_parse startS endS = Return (lo, hi) /\
     getBusinessesFromDateRange Date_parse supabase startS endS =
       ([NetSelect lo hi], Resolved result) /\
     forall rows, success result = true -> data result = Some rows ->
       rows = map row_to_business (default [] (resp_data (select_range client lo hi)))).
Proof.
  unfold getBusinessesFromDateRange.
  destruct supabase as [client|]; simpl; [|left; eauto].
  right. destruct (range_bounds Date_parse startS endS) as [[lo hi]|e] eqn:Hb.
  - right. exists client, lo, hi. eexists. repeat split; try reflexivity.
    intros rows. destruct (resp_error (select_range client lo hi)); simpl.
    + destruct (resp_status (select_range client lo hi) =? 406); simpl; [|done].
      by intros _ [= <-].
    + by intros _ [= <-].
  - left. by exists client, e.
Qed.

Ltac bounded :=
  split; [unfold network_calls; simpl; lia | split; [unfold alerts; simpl; lia | split]].

(** X7.  Whatever the inputs, the store and the main process answer, one
    export makes at most one request to the store, never a write, shows at
    most one alert, and opens the save dialog only after its request, with
    the rows the store returned for the two bounds, which are then not
    empty. *)
Theorem export_effects_are_bounded (supabase : option Client)
  (exportArchiveByDate : list BusinessInfo -> ExportResult) (startS endS : string) :
  let trace :=
    handleExportArchiveByTimestampRange Date_parse supabase exportArchiveByDate
      startS endS in
  (network_calls trace <= 1)%nat /\
  (alerts trace <= 1)%nat /\
  (forall b, ~ In (NetUpsert b) trace) /\
  (forall rows, In (SaveDialog rows) trace ->
     rows <> [] /\
     exists client lo hi rest,
       supabase = Some client /\
       range_bounds Date_parse startS endS = Return (lo, hi) /\
       rows = map row_to_business (default [] (resp_data (select_range client lo hi))) /\
       trace = NetSelect lo hi :: SaveDialog rows :: rest).
Proof.
  intros trace.
  destruct (String.eqb_spec startS "") as [->|Hs].
  { subst trace. unfold handleExportArchiveByTimestampRange. simpl.
    bounded; intros ? [[=]|[]]. }
  destruct (String.eqb_spec endS "") as [->|He].
  { subst trace. unfold handleExportArchiveByTimestampRange.
    rewrite orb_true_r. bounded; intros ? [[=]|[]]. }
  destruct (date_gt (Date_parse startS) (Date_parse endS)) eqn:Hgt.
  { subst trace. unfold handleExportArchiveByTimestampRange.
    apply String.eqb_neq in Hs, He. rewrite Hs, He, Hgt.
    bounded; intros ? [[=]|[]]. }
  subst trace. rewrite (export_after_validation _ _ _ _ Hs He Hgt).
  destruct (query_cases supabase startS endS)
    as [(-> & e & ->) | [(client & e & -> & Hb & ->)
                        | (client & lo & hi & result & -> & Hb & -> & Hrows)]].
  - bounded; intros ? [].
  - bounded; intros ? [[=]|[]].
  - destruct (export_outcome_cases startS endS exportArchiveByDate result)
      as [(m & -> & _) | (rows & Hsucc & Hdata & Hne & [(-> & _) | (m & -> & _)])].
    + bounded; intros ? [[=]|[[=]|[]]].
    + bounded.
      * intros ? [[=]|[[=]|[]]].
      * intros ? [[=]|[[= <-]|[]]]. split; [done|].
        exists client, lo, hi, []. repeat split; try done. by apply Hrows.
    + bounded.
      * intros ? [[=]|[[=]|[[=]|[]]]].
      * intros ? [[=]|[[= <-]|[[=]|[]]]]. split; [done|].
        exists client, lo, hi, [Alert m]. repeat split; try done. by apply Hrows.
Qed.

(** X8.  An export ends without telling the user anything in exactly two
    cases, both after the validation has passed: there is no store client
    (the query rejects and nothing handles it), or the save dialog was opened
    and the main process answered that the user cancelled. *)
Theorem export_is_silent_iff (supabase : option Client)
  (exportArchiveByDate : list BusinessInfo -> ExportResult) (startS endS : string) :
  let trace :=
    handleExportArchiveByTimestampRange Date_parse supabase exportArchiveByDate
      startS endS in
  alerts trace = 0%nat <->
    startS <> "" /\ endS <> "" /\
    date_gt (Date_parse startS) (Date_parse endS) = false /\
    (supabase = None \/
     exists rows, In (SaveDialog rows) trace /\
       export_success (exportArchiveByDate rows) = false /\
       export_error (exportArchiveByDate rows) = Some cancel_message).
Proof.
  intros trace.
  destruct (String.eqb_spec startS "") as [->|Hs].
  { subst trace. unfold handleExportArchiveByTimestampRange. simpl.
    split; [discriminate | by intros (? & _)]. }
  destruct (String.eqb_spec endS "") as [->|He].
  { subst trace. unfold handleExportArchiveByTimestampRange.
    rewrite orb_true_r. split; [discriminate | by intros (_ & ? & _)]. }
  destruct (date_gt (Date_parse startS) (Date_parse endS)) eqn:Hgt.
  { subst trace. unfold handleExportArchiveByTimestampRange.
    apply String.eqb_neq in Hs, He. rewrite Hs, He, Hgt.
    split; [discriminate | by intros (_ & _ & ? & _)]. }
  subst trace. rewrite (export_after_validation _ _ _ _ Hs He Hgt).
  destruct (query_cases supabase startS endS)
    as [(-> & e & ->) | [(client & e & -> & Hb & ->) | (client & lo & hi & result & -> & Hb & -> & Hrows)]].
  - split; [by eauto 6 | done].
  - split; [discriminate|]. intros (_ & _ & _ & [[=] | (rows & [[=]|[]] & _)]).
  - destruct (export_outcome_cases startS endS exportArchiveByDate result)
      as [(m & -> & _) | (rows & Hsucc & Hdata & Hne & [(-> & Hx1 & Hx2) | (m & -> & Hx)])].
    + split; [discriminate|].
      intros (_ & _ & _ & [[=] | (rows & [[=]|[[=]|[]]] & _)]).
    + split; [|done]. intros _. repeat split; try done. right. exists rows.
      split; [right; by left | done].
    + split; [discriminate|].
      intros (_ & _ & _ & [[=] | (rows' & [[=]|[[= <-]|[[=]|[]]]] & Hy)]). by destruct (Hx Hy).
Qed.

End ExportEffects.

(** ** Local input, UTC window *)

Section LocalAndUtc.

Import Date Supabase App.

#[local] Arguments two_digits : simpl never.
#[local] Arguments four_digits : simpl never.
#[local] Arguments make_day : simpl never.
#[local] Arguments make_time : simpl never.
#[local] Arguments digit_char : simpl never.
#[local] Arguments digit : simpl never.
#[local] Arguments number : simpl never.
#[local] Arguments Z.mul : simpl never.
#[local] Arguments Z.add : simpl never.
#[local] Arguments Z.sub : simpl never.





End LocalAndUtc.

(** ** One client per session *)

Section ClientInit.

Import Supabase Init.

Variable createClient : string -> string -> Completion Client.

Lemma initSupabase_keeps (g : Settled (option EnvVars)) (c : Client) :
  fst (initSupabase createClient g (Some c)) = Some c.
Proof.
  unfold initSupabase. destruct g as [envVars|e]; [|done].
  by destruct (missing _ || missing _).
Qed.

Lemma handed_spec (supabase : option Client) (call : Call) :
  (forall c, supabase = Some c -> fst (handed createClient supabase call) = Some c) /\
  (forall x, snd (handed createClient supabase call) = Some x ->
     fst (handed createClient supabase call) = Some x).
Proof.
  destruct call as [g|g]; unfold handed.
  - unfold initSupabase. destruct g as [envVars|e]; [|by split; [intros c -> |]].
    destruct (missing _ || missing _); [by split; [intros c -> |]|].
    destruct supabase as [c0|]; [split; [done | by intros x [= ->]]|].
    destruct (createClient _ _) as [c1|e]; simpl; split; try done;
      by intros x [= ->].
  - unfold getSupabaseClient. destruct supabase as [c0|].
    { split; [done | by intros x [= ->]]. }
    unfold initSupabase. destruct g as [envVars|e]; [|by split].
    destruct (missing _ || missing _); [by split|].
    destruct (createClient _ _) as [c1|e]; simpl; split; try done;
      by intros x [= ->].
Qed.

(** X10.  The client is created at most once: over any sequence of calls
    of [initSupabase] and [getSupabaseClient], whatever the bridge answers
    each time, a client once held in the module variable is never replaced,
    and every client handed to a caller is the one the variable holds at the
    end, so all callers share one client. *)
Theorem client_is_created_once (calls : list Call) (supabase : option Client) :
  (forall c, supabase = Some c -> fst (run createClient calls supabase) = Some c) /\
  (forall x, In x (snd (run createClient calls supabase)) ->
     fst (run createClient calls supabase) = Some x).
Proof.
  revert supabase. induction calls as [|call calls IH]; intros supabase.
  { split; [done | intros x []]. }
  simpl. destruct (handed_spec supabase call) as [Hk Hh].
  destruct (handed createClient supabase call) as [s h]. simpl in Hk, Hh.
  destruct (IH s) as [IHk IHh].
  destruct (run createClient calls s) as [s' hs]. simpl in IHk, IHh |- *.
  split.
  - intros c Hc. apply IHk, Hk, Hc.
  - intros x Hx. destruct h as [x0|]; [|by apply IHh].
    destruct Hx as [<- | Hx]; [|by apply IHh]. by apply IHk, Hh.
Qed.

(** X11.  With a variable missing, [initSupabase] answers null and
    creates nothing, also when a client exists, which [getSupabaseClient]
    still hands out; without a client, [getSupabaseClient] makes one attempt
    and resolves exactly when both variables are there and [createClient]
    returns. *)
Theorem client_needs_both_variables (g : Settled (option EnvVars)) :
  (forall envVars supabase,
     g = Resolved envVars ->
     missing (envVars ≫= SUPABASE_URL) || missing (envVars ≫= SUPABASE_ANON_KEY) = true ->
     initSupabase createClient g supabase = (supabase, Resolved None) /\
     match supabase with
     | Some c => getSupabaseClient createClient g supabase = (Some c, Resolved c)
     | None => exists e, getSupabaseClient createClient g None = (None, Rejected e)
     end) /\
  (forall c, getSupabaseClient createClient g None = (Some c, Resolved c) <->
     exists url key, g = Resolved (Some {| SUPABASE_URL := Some url;
                                            SUPABASE_ANON_KEY := Some key |}) /\
       url <> "" /\ key <> "" /\ createClient url key = Return c).
Proof.
  split.
  - intros envVars supabase -> Hm. unfold getSupabaseClient, initSupabase.
    rewrite Hm. split; [done|]. destruct supabase as [c|]; [done|]. simpl. eauto.
  - intros c. unfold getSupabaseClient, initSupabase. split.
    + destruct g as [envVars|e]; [|done].
      destruct envVars as [[ou ok]|]; simpl; [|done].
      destruct ou as [url|]; [|done].
      destruct ok as [key|]; [|by rewrite orb_true_r].
      simpl. destruct (String.eqb_spec url "") as [->|Hu]; simpl; [done|].
      destruct (String.eqb_spec key "") as [->|Hk]; simpl; [done|].
      destruct (createClient url key) as [c1|e] eqn:Hc; simpl; [|done].
      intros [= ->]. by exists url, key.
    + intros (url & key & -> & Hu & Hk & Hc). simpl.
      apply String.eqb_neq in Hu, Hk. rewrite Hu, Hk. simpl. by rewrite Hc.
Qed.

End ClientInit.

(** ** The rows for the map *)

Section MapChunks.

Import Supabase MapQuery.

Lemma chunks_of_lt (n : Z) (k : nat) :
  1000 * Z.of_nat k < n <-> (k < chunks_of n)%nat.
Proof. unfold chunks_of. Z.div_mod_to_equations. lia. Qed.

Lemma next_window (k : nat) : 1000 * Z.of_nat k + 1000 = 1000 * Z.of_nat (S k).
Proof. lia. Qed.

Lemma chunk_loop_step (fuel : nat) (store : Store) (count : Z) (k : nat)
  (allData : list Row) :
  chunk_loop (S fuel) store count (1000 * Z.of_nat k) allData =
    if 1000 * Z.of_nat k <? count then
      if hard_error (chunk store k)
      then ([window k], Some (Throw (default JUndefined (resp_error (chunk store k)))))
      else
        let '(reqs, res) :=
          chunk_loop fuel store count (1000 * Z.of_nat (S k))
            (allData ++ chunk_rows store k) in
        (window k :: reqs, res)
    else ([], Some (Return allData)).
Proof.
  cbn [chunk_loop]. fold (chunk store k). fold (window k).
  destruct (1000 * Z.of_nat k <? count); [|done].
  destruct (hard_error (chunk store k)); [done|].
  rewrite next_window. unfold chunk_rows.
  destruct (resp_data (chunk store k)); simpl; [done|]. by rewrite app_nil_r.
Qed.

(** The loop when no chunk it asks for answers with an error it does not
    tolerate. *)
Lemma chunk_loop_soft (store : Store) (count : Z) (fuel k : nat) (allData : list Row) :
  (forall k', (k <= k' < chunks_of count)%nat -> hard_error (chunk store k') = false) ->
  (chunks_of count - k < fuel)%nat ->
  chunk_loop fuel store count (1000 * Z.of_nat k) allData =
    (map window (seq k (chunks_of count - k)),
     Some (Return (allData ++
                   concat (map (chunk_rows store) (seq k (chunks_of count - k)))))).
Proof.
  revert k allData. induction fuel as [|fuel IH]; intros k allData Hsoft Hfuel; [lia|].
  rewrite chunk_loop_step.
  destruct (Z.ltb_spec (1000 * Z.of_nat k) count) as [Hlt|Hge].
  - apply chunks_of_lt in Hlt. rewrite Hsoft by lia.
    rewrite IH; [|intros k' Hk'; apply Hsoft; lia | lia].
    replace (chunks_of count - k)%nat with (S (chunks_of count - S k)) by lia.
    cbn [seq map concat]. by rewrite app_assoc.
  - assert (Hk : ~ (k < chunks_of count)%nat) by (rewrite <- chunks_of_lt; lia).
    replace (chunks_of count - k)%nat with 0%nat by lia. simpl. by rewrite app_nil_r.
Qed.

(** The loop when chunk [k0] is the first to answer with such an error. *)
Lemma chunk_loop_hard (store : Store) (count : Z) (k0 fuel k : nat) (allData : list Row) :
  (k <= k0)%nat -> 1000 * Z.of_nat k0 < count ->
  hard_error (chunk store k0) = true ->
  (forall k', (k <= k' < k0)%nat -> hard_error (chunk store k') = false) ->
  (k0 - k < fuel)%nat ->
  chunk_loop fuel store count (1000 * Z.of_nat k) allData =
    (map window (seq k (S (k0 - k))),
     Some (Throw (default JUndefined (resp_error (chunk store k0))))).
Proof.
  revert k allData. induction fuel as [|fuel IH];
    intros k allData Hk Hk0 Hhard Hsoft Hfuel; [lia|].
  rewrite chunk_loop_step. rewrite (proj2 (Z.ltb_lt _ _)) by lia.
  destruct (decide (k = k0)) as [->|Hne].
  - rewrite Hhard. by replace (k0 - k0)%nat with 0%nat by lia.
  - rewrite Hsoft by lia.
    rewrite IH; [| lia | done | done | intros k' Hk'; apply Hsoft; lia | lia].
    replace (k0 - k)%nat with (S (k0 - S k)) by lia. reflexivity.
Qed.

Lemma fuel_suffices (n : Z) : 0 < n -> (chunks_of n - 0 < S (Z.to_nat n))%nat.
Proof. intros H. unfold chunks_of. Z.div_mod_to_equations. lia. Qed.

(** The whole loop, as the query runs it. *)
Lemma chunk_loop_from_start (store : Store) (n : Z) :
  0 < n ->
  (forall k, (k < chunks_of n)%nat -> hard_error (chunk store k) = false) ->
  chunk_loop (S (Z.to_nat n)) store n 0 [] =
    (map window (seq 0 (chunks_of n)),
     Some (Return (concat (map (chunk_rows store) (seq 0 (chunks_of n)))))).
Proof.
  intros Hn Hsoft.
  pose proof (chunk_loop_soft store n (S (Z.to_nat n)) 0 []) as E.
  change (1000 * Z.of_nat 0) with 0 in E.
  rewrite E; [| intros k' Hk'; apply Hsoft; lia | by apply fuel_suffices].
  by rewrite Nat.sub_0_r.
Qed.

(** X12.  When the count is positive and no chunk answers with an error
    other than status 406, the query asks for the count once and then for
    each window of a thousand rows below the count once, in order, and
    succeeds with all rows of all chunks, each reduced to name, address and
    coordinates. *)
Theorem map_query_reads_every_chunk_once (store : Store) (n : Z) :
  count_with_coordinates store = Some n -> 0 < n ->
  (forall k, (k < chunks_of n)%nat -> hard_error (chunk store k) = false) ->
  getBusinessesForMap (Some store) =
    (CountRows :: map window (seq 0 (chunks_of n)),
     Some (Resolved
       {| map_success := true;
          map_data := Some (map map_row
                              (concat (map (chunk_rows store) (seq 0 (chunks_of n)))));
          map_error := None |})).
Proof.
  intros Hc Hn Hsoft. unfold getBusinessesForMap. rewrite Hc. cbn [no_count default].
  rewrite (proj2 (Z.eqb_neq n 0)) by lia. unfold id.
  by rewrite (chunk_loop_from_start store n Hn Hsoft).
Qed.

Lemma map_query_reads_every_chunk_once_witness :
  getBusinessesForMap (Some (table_store MapCases.two_places)) =
    ([CountRows; RangeRows 0 999],
     Some (Resolved {| map_success := true;
                       map_data := Some (map map_row MapCases.two_places);
                       map_error := None |})).
Proof.
  exact (map_query_reads_every_chunk_once (table_store MapCases.two_places) 2
           eq_refl eq_refl (fun k _ => eq_refl)).
Defined.

Lemma take_add_drop {A} (l : list A) (n m : nat) :
  take (n + m) l = take n l ++ take m (drop n l).
Proof.
  revert l. induction n as [|n IH]; intros l; [done|].
  destruct l as [|x l]; simpl; [by rewrite take_nil | by rewrite IH].
Qed.

Lemma chunks_reassemble {A} (l : list A) (c k : nat) :
  concat (map (fun j => take 1000 (drop (1000 * j) l)) (seq k c))
    = take (1000 * c) (drop (1000 * k) l).
Proof.
  revert k. induction c as [|c IH]; intros k; [done|].
  cbn [seq map concat]. rewrite IH.
  replace (1000 * S c)%nat with (1000 + 1000 * c)%nat by lia.
  rewrite take_add_drop, drop_drop.
  by replace (1000 * k + 1000)%nat with (1000 * S k)%nat by lia.
Qed.

Lemma table_chunk_rows (tbl : list Row) (k : nat) :
  chunk_rows (table_store tbl) k = take 1000 (drop (1000 * k) tbl).
Proof.
  unfold chunk_rows, chunk, table_store. cbn [select_chunk resp_data default].
  unfold id. f_equal; [lia | f_equal; lia].
Qed.

Lemma map_query_table (tbl : list Row) :
  getBusinessesForMap (Some (table_store tbl)) =
    (CountRows :: map window (seq 0 (chunks_of (Z.of_nat (length tbl)))),
     Some (Resolved {| map_success := true;
                       map_data := Some (map map_row tbl);
                       map_error := None |})).
Proof.
  destruct tbl as [|r tbl]; [reflexivity|].
  set (t := r :: tbl).
  unfold getBusinessesForMap.
  change (count_with_coordinates (table_store t)) with (Some (Z.of_nat (length t))).
  cbn [no_count default]. unfold id.
  rewrite (proj2 (Z.eqb_neq (Z.of_nat (length t)) 0)) by (simpl; lia).
  rewrite (chunk_loop_from_start (table_store t) (Z.of_nat (length t)));
    [| simpl; lia | done].
  repeat f_equal.
  rewrite (map_ext _ (fun j => take 1000 (drop (1000 * j) t)) (table_chunk_rows t)).
  rewrite chunks_reassemble. simpl drop. apply take_ge.
  unfold chunks_of. Z.div_mod_to_equations. lia.
Qed.

(** X13.  Against a store that holds a table and answers every request
    from it, the query returns the whole table, every row once and in the
    table's order, each reduced to name, address and coordinates, after one
    count request and one range request per started thousand of rows. *)
Theorem map_query_returns_the_table (tbl : list Row) :
  getBusinessesForMap (Some (table_store tbl)) =
    (CountRows :: map window (seq 0 (chunks_of (Z.of_nat (length tbl)))),
     Some (Resolved {| map_success := true;
                       map_data := Some (map map_row tbl);
                       map_error := None |})) /\
  length (fst (getBusinessesForMap (Some (table_store tbl))))
    = S (chunks_of (Z.of_nat (length tbl))) /\
  Z.of_nat (length tbl) <= 1000 * Z.of_nat (chunks_of (Z.of_nat (length tbl)))
    < Z.of_nat (length tbl) + 1000.
Proof.
  split; [apply map_query_table|]. split.
  - rewrite map_query_table. cbn [fst length]. by rewrite length_map, length_seq.
  - unfold chunks_of. Z.div_mod_to_equations. lia.
Qed.

Lemma chunk_loop_settles (store : Store) (count : Z) (fuel k : nat) (allData : list Row) :
  (chunks_of count - k < fuel)%nat ->
  is_Some (snd (chunk_loop fuel store count (1000 * Z.of_nat k) allData)).
Proof.
  revert k allData. induction fuel as [|fuel IH]; intros k allData Hfuel; [lia|].
  rewrite chunk_loop_step.
  destruct (Z.ltb_spec (1000 * Z.of_nat k) count) as [Hlt|Hge]; [|by eexists].
  destruct (hard_error (chunk store k)); [by eexists|].
  apply chunks_of_lt in Hlt.
  specialize (IH (S k) (allData ++ chunk_rows store k) ltac:(lia)).
  by destruct (chunk_loop fuel store count (1000 * Z.of_nat (S k)) _).
Qed.

(** X14.  How the map query fails.  It always settles.  A count answer
    that is null or zero, which is also what a refused count request leaves,
    gives success with no rows and no further request.  The first chunk
    that answers with an error other than status 406 ends the query: the
    result is a failure carrying that error, the rows fetched so far are
    dropped, and nothing is requested after it. *)
Theorem map_query_failures (store : Store) :
  is_Some (snd (getBusinessesForMap (Some store))) /\
  (no_count (count_with_coordinates store) = true ->
     getBusinessesForMap (Some store) =
       ([CountRows],
        Some (Resolved {| map_success := true; map_data := Some [];
                          map_error := None |}))) /\
  (forall n k0,
     count_with_coordinates store = Some n -> 1000 * Z.of_nat k0 < n ->
     hard_error (chunk store k0) = true ->
     (forall k, (k < k0)%nat -> hard_error (chunk store k) = false) ->
     exists err, resp_error (chunk store k0) = Some err /\
       getBusinessesForMap (Some store) =
         (CountRows :: map window (seq 0 (S k0)),
          Some (Resolved {| map_success := false; map_data := None;
                            map_error := Some err |}))).
Proof.
  split; [|split].
  - unfold getBusinessesForMap. destruct (no_count _) eqn:Hc; [by eexists|].
    destruct (count_with_coordinates store) as [n|]; [|done]. cbn [default]. unfold id.
    pose proof (chunk_loop_settles store n (S (Z.to_nat n)) 0 []) as H.
    change (1000 * Z.of_nat 0) with 0 in H.
    destruct (chunk_loop (S (Z.to_nat n)) store n 0 []) as [reqs [[a|e]|]]; simpl;
      try by eexists.
    apply is_Some_None in H; [done|]. unfold chunks_of. Z.div_mod_to_equations. lia.
  - intros Hc. unfold getBusinessesForMap. by rewrite Hc.
  - intros n k0 Hc Hk0 Hhard Hsoft.
    assert (He : is_Some (resp_error (chunk store k0))).
    { unfold hard_error in Hhard. apply andb_true_iff in Hhard as [H _].
      by apply bool_decide_eq_true in H. }
    destruct He as [err He]. exists err. split; [exact He|].
    unfold getBusinessesForMap. rewrite Hc. cbn [no_count default]. unfold id.
    rewrite (proj2 (Z.eqb_neq n 0)) by lia.
    pose proof (chunk_loop_hard store n k0 (S (Z.to_nat n)) 0 []) as E.
    change (1000 * Z.of_nat 0) with 0 in E.
    rewrite E; [| lia | done | done | intros k' Hk'; apply Hsoft; lia | lia].
    rewrite He, Nat.sub_0_r. reflexivity.
Qed.

Lemma map_query_failures_witness :
  getBusinessesForMap (Some MapCases.flaky_store) =
    ([CountRows; RangeRows 0 999; RangeRows 1000 1999],
     Some (Resolved {| map_success := false; map_data := None;
                       map_error := Some (Error "timeout") |})).
Proof.
  destruct (map_query_failures MapCases.flaky_store) as (_ & _ & H).
  destruct (H 1500 1%nat eq_refl eq_refl eq_refl) as (err & He & Hq).
  - intros k Hk. assert (k = 0%nat) as -> by lia. reflexivity.
  - injection He as <-. exact Hq.
Defined.

End MapChunks.

(** ** Writing an export *)

Section MainExport.

Import Main Trace.

Variable Number_toString : spec_float -> string.

Lemma not_dismissed (d : SaveDialogReturn) :
  dismissed d = false ->
  canceled d = false /\ exists p, filePath d = Some p /\ p <> "".
Proof.
  unfold dismissed. intros H. apply orb_false_iff in H as [Hc Hm]. split; [done|].
  destruct (filePath d) as [p|]; [|done]. exists p. split; [done|].
  simpl in Hm. by apply String.eqb_neq.
Qed.

(** The five ways the handler can go. *)
Lemma handler_cases (focused mainWindow : option Window)
  (showSaveDialog : Window -> Completion SaveDialogReturn)
  (writeFileSync : string -> list ExportRow -> Completion unit)
  (businessList : list BusinessInfo) :
  let run := handleExportArchiveByDate Number_toString focused mainWindow
               showSaveDialog writeFileSync businessList in
  let rows := map (transform Number_toString) businessList in
  (current_window focused mainWindow = None /\
   run = ([], Resolved {| answer_success := false;
                          answer_error := JStr no_window_message;
                          answer_filePath := None |})) \/
  (exists w, current_window focused mainWindow = Some w /\
     ((exists e, showSaveDialog w = Throw e /\ run = ([ShowSaveDialog w], caught e)) \/
      (exists d, showSaveDialog w = Return d /\ dismissed d = true /\
         run = ([ShowSaveDialog w], Resolved canceled_answer)) \/
      (exists d p, showSaveDialog w = Return d /\ canceled d = false /\
         filePath d = Some p /\ p <> "" /\
         ((exists e, writeFileSync p rows = Throw e /\
             run = ([ShowSaveDialog w; WriteFile p rows], caught e)) \/
          (writeFileSync p rows = Return tt /\
             run = ([ShowSaveDialog w; WriteFile p rows],
                    Resolved {| answer_success := true; answer_error := JUndefined;
                                answer_filePath := Some p |})))))).
Proof.
  intros run rows. subst run. unfold handleExportArchiveByDate.
  fold rows.
  destruct (current_window focused mainWindow) as [w|]; [|by left].
  right. exists w. split; [done|]. unfold write_export.
  destruct (showSaveDialog w) as [d|e] eqn:Hd; [|left; by exists e].
  right. destruct (dismissed d) eqn:Hdis; [left; by exists d|].
  right. destruct (not_dismissed d Hdis) as (Hc & p & Hp & Hne).
  exists d, p. rewrite Hp. cbn [default]. unfold id. repeat split; try done.
  destruct (writeFileSync p rows) as [[]|e] eqn:Hw; [right | left; exists e]; done.
Qed.

Lemma caught_not_success (e : JSValue) (a : Answer) :
  caught e = Resolved a -> answer_success a = false.
Proof. unfold caught. destruct e; simpl; by intros [= <-]. Qed.


(** X15.  The export handler of the main process shows at most one
    dialog, on the focused window or else the main window, and none when
    there is neither.  It writes at most once, and only after the dialog came
    back accepted with a path: to that path, and the rows of the list it was
    given, in order.  It answers success exactly when that write returned,
    with the path written; a dismissed dialog is answered as cancelled and
    nothing is written. *)
Theorem export_writes_only_on_accept (focused mainWindow : option Window)
  (showSaveDialog : Window -> Completion SaveDialogReturn)
  (writeFileSync : string -> list ExportRow -> Completion unit)
  (businessList : list BusinessInfo) :
  let run := handleExportArchiveByDate Number_toString focused mainWindow
               showSaveDialog writeFileSync businessList in
  let rows := map (transform Number_toString) businessList in
  (dialogs (fst run) = match current_window focused mainWindow with
                       | Some w => [w]
                       | None => []
                       end) /\
  (length (file_writes (fst run)) <= 1)%nat /\
  (forall p c, In (p, c) (file_writes (fst run)) ->
     c = rows /\ p <> "" /\
     exists w d, current_window focused mainWindow = Some w /\
       showSaveDialog w = Return d /\ canceled d = false /\ filePath d = Some p) /\
  (forall a, snd run = Resolved a ->
     (answer_success a = true <->
      exists p, file_writes (fst run) = [(p, rows)] /\
                writeFileSync p rows = Return tt /\ answer_filePath a = Some p)) /\
  (forall w d, current_window focused mainWindow = Some w ->
     showSaveDialog w = Return d -> dismissed d = true ->
     run = ([ShowSaveDialog w], Resolved canceled_answer)).
Proof.
  intros run rows.
  destruct (handler_cases focused mainWindow showSaveDialog writeFileSync businessList)
    as [(Hw & Hrun)
       | (w & Hw & [(e & Hd & Hrun)
                   | [(d & Hd & Hdis & Hrun)
                     | (d & p & Hd & Hc & Hp & Hne & [(e & Hwr & Hrun) | (Hwr & Hrun)])]])];
    fold run rows in Hrun, Hwr || fold run rows in Hrun; rewrite Hrun, Hw; cbn [fst snd].
  - split; [done|]. split; [simpl; lia|]. split; [intros ? ? []|]. split.
    + intros a [= <-]. split; [done | intros (? & [=] & _)].
    + intros ? ? [=].
  - split; [done|]. split; [simpl; lia|]. split; [intros ? ? []|]. split.
    + intros a Ha. rewrite (caught_not_success e a Ha).
      split; [done | intros (? & [=] & _)].
    + intros w' d' [= <-] Hd'. congruence.
  - split; [done|]. split; [simpl; lia|]. split; [intros ? ? []|]. split.
    + intros a [= <-]. split; [done | intros (? & [=] & _)].
    + by intros w' d' [= <-] _ _.
  - split; [done|]. split; [simpl; lia|]. split; [|split].
    + intros p' c [[= <- <-]|[]]. repeat split; try done. by exists w, d.
    + intros a Ha. rewrite (caught_not_success e a Ha).
      split; [done|]. intros (p' & [= <-] & Hret & _). congruence.
    + intros w' d' [= <-] Hd' Hdis. rewrite Hd in Hd'. injection Hd' as <-.
      unfold dismissed in Hdis. rewrite Hc, Hp in Hdis. simpl in Hdis.
      by apply String.eqb_eq in Hdis.
  - split; [done|]. split; [simpl; lia|]. split; [|split].
    + intros p' c [[= <- <-]|[]]. repeat split; try done. by exists w, d.
    + intros a [= <-]. split; [|done]. intros _. by exists p.
    + intros w' d' [= <-] Hd' Hdis. rewrite Hd in Hd'. injection Hd' as <-.
      unfold dismissed in Hdis. rewrite Hc, Hp in Hdis. simpl in Hdis.
      by apply String.eqb_eq in Hdis.
Qed.


Lemma answer_kinds (focused mainWindow : option Window)
  (showSaveDialog : Window -> Completion SaveDialogReturn)
  (writeFileSync : string -> list ExportRow -> Completion unit)
  (businessList : list BusinessInfo) (a : Answer) :
  let run := handleExportArchiveByDate Number_toString focused mainWindow
               showSaveDialog writeFileSync businessList in
  snd run = Resolved a ->
  (answer_success a = true /\
   exists p, p <> "" /\ answer_filePath a = Some p /\
     file_writes (fst run) = [(p, map (transform Number_toString) businessList)]) \/
  answer_success a = false.
Proof.
  intros run.
  destruct (handler_cases focused mainWindow showSaveDialog writeFileSync businessList)
    as [(Hw & Hrun)
       | (w & Hw & [(e & Hd & Hrun)
                   | [(d & Hd & Hdis & Hrun)
                     | (d & p & Hd & Hc & Hp & Hne & [(e & Hwr & Hrun) | (Hwr & Hrun)])]])];
    fold run in Hrun; rewrite Hrun; cbn [fst snd].
  - intros [= <-]. by right.
  - intros Ha. right. by apply (caught_not_success e).
  - intros [= <-]. by right.
  - intros Ha. right. by apply (caught_not_success e).
  - intros [= <-]. left. split; [done|]. by exists p.
Qed.

(** X16.  What the user is told after the save dialog follows what
    happened to the file.  With the answer of the main process handed to the
    renderer: the message of success is shown exactly when the main process
    wrote the file, and it names the path written; an answer of cancellation
    shows nothing; every other answer shows the failure message. *)
Theorem export_alert_follows_the_file (focused mainWindow : option Window)
  (showSaveDialog : Window -> Completion SaveDialogReturn)
  (writeFileSync : string -> list ExportRow -> Completion unit)
  (businessList : list BusinessInfo) (startS endS : string) (a : Answer) :
  businessList <> [] ->
  snd (handleExportArchiveByDate Number_toString focused mainWindow
         showSaveDialog writeFileSync businessList) = Resolved a ->
  let io := fst (handleExportArchiveByDate Number_toString focused mainWindow
                   showSaveDialog writeFileSync businessList) in
  let out := App.export_outcome startS endS (fun _ => as_ExportResult a)
               {| Supabase.success := true; Supabase.data := Some businessList;
                  Supabase.error := None |} in
  (answer_success a = true /\
   exists p, file_writes io = [(p, map (transform Number_toString) businessList)] /\
     out = [SaveDialog businessList;
            Alert ("Archive successfully exported to: " +:+ p)]) \/
  (answer_success a = false /\ answer_error a = JStr cancel_message /\
   out = [SaveDialog businessList]) \/
  (answer_success a = false /\ answer_error a <> JStr cancel_message /\
   exists m, out = [SaveDialog businessList;
                    Alert ("Failed to export archive session: " +:+ m)]).
Proof.
  intros Hne Ha io out.
  assert (Hlen : (length businessList =? 0)%nat = false).
  { destruct businessList; [done | reflexivity]. }
  destruct (answer_kinds focused mainWindow showSaveDialog writeFileSync businessList a Ha)
    as [(Hs & p & Hp & Hf & Hw) | Hs].
  - left. split; [done|]. exists p. split; [exact Hw|].
    subst out. unfold App.export_outcome. cbn [Supabase.success Supabase.data].
    rewrite Hlen. unfold as_ExportResult. cbn [App.export_success App.export_filePath].
    rewrite Hs, Hf. apply String.eqb_neq in Hp. rewrite Hp. reflexivity.
  - right. subst out. unfold App.export_outcome. cbn [Supabase.success Supabase.data].
    rewrite Hlen. unfold as_ExportResult.
    cbn [App.export_success App.export_filePath App.export_error].
    rewrite Hs. cbn [andb negb].
    case_bool_decide as He.
    + left. split; [done|]. split; [|done].
      destruct (answer_error a); try discriminate He. by injection He as ->.
    + right. split; [done|]. split; [|by eexists].
      intros E. apply He. by rewrite E.
Qed.

End MainExport.

Lemma export_alert_follows_the_file_witness :
  App.export_outcome "2024-03-05T09:00" "2024-03-05T10:00"
    (fun _ => Main.as_ExportResult
                {| Main.answer_success := true; Main.answer_error := JUndefined;
                   Main.answer_filePath := Some "/tmp/archive.json" |})
    {| Supabase.success := true; Supabase.data := Some [Sample.joe];
       Supabase.error := None |}
  = [SaveDialog [Sample.joe]; Alert "Archive successfully exported to: /tmp/archive.json"].
Proof.
  destruct (export_alert_follows_the_file (fun _ => "0") (Some 1%nat) None
              (fun _ => Return {| Main.filePath := Some "/tmp/archive.json";
                                  Main.canceled := false |})
              (fun _ _ => Return tt) [Sample.joe]
              "2024-03-05T09:00" "2024-03-05T10:00"
              {| Main.answer_success := true; Main.answer_error := JUndefined;
                 Main.answer_filePath := Some "/tmp/archive.json" |}
              ltac:(discriminate) eq_refl)
    as [(_ & p & Hw & Hout) | [(Hs & _) | (Hs & _)]]; try discriminate Hs.
  injection Hw as <-. exact Hout.
Defined.

(** ** One map window *)

Section MapWindowProperties.

Import MapWindow.

Lemma tracked_step (e : Event) (ws : Windows) : tracked ws -> tracked (step e ws).
Proof.
  unfold tracked. intros H. destruct e as [|w]; simpl.
  - unfold openMapWindow, usable. destruct (mapWindow ws) as [w0|] eqn:Hm.
    + rewrite H. rewrite bool_decide_eq_true_2 by apply list_elem_of_here.
      simpl. rewrite ?Hm, ?H. done.
    + simpl. by rewrite H.
  - unfold closeWindow. case_bool_decide as Hin; [|exact H]. simpl.
    destruct (mapWindow ws) as [w0|]; rewrite H in Hin |- *.
    + apply list_elem_of_singleton in Hin as ->. simpl. by rewrite Nat.eqb_refl.
    + done.
Qed.

Lemma tracked_steps (es : list Event) (ws : Windows) : tracked ws -> tracked (steps es ws).
Proof.
  revert ws. induction es as [|e es IH]; intros ws H; [exact H|].
  apply (IH (step e ws)), tracked_step, H.
Qed.

(** X17.  However often the map is asked for and whichever windows are
    closed in between, there is at most one map window, and it is the one the
    module variable names.  A request while it exists creates nothing and
    focuses it; a request while there is none creates one. *)
Theorem at_most_one_map_window (es : list Event) :
  let ws := steps es no_windows in
  (length (alive ws) <= 1)%nat /\
  tracked ws /\
  (forall w, mapWindow ws = Some w ->
     alive (step Open ws) = [w] /\
     mapWindow (step Open ws) = Some w /\
     focus_calls (step Open ws) = focus_calls ws ++ [w]) /\
  (mapWindow ws = None ->
     alive (step Open ws) = [next_window ws] /\
     mapWindow (step Open ws) = Some (next_window ws) /\
     focus_calls (step Open ws) = focus_calls ws).
Proof.
  intros ws. assert (H : tracked ws) by (apply tracked_steps; reflexivity).
  unfold tracked in H. split; [|split; [exact H|split]].
  - rewrite H. destruct (mapWindow ws); simpl; lia.
  - intros w Hm. simpl. unfold openMapWindow, usable. rewrite Hm in H |- *. rewrite H.
    rewrite bool_decide_eq_true_2 by apply list_elem_of_here. simpl.
    rewrite ?Hm, ?H. done.
  - intros Hm. simpl. unfold openMapWindow, usable. rewrite Hm in H |- *. simpl.
    rewrite ?H. done.
Qed.

End MapWindowProperties.

(** ** What the map window shows *)

Section MapViewProperties.

Import Supabase MapQuery MapView.

Lemma plottable_fits_bounds (b : Row) : fits_bounds b = plottable b.
Proof.
  unfold fits_bounds, plottable, plain_number.
  destruct (truthy (prop b "coordinates")); [|done]. simpl.
  destruct (member (prop b "coordinates") "lat"), (member (prop b "coordinates") "lng");
    rewrite ?andb_false_r; done.
Qed.

Lemma plottable_truthy (b : Row) :
  plottable b = true -> truthy (prop b "coordinates") = true.
Proof.
  unfold plottable. intros H.
  apply andb_true_iff in H as [H _]. by apply andb_true_iff in H as [H _].
Qed.

Lemma plottable_map_row (r : Row) : plottable (map_row r) = plottable r.
Proof. reflexivity. Qed.

Lemma filter_filter_same {A} (f g : A -> bool) (l : list A) :
  (forall x, g x = f x) -> List.filter g (List.filter f l) = List.filter f l.
Proof.
  intros H. induction l as [|x l IH]; [done|]. simpl.
  destruct (f x) eqn:E; [|exact IH]. simpl. by rewrite H, E, IH.
Qed.

Lemma markers_of_plottable (bs : list Row) :
  Forall (fun b => plottable b = true) bs ->
  map position (omap marker bs) = map lat_lng bs.
Proof.
  induction 1 as [|b bs Hb _ IH]; [done|].
  cbn [omap list_omap]. unfold marker at 1. rewrite (plottable_truthy b Hb).
  cbn [map position]. by rewrite IH.
Qed.

Lemma filter_all_plottable (data : list Row) :
  Forall (fun b => plottable b = true) (List.filter plottable data).
Proof.
  apply Forall_forall. intros b Hb. apply list_elem_of_In in Hb.
  by apply List.filter_In in Hb as [_ ?].
Qed.


(** The query settles, and for a client at hand it resolves. *)
Lemma map_query_resolves (client : Store) :
  exists result, snd (getBusinessesForMap (Some client)) = Some (Resolved result).
Proof.
  unfold getBusinessesForMap. destruct (no_count _) eqn:Hc; [by eexists|].
  destruct (count_with_coordinates client) as [n|]; [|done]. cbn [default]. unfold id.
  pose proof (chunk_loop_settles client n (S (Z.to_nat n)) 0 []) as H.
  change (1000 * Z.of_nat 0) with 0 in H.
  destruct (chunk_loop (S (Z.to_nat n)) client n 0 []) as [reqs [[a|e]|]]; simpl;
    try by eexists.
  apply is_Some_None in H; [done|]. unfold chunks_of. Z.div_mod_to_equations. lia.
Qed.

(** The view for a result of the query. *)
Lemma shown_for_result (client : Store) (result : MapResult) :
  snd (getBusinessesForMap (Some client)) = Some (Resolved result) ->
  shown client =
    match map_success result, map_data result with
    | true, Some data =>
        match List.filter plottable data with
        | [] => match data with
                | [] => NoBusinessesMessage
                | _ :: _ => ErrorMessage msg_not_plottable
                end
        | first :: rest =>
            MapShown (or_number (member (prop first "coordinates") "lat") default_lat,
                      or_number (member (prop first "coordinates") "lng") default_lng)
                     10
                     (omap marker (first :: rest))
                     (map lat_lng (first :: rest))
        end
    | _, _ => ErrorMessage msg_load_failed
    end.
Proof.
  intros Hq. unfold shown, fetchBusinesses. rewrite Hq.
  destruct (map_success result); [|done].
  destruct (map_data result) as [data|]; [|done].
  pose proof (filter_all_plottable data) as Hall.
  pose proof (filter_filter_same plottable fits_bounds data plottable_fits_bounds) as Hfit.
  destruct (List.filter plottable data) as [|first rest] eqn:Hf.
  - by destruct data.
  - unfold render. cbn [loading error businesses length Nat.eqb andb Init.missing negb].
    unfold validCoordinates. rewrite Hfit.
    inversion Hall as [|? ? Hfirst _]; subst.
    by rewrite (plottable_truthy first Hfirst).
Qed.

(** X18.  What the map window ends up showing.  It stays on the loading
    message exactly when the initialisation rejects.  Otherwise it shows one
    of three messages (no connection, load failed, nothing to plot) or the
    map; the map is shown exactly when the query succeeded with at least one
    row whose coordinates are two numbers that are not NaN, and then every
    such row has one marker at its coordinates, in the order of the rows,
    the bounds are fitted to exactly these positions, and the zoom is 10. *)
Theorem map_view_after_fetch (supabaseClient : Settled (option Store)) :
  let view := render (fetchBusinesses supabaseClient) in
  (view = LoadingMessage <-> exists e, supabaseClient = Rejected e) /\
  (supabaseClient = Resolved None -> view = ErrorMessage msg_no_connection) /\
  (forall client, supabaseClient = Resolved (Some client) ->
     exists result,
       snd (getBusinessesForMap (Some client)) = Some (Resolved result) /\
       ((exists center zoom markers bounds, view = MapShown center zoom markers bounds) <->
        exists data, map_success result = true /\ map_data result = Some data /\
                     List.filter plottable data <> [])) /\
  (forall center zoom markers bounds,
     view = MapShown center zoom markers bounds ->
     zoom = 10 /\ map position markers = bounds /\
     exists client result data,
       supabaseClient = Resolved (Some client) /\
       snd (getBusinessesForMap (Some client)) = Some (Resolved result) /\
       map_data result = Some data /\
       bounds = map lat_lng (List.filter plottable data)).
Proof.
  intros view. destruct supabaseClient as [[client|]|e].
  - destruct (map_query_resolves client) as [result Hq].
    pose proof (shown_for_result client result Hq) as Hv.
    unfold shown in Hv. fold view in Hv.
    assert (Hcases :
      (exists data first rest, map_success result = true /\ map_data result = Some data /\
         List.filter plottable data = first :: rest /\
         view = MapShown (or_number (member (prop first "coordinates") "lat") default_lat,
                          or_number (member (prop first "coordinates") "lng") default_lng)
                         10 (omap marker (first :: rest)) (map lat_lng (first :: rest))) \/
      ((exists msg, view = ErrorMessage msg) \/ view = NoBusinessesMessage) /\
      ~ (exists data, map_success result = true /\ map_data result = Some data /\
           List.filter plottable data <> [])).
    { destruct (map_success result); [|right; split; [left; eauto | by intros (? & [=] & _)]].
      destruct (map_data result) as [data|];
        [|right; split; [left; eauto | by intros (? & _ & [=] & _)]].
      destruct (List.filter plottable data) as [|first rest] eqn:Hf.
      - right. split.
        + destruct data; [by right | left; eauto].
        + intros (d & _ & [= <-] & Hne). by rewrite Hf in Hne.
      - left. by exists data, first, rest. }
    split; [|split; [done|split]].
    + split; [|by intros [? [=]]].
      destruct Hcases as [(? & ? & ? & _ & _ & _ & ->) | [[[? ->] | ->] _]]; done.
    + intros c [= <-]. exists result. split; [exact Hq|].
      destruct Hcases as [(data & first & rest & Hs & Hd & Hf & ->) | [Hmsg Hno]].
      * split; [|by eauto 10]. intros _. exists data. by rewrite Hf.
      * split; [|done]. intros (? & ? & ? & ? & Hm).
        destruct Hmsg as [[? Hmsg] | Hmsg]; rewrite Hmsg in Hm; discriminate Hm.
    + intros center zoom markers bounds Hm.
      destruct Hcases as [(data & first & rest & Hs & Hd & Hf & Hview) | [Hmsg _]].
      * rewrite Hview in Hm. injection Hm as <- <- <- <-.
        split; [done|]. split.
        -- refine (markers_of_plottable (first :: rest) _).
           rewrite <- Hf. apply filter_all_plottable.
        -- exists client, result, data. by rewrite Hf.
      * destruct Hmsg as [[? Hmsg] | Hmsg]; rewrite Hmsg in Hm; discriminate Hm.
  - split; [|split; [done|split]].
    + split; [done | by intros [? [=]]].
    + by intros ? [=].
    + by intros ? ? ? ? [=].
  - split; [|split; [done|split]].
    + split; [by eauto | done].
    + by intros ? [=].
    + by intros ? ? ? ? [=].
Qed.

(** X19.  Against a store that holds a table and answers every request
    from it, the map window shows one marker for every row of the table
    whose coordinates are two numbers that are not NaN, in the table's order
    and at those coordinates, and no other marker; it shows the message that
    nothing can be plotted when the table has rows but none of them is such a
    row, and the message that there are no businesses when the table is
    empty. *)
Theorem map_view_shows_the_table (tbl : list Row) :
  shown (table_store tbl) =
    match List.filter plottable tbl with
    | [] => match tbl with
            | [] => NoBusinessesMessage
            | _ :: _ => ErrorMessage msg_not_plottable
            end
    | first :: rest =>
        MapShown (or_number (member (prop first "coordinates") "lat") default_lat,
                  or_number (member (prop first "coordinates") "lng") default_lng)
                 10
                 (omap marker (map map_row (first :: rest)))
                 (map lat_lng (first :: rest))
    end /\
  map position (omap marker (map map_row (List.filter plottable tbl)))
    = map lat_lng (List.filter plottable tbl).
Proof.
  assert (Hfilter : List.filter plottable (map map_row tbl)
                    = map map_row (List.filter plottable tbl)).
  { induction tbl as [|r tbl IH]; [done|]. simpl. rewrite plottable_map_row.
    destruct (plottable r); simpl; by rewrite IH. }
  assert (Hll : forall l, map lat_lng (map map_row l) = map lat_lng l).
  { intros l. rewrite map_map. by apply map_ext. }
  split.
  - rewrite (shown_for_result (table_store tbl) _
               (f_equal snd (map_query_table tbl))).
    cbn [map_success map_data]. rewrite Hfilter.
    destruct (List.filter plottable tbl) as [|first rest].
    + by destruct tbl.
    + rewrite <- (Hll (first :: rest)). reflexivity.
  - rewrite markers_of_plottable; [apply Hll|].
    rewrite <- Hfilter. apply filter_all_plottable.
Qed.

End MapViewProperties.

(** ** What a session sends to the store *)

Section SessionForwards.

Import App SessionRun.

Lemma forwards_trace (supabase : option Supabase.Client) (fwd : list BusinessInfo)
  (st : AppState) (io : list IO) :
  snd (foldl (fun '(s, io) b =>
                let '(io', r) := Supabase.saveBusinessToSupabase supabase b in
                (forward_settled r s, io ++ io'))
             (st, io) fwd)
  = io ++ match supabase with
          | Some _ => map NetUpsert fwd
          | None => []
          end.
Proof.
  revert st io. induction fwd as [|b fwd IH]; intros st io; simpl.
  - destruct supabase; by rewrite app_nil_r.
  - unfold Supabase.saveBusinessToSupabase at 2.
    destruct supabase as [client|]; simpl; rewrite IH.
    + by rewrite <- app_assoc.
    + by rewrite app_nil_r.
Qed.

Lemma capture_and_forward_trace (supabase : option Supabase.Client)
  (cb : BusinessInfo) (st : AppState) :
  snd (capture_and_forward supabase cb st)
  = match supabase with
    | Some _ => map NetUpsert (snd (capture cb (savedBusinesses st)))
    | None => []
    end.
Proof.
  unfold capture_and_forward.
  destruct (capture cb (savedBusinesses st)) as [saved fwd]. simpl.
  by rewrite forwards_trace.
Qed.

Lemma run_step (supabase : option Supabase.Client) (captures : list BusinessInfo)
  (cb : BusinessInfo) (st : AppState) :
  run supabase (captures ++ [cb]) st =
    (fst (capture_and_forward supabase cb (fst (run supabase captures st))),
     snd (run supabase captures st) ++
     snd (capture_and_forward supabase cb (fst (run supabase captures st)))).
Proof.
  unfold run. rewrite foldl_app. simpl.
  destruct (foldl _ (st, []) captures) as [s io]. simpl.
  by destruct (capture_and_forward supabase cb s).
Qed.


Lemma capture_appends (cb : BusinessInfo) (saved : list BusinessInfo) :
  fst (capture cb saved) = saved ++ snd (capture cb saved).
Proof.
  destruct (known_dec cb saved) as [H|H].
  - rewrite (capture_known _ _ H). simpl. by rewrite app_nil_r.
  - by rewrite (capture_new _ _ H).
Qed.

(** X20.  Over a whole session, whatever is captured and in whatever
    order: the session list is the list the captures alone determine, no two
    of its entries have one identity, and with a store client the requests
    made are one upsert for each entry of the list, in the order of the list,
    and nothing else; a capture of a business already in the list sends
    nothing, however its other fields differ.  Without a client nothing is
    sent and the list is the same. *)
Theorem every_session_entry_is_forwarded_once (supabase : option Supabase.Client)
  (captures : list BusinessInfo) :
  savedBusinesses (fst (run supabase captures Sample.empty_session))
    = session_after captures /\
  distinct_identities (session_after captures) /\
  snd (run supabase captures Sample.empty_session)
    = match supabase with
      | Some _ => map NetUpsert (session_after captures)
      | None => []
      end.
Proof.
  split; [|split].
  - induction captures as [|cb captures IH] using rev_ind; [done|].
    rewrite run_step. cbn [fst]. rewrite capture_and_forward_saved, IH.
    unfold session_after. by rewrite foldl_app.
  - apply captures_distinct. intros i j a b _ Hi. by rewrite lookup_nil in Hi.
  - induction captures as [|cb captures IH] using rev_ind.
    { by destruct supabase. }
    assert (Hs : savedBusinesses (fst (run supabase captures Sample.empty_session))
                 = session_after captures).
    { clear IH. induction captures as [|cb' captures IH] using rev_ind; [done|].
      rewrite run_step. cbn [fst]. rewrite capture_and_forward_saved, IH.
      unfold session_after. by rewrite foldl_app. }
    rewrite run_step. cbn [snd]. rewrite IH, capture_and_forward_trace, Hs.
    destruct supabase as [client|]; [|done].
    rewrite <- map_app. f_equal.
    unfold session_after at 3. rewrite foldl_app. simpl.
    fold (session_after captures). by rewrite capture_appends.
Qed.

End SessionForwards.

(** ** Pages and session entries *)

Section PagesAndEntries.

Import Dom Scripts Hook Reading App.

Variable parseFloat : string -> spec_float.

(** X21.  Two pages give one entry of the session list exactly when the
    names taken from their titles are equal and the address texts they show
    are equal, an address not shown counting as the empty text; the URL, the
    coordinates, the phone and the website play no part. *)
Theorem pages_are_one_entry_iff_same_name_and_address (p q : Page) :
  exists bp bq,
    extracted parseFloat p = Some bp /\ extracted parseFloat q = Some bq /\
    (identity bp bq <->
       replace (title p) title_suffix "" = replace (title q) title_suffix "" /\
       page_label p address_marker = page_label q address_marker) /\
    (identity bp bq -> session_after [bp; bq] = [bp]) /\
    (~ identity bp bq -> session_after [bp; bq] = [bp; bq]).
Proof.
  eexists. eexists. split; [apply extracted_value|]. split; [apply extracted_value|].
  set (bp := Build_BusinessInfo _ _ _ _ _ _ _ _ _ _ _ _).
  set (bq := Build_BusinessInfo _ _ _ _ _ _ _ _ _ _ _ _).
  assert (Hfirst : capture bp [] = ([bp], [bp])).
  { apply (capture_new bp []). intros (b & [] & _). }
  split; [|split].
  - unfold identity, absent_or_empty. subst bp bq. cbn [name address]. split.
    + intros [Hn [[= Ha] | [[[=]|[= Ha1]] [[=]|[= Ha2]]]]]; split; congruence.
    + intros [-> ->]. split; [done | by left].
  - intros Hid. unfold session_after. simpl. rewrite Hfirst. simpl.
    rewrite capture_known; [done|]. exists bp. split; [by left | done].
  - intros Hid. unfold session_after. simpl. rewrite Hfirst. simpl.
    rewrite capture_new; [done|]. intros (b & [<-|[]] & Hb). by apply Hid.
Qed.

End PagesAndEntries.

(** ** After the unmount *)

Section AfterUnmount.

Import Hook Monitor Lifecycle.

Lemma step_unmounted (e : Event) (w : World) :
  cleanup w = None -> webviewRef (hook w) = false -> e <> Mount ->
  cleanup (step e w) = None /\ webviewRef (hook (step e w)) = false /\
  in_flight (step e w) `sublist_of` in_flight w.
Proof.
  intros Hc Href He.
  destruct e; try done;
    try (match goal with |- context [step ?e w] =>
           destruct (inner_frame e w I) as (_ & -> & ->);
           destruct (issuing_quiet e w I Href) as (_ & -> & _)
         end; by repeat split).
  - destruct (inner_frame (Settle k r) w I) as (_ & -> & ->).
    repeat split; try done. simpl. destruct (in_flight w !! k); [|done].
    simpl. apply sublist_delete.
  - simpl. by rewrite Hc.
Qed.

(** X22.  Once the hook is unmounted, and until it is mounted again, no
    call into the page is issued: whatever events, ticks, clicks and timers
    follow, and whichever calls settle, the calls in flight only become
    fewer, and the ref stays cleared. *)
Theorem no_call_after_unmount (es es' : list Event) :
  Forall (fun e => e <> Mount) es' ->
  webviewRef (hook (steps es' (steps (es ++ [Unmount]) initial_world))) = false /\
  in_flight (steps es' (steps (es ++ [Unmount]) initial_world))
    `sublist_of` in_flight (steps (es ++ [Unmount]) initial_world).
Proof.
  intros Hes. set (w := steps (es ++ [Unmount]) initial_world).
  assert (Hc : cleanup w = None).
  { subst w. unfold steps. rewrite foldl_app. cbn [foldl].
    set (w0 := foldl _ initial_world es). cbn [step].
    destruct (cleanup w0) eqn:E; [done | exact E]. }
  assert (Href : webviewRef (hook w) = false).
  { pose proof (invariant_steps (es ++ [Unmount]) initial_world invariant_initial) as H.
    fold w in H. unfold lifecycle_invariant in H. rewrite Hc in H. apply H. }
  clearbody w. revert w Hc Href.
  induction Hes as [|e es' He _ IH]; intros w Hc Href; [done|].
  change (steps (e :: es') w) with (steps es' (step e w)).
  destruct (step_unmounted e w Hc Href He) as (Hc' & Href' & Hsub).
  destruct (IH (step e w) Hc' Href') as [H1 H2]. split; [exact H1|].
  by etrans.
Qed.

Lemma no_call_after_unmount_witness :
  in_flight (steps [Tick 0; SaveClick; Timeout; Emit "did-finish-load"]
               (steps ([Mount; Tick 0] ++ [Unmount]) initial_world))
    `sublist_of` [Classification].
Proof.
  refine (proj2 (no_call_after_unmount [Mount; Tick 0%nat]
                   [Tick 0%nat; SaveClick; Timeout; Emit "did-finish-load"] _)).
  repeat constructor; discriminate.
Defined.

End AfterUnmount.

(** ** What the interaction patch leaves behind *)

Section PatchResult.

Import Dom Patcher.

Lemma when_lookup (b : bool) (w : gmap string string) (k : string) :
  when b w !! k = if b then w !! k else None.
Proof. by destruct b. Qed.

Lemma writes_other (doc : list Node) (i : nat) (k : string) :
  k <> "cursor" -> k <> "pointer-events" -> k <> "touch-action" ->
  writes doc i !! k = None.
Proof.
  intros H1 H2 H3. unfold writes.
  rewrite !lookup_union_None, !when_lookup.
  repeat split; match goal with |- (if ?b then _ else _) = _ => destruct b end;
    rewrite ?lookup_union_None, ?lookup_singleton_ne; done.
Qed.


Lemma in_bool {A} `{EqDecision A} (x : A) (l : list A) :
  x ∈ l -> bool_decide (x ∈ l) = true.
Proof. intros H. by apply bool_decide_eq_true. Qed.

Lemma notin_bool {A} `{EqDecision A} (x : A) (l : list A) :
  x ∉ l -> bool_decide (x ∈ l) = false.
Proof. intros H. by apply bool_decide_eq_false. Qed.

Ltac by_cases :=
  unfold writes; rewrite !lookup_union, !when_lookup;
  repeat match goal with
         | H : bool_decide _ = _ |- _ => rewrite H
         end;
  repeat match goal with
         | |- context [bool_decide ?P] => destruct (bool_decide P)
         end;
  reflexivity.

(** The declarations written on a node, property by property. *)
Lemma writes_pointer_events (doc : list Node) (i : nat) :
  selected doc i -> writes doc i !! "pointer-events" = Some "auto".
Proof.
  intros [H | [H | [H | H]]].
  - apply in_bool in H. by_cases.
  - apply in_bool in H. by_cases.
  - assert (H' : bool_decide (getElementById "searchboxinput" doc = Some i) = true)
      by by apply bool_decide_eq_true.
    clear H. by_cases.
  - apply in_bool in H. by_cases.
Qed.

Lemma writes_touch_action (doc : list Node) (i : nat) :
  writes doc i !! "touch-action" =
    if bool_decide (i ∈ querySelectorAll map_widgets doc) then Some "manipulation"
    else None.
Proof. by_cases. Qed.

Lemma writes_cursor (doc : list Node) (i : nat) :
  writes doc i !! "cursor" =
    if bool_decide (i ∈ querySelectorAll info_cards doc) then Some "auto"
    else if bool_decide (getElementById "searchboxinput" doc = Some i) then Some "text"
    else if bool_decide (i ∈ querySelectorAll zoom_controls doc) then Some "pointer"
    else if bool_decide (body doc = Some i) then Some "auto"
    else None.
Proof. by_cases. Qed.

(** X23.  What the interaction patch leaves behind on a document with a
    body.  Every node is still there with its tag, attributes, parent and
    text; of its inline style only [cursor], [pointer-events] and
    [touch-action] can differ.  Every node matched by one of the selectors,
    or being the search box, has [pointer-events: auto]; the map widgets, and
    only they, get [touch-action: manipulation]; and the cursor follows the
    last statement that applies: [auto] on the info cards, else [text] on the
    search box, else [pointer] on the zoom controls, else [auto] on the body,
    else what it was. *)
Theorem patch_result (doc : list Node) (b i : nat) (n : Node) :
  body doc = Some b -> doc !! i = Some n ->
  exists n',
    applyWebviewInteractionFixes true doc !! i = Some n' /\
    tag n' = tag n /\ attrs n' = attrs n /\ parent n' = parent n /\ data n' = data n /\
    (forall k, k <> "cursor" -> k <> "pointer-events" -> k <> "touch-action" ->
       style n' !! k = style n !! k) /\
    (selected doc i -> style n' !! "pointer-events" = Some "auto") /\
    (~ selected doc i -> style n' !! "pointer-events" = style n !! "pointer-events") /\
    style n' !! "touch-action" =
      (if bool_decide (i ∈ querySelectorAll map_widgets doc) then Some "manipulation"
       else style n !! "touch-action") /\
    style n' !! "cursor" =
      (if bool_decide (i ∈ querySelectorAll info_cards doc) then Some "auto"
       else if bool_decide (getElementById "searchboxinput" doc = Some i) then Some "text"
       else if bool_decide (i ∈ querySelectorAll zoom_controls doc) then Some "pointer"
       else if bool_decide (body doc = Some i) then Some "auto"
       else style n !! "cursor").
Proof.
  intros Hb Hn. exists (patched doc i n). split.
  { unfold applyWebviewInteractionFixes.
    by rewrite (interaction_script_lookup doc b i Hb), Hn. }
  rewrite patched_overwrite. unfold overwrite. cbn [tag attrs parent data style].
  repeat split.
  - intros k H1 H2 H3. by rewrite lookup_union_r by by apply writes_other.
  - intros Hs. apply lookup_union_Some_l. by apply writes_pointer_events.
  - intros Hs. apply lookup_union_r. unfold selected in Hs.
    unfold writes. rewrite !bool_decide_eq_false_2 by tauto.
    rewrite !lookup_union, !when_lookup. by destruct (bool_decide _).
  - rewrite lookup_union, writes_touch_action.
    destruct (bool_decide _); [by destruct (style n !! _) | by rewrite (left_id None _)].
  - rewrite lookup_union, writes_cursor.
    repeat (destruct (bool_decide _); [by destruct (style n !! _)|]).
    by rewrite (left_id None _).
Qed.

Lemma patch_result_witness :
  exists n',
    applyWebviewInteractionFixes true (nodes Sample.joes_pizza) !! 3%nat = Some n' /\
    style n' !! "pointer-events" = Some "auto" /\
    style n' !! "touch-action" = Some "manipulation".
Proof.
  destruct (patch_result (nodes Sample.joes_pizza) 1 3
              (Sample.element "div" [("class", "widget-scene"); ("role", "application")]
                 (Some 1%nat)) eq_refl eq_refl)
    as (n' & Hn' & _ & _ & _ & _ & _ & Hpe & _ & Hta & _).
  exists n'. split; [exact Hn'|]. split.
  - apply Hpe. left. vm_compute. by left.
  - exact Hta.
Defined.

End PatchResult.
